(** * SSD1306 OLED driver: framebuffer, raster primitives, transport framing

    A shallow embedding of the SSD1306 driver (its implementation file and
    [ssd1306.h]; a 128x64 monochrome display driven over I2C) together with
    the properties of the driver that its specification states.

    Conventions of the embedding
    - C integers are [Z].  A value stored into a [uint8_t] or [uint16_t]
      object (an assignment, or an argument of a function whose parameter
      has that type) is reduced with [u8] / [u16]; arithmetic on [int]
      stays in [Z], all intermediate values being far below 2^31.
    - [video_memory] is a [list Z] indexed with stdpp's lookup and insert;
      a device is well formed ([device_ok]) when the list has the length of
      the C array and holds bytes.
    - The pixel sink of the raster routines is a parameter of the routine:
      instantiated with [oled_draw_pixel] it is the driver's routine;
      instantiated with a recorder it yields the sequence of calls made.
    - The I2C bus, the allocator and the clock are the [platform] and the
      [machine] state; transmitting routines pass the machine explicitly. *)

From Stdlib Require Import ZArith Bool Lia.
From stdpp Require Import base numbers list list_numbers.

Local Open Scope Z_scope.

(** ** Integer conversions *)

Definition u8 (v : Z) : Z := v mod 256.
Definition u16 (v : Z) : Z := v mod 65536.
Definition u32 (v : Z) : Z := v mod 4294967296.

(** ** Constants of [ssd1306.h] *)

Definition OLED_SCREEN_WIDTH : Z := 128.
Definition OLED_SCREEN_HEIGHT : Z := 64.
Definition OLED_MEMORY_PAGES : Z := OLED_SCREEN_HEIGHT / 8.
Definition OLED_VIDEO_BUFFER_SIZE : Z := OLED_SCREEN_WIDTH * OLED_MEMORY_PAGES.

Definition OLED_CMD_CONTROL_BYTE : Z := 0x00.
Definition OLED_DATA_CONTROL_BYTE : Z := 0x40.

Definition CMD_DISPLAY_ACTIVATE : Z := 0xAF.
Definition CMD_DISPLAY_DEACTIVATE : Z := 0xAE.
Definition CMD_DISPLAY_NORMAL : Z := 0xA6.
Definition CMD_DISPLAY_INVERT : Z := 0xA7.
Definition CMD_DISPLAY_FROM_RAM : Z := 0xA4.
Definition CMD_SET_BRIGHTNESS : Z := 0x81.
Definition CMD_SET_OSC_FREQUENCY : Z := 0xD5.
Definition CMD_SET_MULTIPLEX_RATIO : Z := 0xA8.
Definition CMD_SET_VERTICAL_OFFSET : Z := 0xD3.
Definition CMD_SET_DISPLAY_START_LINE : Z := 0x40.
Definition CMD_CHARGE_PUMP_CONTROL : Z := 0x8D.
Definition CMD_COM_PINS_CONFIG : Z := 0xDA.
Definition CMD_VCOM_DETECTION_LEVEL : Z := 0xDB.
Definition CMD_PRECHARGE_PERIOD : Z := 0xD9.
Definition CMD_MEMORY_ADDRESSING_MODE : Z := 0x20.
Definition CMD_COLUMN_ADDRESS_RANGE : Z := 0x21.
Definition CMD_PAGE_ADDRESS_RANGE : Z := 0x22.
Definition CMD_SEGMENT_REMAP_FLIPPED : Z := 0xA1.
Definition CMD_COM_SCAN_DESCENDING : Z := 0xC8.
Definition OLED_DEFAULT_BRIGHTNESS : Z := 0xCF.

(** ** The device record ([oled_device_t]) *)

Record oled_device_t := mk_device {
  i2c_interface : Z;
  device_address : Z;
  screen_width : Z;
  screen_height : Z;
  video_memory : list Z;
  power_state : bool;
  contrast_level : Z;
  inverted_colors : bool
}.

Definition set_video_memory (d : oled_device_t) (vm : list Z) : oled_device_t :=
  mk_device (i2c_interface d) (device_address d) (screen_width d)
            (screen_height d) vm (power_state d) (contrast_level d)
            (inverted_colors d).

Definition set_contrast_level (d : oled_device_t) (c : Z) : oled_device_t :=
  mk_device (i2c_interface d) (device_address d) (screen_width d)
            (screen_height d) (video_memory d) (power_state d) c
            (inverted_colors d).

Definition is_byte (b : Z) : bool := (0 <=? b) && (b <? 256).

(** The C type of [video_memory] is [uint8_t[OLED_VIDEO_BUFFER_SIZE]]. *)
Definition device_okb (d : oled_device_t) : bool :=
  (Z.of_nat (length (video_memory d)) =? OLED_VIDEO_BUFFER_SIZE)
  && forallb is_byte (video_memory d).

Definition device_ok (d : oled_device_t) : Prop := device_okb d = true.

(** A device whose framebuffer is all zero (what [memset] leaves). *)
Definition blank_device : oled_device_t :=
  mk_device 0 0x3C OLED_SCREEN_WIDTH OLED_SCREEN_HEIGHT
            (replicate (Z.to_nat OLED_VIDEO_BUFFER_SIZE) 0)
            true OLED_DEFAULT_BRIGHTNESS false.

(** ** Pixel buffer engine *)

Definition oled_draw_pixel (device : oled_device_t) (x_pos y_pos : Z)
    (pixel_on : bool) : oled_device_t :=
  if (x_pos >=? OLED_SCREEN_WIDTH) || (y_pos >=? OLED_SCREEN_HEIGHT)
  then device
  else
    let buffer_index := u16 (x_pos + Z.shiftr y_pos 3 * OLED_SCREEN_WIDTH) in
    let bit_position := u8 (Z.shiftl 1 (Z.land y_pos 0x07)) in
    let cell := video_memory device !!! Z.to_nat buffer_index in
    set_video_memory device
      (<[Z.to_nat buffer_index :=
           if pixel_on
           then u8 (Z.lor cell bit_position)
           else u8 (Z.land cell (Z.lnot bit_position))]>
         (video_memory device)).

Definition oled_read_pixel (device : oled_device_t) (x_pos y_pos : Z) : bool :=
  if (x_pos >=? OLED_SCREEN_WIDTH) || (y_pos >=? OLED_SCREEN_HEIGHT)
  then false
  else
    let buffer_index := u16 (x_pos + Z.shiftr y_pos 3 * OLED_SCREEN_WIDTH) in
    let bit_position := u8 (Z.shiftl 1 (Z.land y_pos 0x07)) in
    negb (Z.land (video_memory device !!! Z.to_nat buffer_index) bit_position =? 0).

Definition oled_clear_screen (device : oled_device_t) : oled_device_t :=
  set_video_memory device (replicate (Z.to_nat OLED_VIDEO_BUFFER_SIZE) 0x00).

Definition oled_fill_screen (device : oled_device_t) (fill_pattern : Z)
    : oled_device_t :=
  set_video_memory device
    (replicate (Z.to_nat OLED_VIDEO_BUFFER_SIZE) fill_pattern).

(** [on_screen x y]: the coordinates pass the guard of [oled_draw_pixel]. *)
Definition on_screen (x y : Z) : bool :=
  negb ((x >=? OLED_SCREEN_WIDTH) || (y >=? OLED_SCREEN_HEIGHT)).


(** The bit of the framebuffer that holds pixel [(x, y)]. *)
Definition pixel_bit (d : oled_device_t) (x y : Z) : bool :=
  Z.testbit (video_memory d !!! Z.to_nat (x + y / 8 * 128)) (y mod 8).

(** ** Raster and text routines

    Every routine below reaches the framebuffer only through
    [oled_draw_pixel]; the pixel sink is therefore a parameter
    ([draw_pixel]), and so is the glyph table of [fonts.h]
    ([FONT_MATRIX_6x8], indexed by glyph and column), which is not part of
    the driver sources. *)

Section Raster.
Context {Sink : Type}.
Variable draw_pixel : Sink -> Z -> Z -> bool -> Sink.
Variable FONT_MATRIX_6x8 : Z -> Z -> Z.

(** The [while (true)] loop of [oled_draw_line_segment].  One unit of
    [fuel] is one iteration; [None] means the fuel ran out before the
    [break]. *)
Fixpoint line_loop (fuel : nat) (s : Sink)
    (x2 y2 delta_x delta_y step_x step_y : Z) (line_color : bool)
    (error_term current_x current_y : Z) : option Sink :=
  match fuel with
  | O => None
  | S fuel' =>
      let s := draw_pixel s (u8 current_x) (u8 current_y) line_color in
      if (current_x =? x2) && (current_y =? y2) then Some s
      else
        let error_double := 2 * error_term in
        let '(error_term, current_x) :=
          if error_double >? - delta_y
          then (error_term - delta_y, current_x + step_x)
          else (error_term, current_x) in
        let '(error_term, current_y) :=
          if error_double <? delta_x
          then (error_term + delta_x, current_y + step_y)
          else (error_term, current_y) in
        line_loop fuel' s x2 y2 delta_x delta_y step_x step_y line_color
                  error_term current_x current_y
  end.

Definition oled_draw_line_segment (fuel : nat) (s : Sink)
    (x1 y1 x2 y2 : Z) (line_color : bool) : option Sink :=
  let delta_x := Z.abs (x2 - x1) in
  let delta_y := Z.abs (y2 - y1) in
  let step_x := if x1 <? x2 then 1 else -1 in
  let step_y := if y1 <? y2 then 1 else -1 in
  let error_term := delta_x - delta_y in
  line_loop fuel s x2 y2 delta_x delta_y step_x step_y line_color
            error_term x1 y1.

Definition oled_draw_filled_rectangle (s : Sink)
    (origin_x origin_y rect_width rect_height : Z) (fill_color : bool)
    : Sink :=
  foldl (fun s row =>
           foldl (fun s col =>
                    draw_pixel s (u8 (origin_x + col)) (u8 (origin_y + row))
                               fill_color)
                 s (seqZ 0 rect_width))
        s (seqZ 0 rect_height).

(** The [while (x <= y)] loop of [oled_draw_circle_outline]. *)
Fixpoint circle_loop (fuel : nat) (s : Sink)
    (center_x center_y : Z) (border_color : bool)
    (x y decision_param : Z) : option Sink :=
  match fuel with
  | O => None
  | S fuel' =>
      if x <=? y then
        let s := draw_pixel s (u8 (center_x + x)) (u8 (center_y + y)) border_color in
        let s := draw_pixel s (u8 (center_x + y)) (u8 (center_y + x)) border_color in
        let s := draw_pixel s (u8 (center_x - x)) (u8 (center_y + y)) border_color in
        let s := draw_pixel s (u8 (center_x - y)) (u8 (center_y + x)) border_color in
        let s := draw_pixel s (u8 (center_x + x)) (u8 (center_y - y)) border_color in
        let s := draw_pixel s (u8 (center_x + y)) (u8 (center_y - x)) border_color in
        let s := draw_pixel s (u8 (center_x - x)) (u8 (center_y - y)) border_color in
        let s := draw_pixel s (u8 (center_x - y)) (u8 (center_y - x)) border_color in
        let x := x + 1 in
        if decision_param <? 0
        then circle_loop fuel' s center_x center_y border_color
                         x y (decision_param + (2 * x + 1))
        else
          let y := y - 1 in
          circle_loop fuel' s center_x center_y border_color
                      x y (decision_param + (2 * (x - y) + 1))
      else Some s
  end.

Definition oled_draw_circle_outline (fuel : nat) (s : Sink)
    (center_x center_y radius : Z) (border_color : bool) : option Sink :=
  circle_loop fuel s center_x center_y border_color 0 radius (1 - radius).

(** [strlen]: the characters before the terminating NUL.  A text is the
    list of its character codes; the end of the list stands for the
    terminator as well. *)
Fixpoint strlen (text_string : list Z) : Z :=
  match text_string with
  | [] => 0
  | ch :: rest => if ch =? 0 then 0 else 1 + strlen rest
  end.

Definition oled_calculate_text_width (text_string : list Z) : Z :=
  u16 (u32 (strlen text_string * 7)).

(** The glyph of one character, cleared out of the background. *)
Definition clear_glyph (s : Sink) (cursor_position text_y ch : Z) : Sink :=
  foldl (fun s column =>
           let column_pattern := FONT_MATRIX_6x8 (ch - 32) column in
           foldl (fun s bit =>
                    if negb (Z.land (Z.shiftr column_pattern bit) 0x01 =? 0)
                    then draw_pixel s (u8 (cursor_position + column))
                                    (u8 (text_y + bit)) false
                    else s)
                 s (seqZ 0 8))
        s (seqZ 0 6).

(** The [while] loop of [oled_render_highlighted_text]: it runs while the
    current character is not NUL and the cursor is left of the right
    edge. *)
Fixpoint highlight_loop (s : Sink) (text_y cursor_position : Z)
    (text_string : list Z) : Sink :=
  match text_string with
  | [] => s
  | ch :: rest =>
      if negb (ch =? 0) && (cursor_position <? OLED_SCREEN_WIDTH) then
        let s := if (ch >=? 32) && (ch <=? 126)
                 then clear_glyph s cursor_position text_y ch
                 else s in
        highlight_loop s text_y (u8 (cursor_position + 7)) rest
      else s
  end.

Definition oled_render_highlighted_text (s : Sink)
    (text_x text_y : Z) (text_string : list Z) : Sink :=
  let text_pixel_width := u8 (oled_calculate_text_width text_string) in
  let s := oled_draw_filled_rectangle s (u8 (text_x - 1)) (u8 (text_y - 1))
                                      (u8 (text_pixel_width + 1)) 10 true in
  let cursor_position := text_x in
  highlight_loop s text_y cursor_position text_string.
End Raster.

(** *** The recording sink

    A [plot] is one call of [oled_draw_pixel]: its two coordinate
    arguments and the colour.  [record_pixel] appends the call to the
    sequence; [replay] performs a sequence of calls on a device. *)

Definition plot : Type := Z * Z * bool.

Definition record_pixel (calls : list plot) (x y : Z) (c : bool) : list plot :=
  calls ++ [(x, y, c)].

Definition replay (calls : list plot) (d : oled_device_t) : oled_device_t :=
  foldl (fun d (p : plot) => oled_draw_pixel d p.1.1 p.1.2 p.2) d calls.

(** The coordinates of a call are bytes ([uint8_t] parameters). *)
Definition byte_coords (p : plot) : Prop :=
  0 <= p.1.1 < 256 /\ 0 <= p.1.2 < 256.

(** [d] is what the calls recorded so far make of [d0]. *)
Definition replays (d0 : oled_device_t) (calls : list plot) (d : oled_device_t) : Prop :=
  d = replay calls d0 /\ Forall byte_coords calls.

(** The pixels written with colour [c]: the calls of a sequence that pass
    the bounds guard of [oled_draw_pixel] and carry that colour. *)
Definition plotted (c : bool) (calls : list plot) : list (Z * Z) :=
  fmap (fun p : plot => p.1)
       (filter (fun p : plot => on_screen p.1.1 p.1.2 = true /\ p.2 = c) calls).

(** The pixels that [oled_draw_circle_outline] turns on. *)
Definition circle_lit (center_x center_y radius : Z) : list (Z * Z) :=
  match oled_draw_circle_outline record_pixel (Z.to_nat radius + 2) []
                                 center_x center_y radius true with
  | Some calls => plotted true calls
  | None => []
  end.

(** ** Platform: I2C bus, allocator, clock

    [i2c_write_blocking], [malloc] and [sleep_ms] belong to the SDK.  A
    [platform] fixes how the bus and the allocator answer: the bus answer
    may depend on every frame handed to it so far and on the frame at hand,
    the allocator answer on the number of earlier requests and on the
    size.  The [machine] is what a running program changes: the device
    record, the frames handed to the bus (oldest first), the number of
    allocation requests, and the time slept. *)

Record i2c_frame := mk_frame {
  frame_i2c : Z;
  frame_addr : Z;
  frame_bytes : list Z
}.

Record platform := mk_platform {
  i2c_write_blocking : list i2c_frame -> i2c_frame -> Z;
  malloc_succeeds : nat -> Z -> bool
}.

Record machine := mk_machine {
  dev : oled_device_t;
  bus : list i2c_frame;
  mallocs : nat;
  slept_ms : Z
}.

Definition M (A : Type) : Type := machine -> A * machine.

Definition ret {A : Type} (a : A) : M A := fun m => (a, m).

Definition bind {A B : Type} (c : M A) (k : A -> M B) : M B :=
  fun m => let (a, m') := c m in k a m'.

Notation "'let*' x ':=' c 'in' k" := (bind c (fun x => k))
  (at level 10, x name, c at level 100, k at level 200).
Notation "c ;; k" := (bind c (fun _ => k))
  (at level 100, k at level 200, right associativity).

Definition get_device : M oled_device_t := fun m => (dev m, m).

Definition put_device (d : oled_device_t) : M unit :=
  fun m => (tt, mk_machine d (bus m) (mallocs m) (slept_ms m)).

Definition sleep_ms (ms : Z) : M unit :=
  fun m => (tt, mk_machine (dev m) (bus m) (mallocs m) (slept_ms m + ms)).

(** [for (i = 0; i < n; i++) body(i)] *)
Definition for_each {A : Type} (l : list A) (body : A -> M unit) : M unit :=
  foldr (fun a k => body a ;; k) (ret tt) l.

Section Driver.
Variable P : platform.

(** [i2c_write_blocking(i2c, addr, src, len, false)] with [len] the
    length of [src]. *)
Definition i2c_write (i2c addr : Z) (src : list Z) : M Z :=
  fun m =>
    let f := mk_frame i2c addr src in
    (i2c_write_blocking P (bus m) f,
     mk_machine (dev m) (bus m ++ [f]) (mallocs m) (slept_ms m)).

(** [malloc(size)]: [true] when the result is not NULL. *)
Definition malloc (size : Z) : M bool :=
  fun m =>
    (malloc_succeeds P (mallocs m) size,
     mk_machine (dev m) (bus m) (S (mallocs m)) (slept_ms m)).

Definition transmit_command (command_byte : Z) : M bool :=
  let* device := get_device in
  let transmission_buffer := [OLED_CMD_CONTROL_BYTE; command_byte] in
  let* transfer_result := i2c_write (i2c_interface device) (device_address device)
                               transmission_buffer in
  ret (transfer_result =? 2).

Definition transmit_command_sequence (command_array : list Z) : M unit :=
  for_each command_array (fun command => transmit_command command ;; ret tt).

Definition transfer_video_data (data_ptr : list Z) (data_length : Z) : M bool :=
  let* device := get_device in
  let* transfer_buffer := malloc (data_length + 1) in
  if negb transfer_buffer then ret false
  else
    let transfer_buffer :=
      OLED_DATA_CONTROL_BYTE :: take (Z.to_nat data_length) data_ptr in
    let* transfer_result := i2c_write (i2c_interface device) (device_address device)
                                 transfer_buffer in
    ret (transfer_result =? data_length + 1).

Definition startup_sequence : list Z :=
  [ CMD_DISPLAY_DEACTIVATE;
    CMD_SET_OSC_FREQUENCY; 0x80;
    CMD_SET_MULTIPLEX_RATIO; 0x3F;
    CMD_SET_VERTICAL_OFFSET; 0x00;
    Z.lor CMD_SET_DISPLAY_START_LINE 0x00;
    CMD_CHARGE_PUMP_CONTROL; 0x14;
    CMD_MEMORY_ADDRESSING_MODE; 0x00;
    CMD_SEGMENT_REMAP_FLIPPED;
    CMD_COM_SCAN_DESCENDING;
    CMD_COM_PINS_CONFIG; 0x12;
    CMD_SET_BRIGHTNESS; 0xCF;
    CMD_PRECHARGE_PERIOD; 0xF1;
    CMD_VCOM_DETECTION_LEVEL; 0x40;
    CMD_DISPLAY_FROM_RAM;
    CMD_DISPLAY_NORMAL;
    CMD_DISPLAY_ACTIVATE ].

Definition oled_initialize_display (i2c_bus address : Z) : M bool :=
  let* device := get_device in
  put_device (mk_device i2c_bus address OLED_SCREEN_WIDTH OLED_SCREEN_HEIGHT
                        (video_memory device) true OLED_DEFAULT_BRIGHTNESS
                        false) ;;
  let* device := get_device in
  put_device (oled_clear_screen device) ;;
  transmit_command_sequence startup_sequence ;;
  ret true.

Definition display_window_config : list Z :=
  [ CMD_COLUMN_ADDRESS_RANGE; 0x00; 0x7F;
    CMD_PAGE_ADDRESS_RANGE; 0x00; 0x07 ].

Definition oled_refresh_screen : M bool :=
  transmit_command_sequence display_window_config ;;
  let* device := get_device in
  transfer_video_data (video_memory device) OLED_VIDEO_BUFFER_SIZE.

Definition oled_adjust_brightness (brightness_level : Z) : M unit :=
  let* device := get_device in
  put_device (set_contrast_level device brightness_level) ;;
  transmit_command CMD_SET_BRIGHTNESS ;;
  transmit_command brightness_level ;;
  ret tt.

Definition oled_fade_effect (fade_in : bool) (duration_ms : Z) : M unit :=
  let steps := 20 in
  let step_delay := duration_ms / steps in
  for_each (seqZ 0 steps)
    (fun i =>
       let brightness :=
         u8 (if fade_in then i * 255 / steps else 255 - i * 255 / steps) in
       oled_adjust_brightness brightness ;;
       sleep_ms step_delay) ;;
  if fade_in then
    let* device := get_device in
    oled_adjust_brightness (contrast_level device)
  else ret tt.

(** The column that [oled_horizontal_scroll] reads for column [col]. *)
Definition scroll_source (scroll_left : bool) (col : Z) : Z :=
  if scroll_left
  then Z.rem (col + 1) OLED_SCREEN_WIDTH
  else Z.rem (col - 1 + OLED_SCREEN_WIDTH) OLED_SCREEN_WIDTH.

(** The inner [for] loop of [oled_horizontal_scroll]: the columns of one
    page, read from [backup_buffer]. *)
Definition scroll_page (scroll_left : bool) (backup_buffer : list Z)
    (vm : list Z) (page : Z) : list Z :=
  foldl (fun vm col =>
           let src_col := scroll_source scroll_left col in
           <[Z.to_nat (page * OLED_SCREEN_WIDTH + col) :=
               backup_buffer !!! Z.to_nat (page * OLED_SCREEN_WIDTH + src_col)]> vm)
        vm (seqZ 0 OLED_SCREEN_WIDTH).

(** The outer [for] loop, over the pages. *)
Definition scroll_shift (scroll_left : bool) (backup_buffer : list Z)
    (vm : list Z) : list Z :=
  foldl (scroll_page scroll_left backup_buffer) vm (seqZ 0 OLED_MEMORY_PAGES).

Definition scroll_step (scroll_left : bool) (speed_ms : Z) : M unit :=
  let* device := get_device in
  let backup_buffer := take (Z.to_nat OLED_VIDEO_BUFFER_SIZE) (video_memory device) in
  put_device (set_video_memory device
                (scroll_shift scroll_left backup_buffer (video_memory device))) ;;
  oled_refresh_screen ;;
  sleep_ms speed_ms.

Definition oled_horizontal_scroll (scroll_left : bool)
    (speed_ms distance_pixels : Z) : M unit :=
  for_each (seqZ 0 distance_pixels) (fun _ => scroll_step scroll_left speed_ms).
End Driver.

(** Two concrete platforms: a bus that accepts every byte of every frame,
    and a bus on which no device answers (the SDK then returns a negative
    error code instead of a byte count). *)
Definition good_platform : platform :=
  mk_platform (fun _ f => Z.of_nat (length (frame_bytes f))) (fun _ _ => true).

Definition dead_platform : platform :=
  mk_platform (fun _ _ => -1) (fun _ _ => true).

Definition boot (d : oled_device_t) : machine := mk_machine d [] 0 0.

(** A sequence of calls is closed under reflection through
    [(center_x, center_y)] as far as the screen reaches: whenever the
    mirror image of a call lies on the screen, it is a call of the
    sequence too. *)
Definition reflect_closed (center_x center_y : Z) (calls : list plot) : Prop :=
  forall px py c,
    (px, py, c) ∈ calls ->
    0 <= 2 * center_x - px < OLED_SCREEN_WIDTH ->
    0 <= 2 * center_y - py < OLED_SCREEN_HEIGHT ->
    (2 * center_x - px, 2 * center_y - py, c) ∈ calls.

(** A call of the line loop made before the end point is reached: [a]
    steps along x and [b] steps along y away from the start, not both
    complete. *)
Definition on_the_way (x1 y1 dx dy sx sy : Z) (c : bool) (p : plot) : Prop :=
  exists a b, 0 <= a <= dx /\ 0 <= b <= dy /\ (a < dx \/ b < dy)
              /\ p = (u8 (x1 + sx * a), u8 (y1 + sy * b), c).

(** A call of colour [c] inside the bounding box of the two end points and
    different from the end point [(x2, y2)]. *)
Definition before_end (x1 y1 x2 y2 : Z) (c : bool) (p : plot) : Prop :=
  p.2 = c /\ p.1 <> (x2, y2)
  /\ Z.min x1 x2 <= p.1.1 <= Z.max x1 x2
  /\ Z.min y1 y2 <= p.1.2 <= Z.max y1 y2.

(** A computation that leaves the device record as it found it. *)
Definition keeps_device {A : Type} (c : M A) : Prop :=
  forall m, dev (c m).2 = dev m.

(** The frame that [transmit_command] hands to the bus. *)
Definition command_frame (d : oled_device_t) (command_byte : Z) : i2c_frame :=
  mk_frame (i2c_interface d) (device_address d) [OLED_CMD_CONTROL_BYTE; command_byte].

(** The frame that [oled_refresh_screen] hands to the bus for the pixels. *)
Definition data_frame (d : oled_device_t) : i2c_frame :=
  mk_frame (i2c_interface d) (device_address d)
           (OLED_DATA_CONTROL_BYTE :: video_memory d).

(** Where the byte at index [j] comes from after [k] scroll steps in
    direction [s] (1 for left, -1 for right): same page, column moved by
    [s * k] with wraparound. *)
Definition rotated (s k j : Z) : Z :=
  j / 128 * 128 + (j mod 128 + s * k) mod 128.

(** The calls of [oled_draw_filled_rectangle], row by row. *)
Definition rectangle_calls (origin_x origin_y rect_width rect_height : Z)
    (fill_color : bool) : list plot :=
  seqZ 0 rect_height ≫= fun row =>
    (fun col => (u8 (origin_x + col), u8 (origin_y + row), fill_color))
      <$> seqZ 0 rect_width.

(** The calls that clear one glyph, column by column. *)
Definition glyph_calls (font : Z -> Z -> Z) (cursor_position text_y ch : Z)
    : list plot :=
  seqZ 0 6 ≫= fun column =>
    seqZ 0 8 ≫= fun bit =>
      if negb (Z.land (Z.shiftr (font (ch - 32) column) bit) 0x01 =? 0)
      then [(u8 (cursor_position + column), u8 (text_y + bit), false)]
      else [].

(** A text all of whose characters pass the range test of the text
    routines (printable ASCII, 32 to 126). *)
Definition printable (ch : Z) : bool := (ch >=? 32) && (ch <=? 126).

Definition renderable (text_string : list Z) : Prop :=
  forallb printable text_string = true.

(** A call whose coordinates are the centre plus offsets of at most the
    radius (before the conversion to [uint8_t]). *)
Definition near_center (center_x center_y radius : Z) (p : plot) : Prop :=
  exists a b, - radius <= a <= radius /\ - radius <= b <= radius
              /\ p.1 = (u8 (center_x + a), u8 (center_y + b)).

(** ** The rest of the driver

    The routines of the implementation file that the sections above leave
    out: the remaining raster and text routines (again with the pixel sink
    and the glyph table as parameters) and the remaining controller
    commands. *)

Definition CMD_SEGMENT_REMAP_NORMAL : Z := 0xA0.
Definition CMD_COM_SCAN_ASCENDING : Z := 0xC0.

Definition set_power_state (d : oled_device_t) (p : bool) : oled_device_t :=
  mk_device (i2c_interface d) (device_address d) (screen_width d)
            (screen_height d) (video_memory d) p (contrast_level d)
            (inverted_colors d).

Definition set_inverted_colors (d : oled_device_t) (i : bool) : oled_device_t :=
  mk_device (i2c_interface d) (device_address d) (screen_width d)
            (screen_height d) (video_memory d) (power_state d)
            (contrast_level d) i.

Section RasterMore.
Context {Sink : Type}.
Variable draw_pixel : Sink -> Z -> Z -> bool -> Sink.
Variable FONT_MATRIX_6x8 : Z -> Z -> Z.

(** The four edges, each a call of [oled_draw_line_segment] whose
    arguments are converted to [uint8_t]; the fuel is that of each line. *)
Definition oled_draw_rectangle_outline (fuel : nat) (s : Sink)
    (origin_x origin_y rect_width rect_height : Z) (border_color : bool)
    : option Sink :=
  match oled_draw_line_segment draw_pixel fuel s origin_x origin_y
          (u8 (origin_x + rect_width - 1)) origin_y border_color with
  | None => None
  | Some s =>
  match oled_draw_line_segment draw_pixel fuel s
          origin_x (u8 (origin_y + rect_height - 1))
          (u8 (origin_x + rect_width - 1)) (u8 (origin_y + rect_height - 1))
          border_color with
  | None => None
  | Some s =>
  match oled_draw_line_segment draw_pixel fuel s origin_x origin_y
          origin_x (u8 (origin_y + rect_height - 1)) border_color with
  | None => None
  | Some s =>
      oled_draw_line_segment draw_pixel fuel s
        (u8 (origin_x + rect_width - 1)) origin_y
        (u8 (origin_x + rect_width - 1)) (u8 (origin_y + rect_height - 1))
        border_color
  end end end.

Definition oled_draw_filled_circle (s : Sink)
    (center_x center_y radius : Z) (fill_color : bool) : Sink :=
  foldl (fun s y =>
           foldl (fun s x =>
                    if x * x + y * y <=? radius * radius
                    then draw_pixel s (u8 (center_x + x)) (u8 (center_y + y))
                                    fill_color
                    else s)
                 s (seqZ (- radius) (2 * radius + 1)))
        s (seqZ (- radius) (2 * radius + 1)).

Definition oled_render_character (s : Sink)
    (char_x char_y ascii_char : Z) : Sink :=
  if (ascii_char <? 32) || (ascii_char >? 126) then s
  else
    foldl (fun s column =>
             let column_pattern := FONT_MATRIX_6x8 (ascii_char - 32) column in
             foldl (fun s bit =>
                      let pixel_state :=
                        negb (Z.land (Z.shiftr column_pattern bit) 0x01 =? 0) in
                      draw_pixel s (u8 (char_x + column)) (u8 (char_y + bit))
                                 pixel_state)
                   s (seqZ 0 8))
          s (seqZ 0 6).

(** The [while] loop of [oled_render_text_string]. *)
Fixpoint render_text_loop (s : Sink) (text_y cursor_position : Z)
    (text_string : list Z) : Sink :=
  match text_string with
  | [] => s
  | ch :: rest =>
      if negb (ch =? 0) && (cursor_position <? OLED_SCREEN_WIDTH) then
        let s := oled_render_character s cursor_position text_y ch in
        render_text_loop s text_y (u8 (cursor_position + 7)) rest
      else s
  end.

Definition oled_render_text_string (s : Sink)
    (text_x text_y : Z) (text_string : list Z) : Sink :=
  let cursor_position := text_x in
  render_text_loop s text_y cursor_position text_string.
End RasterMore.

Section DriverMore.
Variable P : platform.

Definition oled_toggle_color_inversion (enable_inversion : bool) : M unit :=
  let* device := get_device in
  put_device (set_inverted_colors device enable_inversion) ;;
  transmit_command P (if enable_inversion then CMD_DISPLAY_INVERT
                      else CMD_DISPLAY_NORMAL) ;;
  ret tt.

Definition oled_set_power_mode (power_on : bool) : M unit :=
  let* device := get_device in
  put_device (set_power_state device power_on) ;;
  transmit_command P (if power_on then CMD_DISPLAY_ACTIVATE
                      else CMD_DISPLAY_DEACTIVATE) ;;
  ret tt.

Definition oled_set_display_rotation (flip_horizontal flip_vertical : bool)
    : M unit :=
  transmit_command P (if flip_horizontal then CMD_SEGMENT_REMAP_FLIPPED
                      else CMD_SEGMENT_REMAP_NORMAL) ;;
  transmit_command P (if flip_vertical then CMD_COM_SCAN_DESCENDING
                      else CMD_COM_SCAN_ASCENDING) ;;
  ret tt.
End DriverMore.

(** The call that the line loop makes after [s.1] steps along x and [s.2]
    steps along y, and the relation between two consecutive states of the
    loop: each coordinate stays or advances by one step, not both stay. *)
Definition line_call (x1 y1 sx sy : Z) (c : bool) (s : Z * Z) : plot :=
  (u8 (x1 + sx * s.1), u8 (y1 + sy * s.2), c).

Definition line_step (s t : Z * Z) : Prop :=
  (t.1 = s.1 \/ t.1 = s.1 + 1) /\ (t.2 = s.2 \/ t.2 = s.2 + 1) /\ t <> s.

(** The calls of [oled_draw_filled_circle], row by row of the bounding
    square. *)
Definition filled_circle_calls (center_x center_y radius : Z)
    (fill_color : bool) : list plot :=
  seqZ (- radius) (2 * radius + 1) ≫= fun y =>
    seqZ (- radius) (2 * radius + 1) ≫= fun x =>
      if x * x + y * y <=? radius * radius
      then [(u8 (center_x + x), u8 (center_y + y), fill_color)]
      else [].

(** A call whose offsets [(a, b)] from the centre lie within [radius] of
    the circle [a² + b² = radius²], measured on the squares. *)
Definition near_circle (center_x center_y radius : Z) (p : plot) : Prop :=
  exists a b, Z.abs (a * a + b * b - radius * radius) <= radius
              /\ p.1 = (u8 (center_x + a), u8 (center_y + b)).

(** The calls of [oled_render_character]: none for a character outside
    32..126, otherwise the 48 pixels of the cell, each with its glyph
    bit. *)
Definition character_calls (font : Z -> Z -> Z) (char_x char_y ascii_char : Z)
    : list plot :=
  if (ascii_char <? 32) || (ascii_char >? 126) then []
  else
    seqZ 0 6 ≫= fun column =>
      (fun bit => (u8 (char_x + column), u8 (char_y + bit),
                   negb (Z.land (Z.shiftr (font (ascii_char - 32) column) bit) 0x01 =? 0)))
        <$> seqZ 0 8.

(** A text without a NUL among its characters. *)
Definition nul_free (text_string : list Z) : Prop :=
  forallb (fun ch => negb (ch =? 0)) text_string = true.

(** The glyph bit that a text drawn at [(text_x, text_y)] puts on pixel
    [(px, py)], if the pixel lies in the 6 by 8 cell of a printable
    character whose cursor is left of the right edge; cells are 7 apart,
    and the rows of a cell, [text_y] to [text_y + 7], are taken modulo
    256 (the row of each call is converted to [uint8_t]). *)
Definition text_pixel (font : Z -> Z -> Z) (text_x text_y : Z)
    (text_string : list Z) (px py : Z) : option bool :=
  let bit := (py - text_y) mod 256 in
  if (text_x <=? px) && (bit <? 8) then
    let i := (px - text_x) / 7 in
    let column := (px - text_x) mod 7 in
    if (column <? 6) && (text_x + 7 * i <? OLED_SCREEN_WIDTH) then
      match text_string !! Z.to_nat i with
      | Some ch =>
          if printable ch
          then Some (Z.testbit (font (ch - 32) column) bit)
          else None
      | None => None
      end
    else None
  else None.

(** * Properties *)

(** ** Bit-level facts *)

Lemma land_pow2_testbit (a k : Z) :
  0 <= k -> Z.land a (2 ^ k) = if Z.testbit a k then 2 ^ k else 0.
Proof.
  intros Hk. apply Z.bits_inj'. intros n Hn.
  rewrite Z.land_spec, Z.pow2_bits_eqb by lia.
  destruct (Z.eqb_spec k n) as [->|Hne].
  - destruct (Z.testbit a n); simpl.
    + rewrite Z.pow2_bits_true; lia.
    + now rewrite Z.bits_0.
  - rewrite andb_false_r. destruct (Z.testbit a k).
    + rewrite Z.pow2_bits_false; lia.
    + now rewrite Z.bits_0.
Qed.

Lemma bit_position_pow2 (y : Z) :
  0 <= y -> u8 (Z.shiftl 1 (Z.land y 0x07)) = 2 ^ (y mod 8).
Proof.
  intros Hy. unfold u8.
  change 0x07 with (Z.ones 3). rewrite Z.land_ones by lia.
  rewrite Z.shiftl_1_l. change (2 ^ 3) with 8.
  apply Z.mod_small.
  assert (0 <= y mod 8 < 8) as Hm by (apply Z.mod_pos_bound; lia).
  split; [apply Z.pow_nonneg; lia|].
  change 256 with (2 ^ 8). apply Z.pow_lt_mono_r; lia.
Qed.

Lemma buffer_index_eq (x y : Z) :
  0 <= x < OLED_SCREEN_WIDTH -> 0 <= y < OLED_SCREEN_HEIGHT ->
  u16 (x + Z.shiftr y 3 * OLED_SCREEN_WIDTH) = x + y / 8 * 128
  /\ 0 <= x + y / 8 * 128 < OLED_VIDEO_BUFFER_SIZE.
Proof.
  change OLED_VIDEO_BUFFER_SIZE with 1024.
  unfold OLED_SCREEN_WIDTH, OLED_SCREEN_HEIGHT, u16.
  intros Hx Hy. rewrite Z.shiftr_div_pow2 by lia. change (2 ^ 3) with 8.
  assert (0 <= y / 8 < 8) by (split; [apply Z.div_pos|apply Z.div_lt_upper_bound]; lia).
  split; [apply Z.mod_small|]; lia.
Qed.

Lemma oled_read_pixel_bit (d : oled_device_t) (x y : Z) :
  0 <= x -> 0 <= y ->
  oled_read_pixel d x y = on_screen x y && pixel_bit d x y.
Proof.
  intros Hx Hy. unfold oled_read_pixel, on_screen, pixel_bit.
  destruct ((x >=? OLED_SCREEN_WIDTH) || (y >=? OLED_SCREEN_HEIGHT)) eqn:G;
    [reflexivity|simpl].
  apply orb_false_elim in G as [Gx Gy].
  destruct (buffer_index_eq x y) as [-> _]; [lia..|].
  rewrite bit_position_pow2 by lia.
  rewrite land_pow2_testbit by (apply Z.mod_pos_bound; lia).
  destruct (Z.testbit _ _); [|reflexivity].
  assert (0 < 2 ^ (y mod 8)) by (apply Z.pow_pos_nonneg; [lia|apply Z.mod_pos_bound; lia]).
  destruct (Z.eqb_spec (2 ^ (y mod 8)) 0); [lia|reflexivity].
Qed.

Lemma on_screen_bounds (x y : Z) :
  on_screen x y = true <-> x < OLED_SCREEN_WIDTH /\ y < OLED_SCREEN_HEIGHT.
Proof.
  unfold on_screen. rewrite negb_true_iff, orb_false_iff.
  unfold Z.geb. destruct (Z.compare_spec x OLED_SCREEN_WIDTH);
    destruct (Z.compare_spec y OLED_SCREEN_HEIGHT); intuition (congruence || lia).
Qed.

Lemma device_ok_length (d : oled_device_t) :
  device_ok d -> length (video_memory d) = 1024%nat.
Proof.
  unfold device_ok, device_okb. intros H.
  apply andb_true_iff in H as [H _]. apply Z.eqb_eq in H.
  change OLED_VIDEO_BUFFER_SIZE with 1024 in H. lia.
Qed.

Lemma u8_range (v : Z) : 0 <= u8 v < 256.
Proof. unfold u8. apply Z.mod_pos_bound. lia. Qed.

Lemma u8_small (v : Z) : 0 <= v < 256 -> u8 v = v.
Proof. unfold u8. apply Z.mod_small. Qed.

Lemma u8_testbit (v k : Z) : 0 <= k < 8 -> Z.testbit (u8 v) k = Z.testbit v k.
Proof.
  intros Hk. unfold u8. change 256 with (2 ^ 8).
  apply Z.mod_pow2_bits_low. lia.
Qed.

Lemma oled_draw_pixel_ok (d : oled_device_t) (x y : Z) (c : bool) :
  device_ok d -> device_ok (oled_draw_pixel d x y c).
Proof.
  unfold device_ok, device_okb, oled_draw_pixel. intros H.
  destruct (_ || _); [exact H|]. simpl.
  apply andb_true_iff in H as [Hl Hb].
  rewrite length_insert, Hl. simpl.
  apply forallb_forall. intros b Hin.
  apply list_elem_of_In, list_elem_of_lookup in Hin as [i Hi].
  apply list_lookup_insert_Some in Hi as [(_ & <- & _)|(_ & Hi)].
  - unfold is_byte.
    destruct c; match goal with |- context [u8 ?v] => pose proof (u8_range v) end;
      apply andb_true_iff; split; [apply Z.leb_le|apply Z.ltb_lt| apply Z.leb_le|apply Z.ltb_lt]; lia.
  - eapply forallb_forall in Hb; [exact Hb|].
    apply list_elem_of_In, list_elem_of_lookup. eauto.
Qed.

(** Reading any pixel after one [oled_draw_pixel]. *)
Lemma oled_read_draw_pixel (d : oled_device_t) (x y x' y' : Z) (c : bool) :
  device_ok d -> 0 <= x -> 0 <= y -> 0 <= x' -> 0 <= y' ->
  oled_read_pixel (oled_draw_pixel d x y c) x' y' =
    if on_screen x y && (x =? x') && (y =? y') then c
    else oled_read_pixel d x' y'.
Proof.
  intros Hok Hx Hy Hx' Hy'.
  pose proof (device_ok_length d Hok) as Hlen.
  rewrite !oled_read_pixel_bit by assumption.
  unfold oled_draw_pixel.
  destruct (on_screen x y) eqn:Hon; unfold on_screen in Hon.
  2:{ apply negb_false_iff in Hon. rewrite Hon. reflexivity. }
  apply negb_true_iff in Hon. rewrite Hon.
  assert (x < OLED_SCREEN_WIDTH /\ y < OLED_SCREEN_HEIGHT) as [Hxw Hyh].
  { apply on_screen_bounds. unfold on_screen. now rewrite Hon. }
  destruct (buffer_index_eq x y) as [-> Hidx]; [lia..|].
  change OLED_VIDEO_BUFFER_SIZE with 1024 in Hidx.
  rewrite bit_position_pow2 by lia.
  assert (0 <= y mod 8 < 8) as Hm by (apply Z.mod_pos_bound; lia).
  destruct (on_screen x' y') eqn:Hon'.
  2:{ simpl. destruct (Z.eqb_spec x x') as [->|]; [|reflexivity].
      destruct (Z.eqb_spec y y') as [->|]; [|reflexivity].
      unfold on_screen in Hon'. rewrite Hon in Hon'. discriminate. }
  apply on_screen_bounds in Hon' as [Hxw' Hyh'].
  unfold OLED_SCREEN_WIDTH, OLED_SCREEN_HEIGHT in *.
  assert (0 <= y' mod 8 < 8) as Hm' by (apply Z.mod_pos_bound; lia).
  simpl andb. unfold pixel_bit. simpl video_memory.
  destruct (decide (x + y / 8 * 128 = x' + y' / 8 * 128)) as [Heq|Hne].
  - assert (x = x' /\ y / 8 = y' / 8) as [-> Hpage] by lia.
    rewrite Z.eqb_refl, <- Hpage. simpl andb.
    rewrite list_lookup_total_insert_eq by lia.
    destruct (Z.eqb_spec y y') as [->|Hyy].
    + destruct c; rewrite u8_testbit by lia.
      * rewrite Z.lor_spec, Z.pow2_bits_true by lia. apply orb_true_r.
      * rewrite Z.land_spec, Z.lnot_spec, Z.pow2_bits_true by lia.
        apply andb_false_r.
    + assert (y mod 8 <> y' mod 8) as Hbit.
      { intros E. apply Hyy.
        rewrite (Z.div_mod y 8), (Z.div_mod y' 8) by lia. lia. }
      destruct c; rewrite u8_testbit by lia.
      * rewrite Z.lor_spec, Z.pow2_bits_false by lia. apply orb_false_r.
      * rewrite Z.land_spec, Z.lnot_spec, Z.pow2_bits_false by lia.
        apply andb_true_r.
  - destruct (buffer_index_eq x' y') as [_ Hidx']; [unfold OLED_SCREEN_WIDTH, OLED_SCREEN_HEIGHT; lia..|].
    rewrite list_lookup_total_insert_ne by lia.
    destruct (Z.eqb_spec x x') as [->|]; [|reflexivity].
    destruct (Z.eqb_spec y y') as [->|]; [|reflexivity].
    lia.
Qed.

(** ** Pixel buffer engine: read after write, out-of-range calls *)

(** C6: for in-range coordinates and any well-formed buffer, the pixel read
    back right after [oled_draw_pixel] wrote it is the value written. *)
Theorem read_after_draw_in_range (d : oled_device_t) (x y : Z) :
  device_ok d ->
  0 <= x < OLED_SCREEN_WIDTH -> 0 <= y < OLED_SCREEN_HEIGHT ->
  oled_read_pixel (oled_draw_pixel d x y true) x y = true
  /\ oled_read_pixel (oled_draw_pixel d x y false) x y = false.
Proof.
  intros Hok Hx Hy.
  assert (on_screen x y = true) as Hon by (apply on_screen_bounds; lia).
  split; rewrite oled_read_draw_pixel by (assumption || lia);
    now rewrite Hon, !Z.eqb_refl.
Qed.

Lemma read_after_draw_in_range_witness :
  oled_read_pixel (oled_draw_pixel (oled_fill_screen blank_device 0xA5) 127 63 true) 127 63 = true
  /\ oled_read_pixel (oled_draw_pixel (oled_fill_screen blank_device 0xA5) 127 63 false) 127 63 = false.
Proof.
  apply (read_after_draw_in_range (oled_fill_screen blank_device 0xA5) 127 63).
  - vm_compute. reflexivity.
  - unfold OLED_SCREEN_WIDTH. lia.
  - unfold OLED_SCREEN_HEIGHT. lia.
Defined.

(** C7: for out-of-range coordinates [oled_draw_pixel] returns the device
    unchanged (whatever the colour) and [oled_read_pixel] returns false. *)
Theorem out_of_range_pixel_noop (d : oled_device_t) (x y : Z) (c : bool) :
  x >= OLED_SCREEN_WIDTH \/ y >= OLED_SCREEN_HEIGHT ->
  oled_draw_pixel d x y c = d
  /\ video_memory (oled_draw_pixel d x y c) = video_memory d
  /\ oled_read_pixel d x y = false.
Proof.
  intros Hout.
  assert ((x >=? OLED_SCREEN_WIDTH) || (y >=? OLED_SCREEN_HEIGHT) = true) as G.
  { apply orb_true_iff. rewrite !Z.geb_le. lia. }
  unfold oled_draw_pixel, oled_read_pixel. rewrite G. auto.
Qed.

Lemma out_of_range_pixel_noop_witness :
  oled_draw_pixel (oled_fill_screen blank_device 0x0F) 128 10 true
    = oled_fill_screen blank_device 0x0F
  /\ video_memory (oled_draw_pixel (oled_fill_screen blank_device 0x0F) 128 10 true)
     = video_memory (oled_fill_screen blank_device 0x0F)
  /\ oled_read_pixel (oled_fill_screen blank_device 0x0F) 128 10 = false.
Proof.
  apply (out_of_range_pixel_noop (oled_fill_screen blank_device 0x0F) 128 10 true).
  left. unfold OLED_SCREEN_WIDTH. lia.
Defined.

(** ** Two sinks in step

    The control flow of a raster routine never looks at the sink, so a
    relation between two sinks that one call of the pixel routines
    preserves (the coordinates being bytes, as the [uint8_t] parameters
    make them) is preserved by the whole routine. *)

Section Simulation.
Context {A B : Type}.
Variable drawA : A -> Z -> Z -> bool -> A.
Variable drawB : B -> Z -> Z -> bool -> B.
Variable R : A -> B -> Prop.
Hypothesis draw_related : forall a b x y c,
  0 <= x < 256 -> 0 <= y < 256 ->
  R a b -> R (drawA a x y c) (drawB b x y c).

Lemma draw_u8_related a b v w c :
  R a b -> R (drawA a (u8 v) (u8 w) c) (drawB b (u8 v) (u8 w) c).
Proof. intros. apply draw_related; auto using u8_range. Qed.

Lemma line_loop_related fuel :
  forall a b x2 y2 dx dy sx sy c e x y,
    R a b ->
    option_Forall2 R (line_loop drawA fuel a x2 y2 dx dy sx sy c e x y)
                     (line_loop drawB fuel b x2 y2 dx dy sx sy c e x y).
Proof.
  induction fuel as [|fuel IH]; intros a b x2 y2 dx dy sx sy c e x y HR; simpl.
  - constructor.
  - destruct ((x =? x2) && (y =? y2)).
    + constructor. now apply draw_u8_related.
    + destruct (2 * e >? - dy), (2 * e <? dx);
        apply IH; now apply draw_u8_related.
Qed.

Lemma circle_loop_related fuel :
  forall a b cx cy c x y dp,
    R a b ->
    option_Forall2 R (circle_loop drawA fuel a cx cy c x y dp)
                     (circle_loop drawB fuel b cx cy c x y dp).
Proof.
  induction fuel as [|fuel IH]; intros a b cx cy c x y dp HR; simpl.
  - constructor.
  - destruct (x <=? y); [|now constructor].
    destruct (dp <? 0); apply IH; repeat apply draw_u8_related; exact HR.
Qed.

Lemma foldl_related {T : Type} (f : A -> T -> A) (g : B -> T -> B) (l : list T) :
  (forall a b t, R a b -> R (f a t) (g b t)) ->
  forall a b, R a b -> R (foldl f a l) (foldl g b l).
Proof.
  intros Hstep. induction l as [|t l IH]; intros a b HR; simpl; auto.
Qed.

Lemma filled_rectangle_related a b ox oy w h c :
  R a b ->
  R (oled_draw_filled_rectangle drawA a ox oy w h c)
    (oled_draw_filled_rectangle drawB b ox oy w h c).
Proof.
  intros HR. unfold oled_draw_filled_rectangle.
  apply foldl_related; [|exact HR]. intros a' b' row HR'.
  apply foldl_related; [|exact HR']. intros a'' b'' col HR''.
  now apply draw_u8_related.
Qed.

Lemma clear_glyph_related font a b cursor ty ch :
  R a b ->
  R (clear_glyph drawA font a cursor ty ch) (clear_glyph drawB font b cursor ty ch).
Proof.
  intros HR. unfold clear_glyph.
  apply foldl_related; [|exact HR]. intros a' b' column HR'.
  apply foldl_related; [|exact HR']. intros a'' b'' bit HR''.
  destruct (negb _); [now apply draw_u8_related|exact HR''].
Qed.

Lemma highlight_loop_related font text :
  forall a b ty cursor,
    R a b ->
    R (highlight_loop drawA font a ty cursor text)
      (highlight_loop drawB font b ty cursor text).
Proof.
  induction text as [|ch rest IH]; intros a b ty cursor HR; simpl; [exact HR|].
  destruct (negb (ch =? 0) && (cursor <? OLED_SCREEN_WIDTH)); [|exact HR].
  apply IH. destruct ((ch >=? 32) && (ch <=? 126)); [|exact HR].
  now apply clear_glyph_related.
Qed.

Lemma highlighted_text_related font a b tx ty text :
  R a b ->
  R (oled_render_highlighted_text drawA font a tx ty text)
    (oled_render_highlighted_text drawB font b tx ty text).
Proof.
  intros HR. unfold oled_render_highlighted_text.
  apply highlight_loop_related. now apply filled_rectangle_related.
Qed.
End Simulation.

(** *** The recorder against the framebuffer *)

Lemma replay_snoc calls x y c d :
  replay (record_pixel calls x y c) d = oled_draw_pixel (replay calls d) x y c.
Proof. unfold replay, record_pixel. now rewrite foldl_app. Qed.

Lemma replay_app calls1 calls2 d :
  replay (calls1 ++ calls2) d = replay calls2 (replay calls1 d).
Proof. unfold replay. now rewrite foldl_app. Qed.

Lemma replays_draw d0 calls d x y c :
  0 <= x < 256 -> 0 <= y < 256 ->
  replays d0 calls d -> replays d0 (record_pixel calls x y c) (oled_draw_pixel d x y c).
Proof.
  intros Hx Hy [-> Hall]. split; [now rewrite replay_snoc|].
  unfold record_pixel. apply Forall_app. split; [exact Hall|].
  repeat constructor; simpl; lia.
Qed.

Lemma replays_nil d : replays d [] d.
Proof. split; [reflexivity|constructor]. Qed.

Lemma replay_ok calls d : device_ok d -> device_ok (replay calls d).
Proof.
  revert d. induction calls as [|p calls IH]; intros d Hok; simpl; [exact Hok|].
  apply IH. now apply oled_draw_pixel_ok.
Qed.

Lemma elem_of_plotted c calls x y :
  (x, y) ∈ plotted c calls <-> (x, y, c) ∈ calls /\ on_screen x y = true.
Proof.
  unfold plotted. rewrite list_elem_of_fmap. split.
  - intros ([[px py] pc] & Heq & Hin). simpl in Heq. injection Heq as <- <-.
    apply list_elem_of_filter in Hin as [[Hon Hc] Hin]. simpl in *.
    subst pc. auto.
  - intros [Hin Hon]. exists (x, y, c). split; [reflexivity|].
    apply list_elem_of_filter. simpl. auto.
Qed.

(** Reading a pixel after a sequence of calls that all carry colour [c]. *)
Lemma read_replay_colour c calls :
  forall d x y,
    device_ok d -> Forall byte_coords calls -> Forall (fun p : plot => p.2 = c) calls ->
    0 <= x -> 0 <= y ->
    oled_read_pixel (replay calls d) x y =
      if bool_decide ((x, y) ∈ plotted c calls) then c else oled_read_pixel d x y.
Proof.
  induction calls as [|[[px py] pc] calls IH] using rev_ind;
    intros d x y Hok Hbytes Hcol Hx Hy.
  - change (replay [] d) with d. rewrite bool_decide_eq_false_2; [reflexivity|].
    rewrite elem_of_plotted. intros [Hin _]. now apply not_elem_of_nil in Hin.
  - apply Forall_app in Hbytes as [Hbytes Hp]. apply Forall_app in Hcol as [Hcol Hpc].
    apply Forall_inv in Hp as [Hpx Hpy]. apply Forall_inv in Hpc. simpl in *. subst pc.
    rewrite replay_app. simpl.
    rewrite oled_read_draw_pixel by (auto using replay_ok || lia).
    rewrite IH by assumption.
    destruct (on_screen px py && (px =? x) && (py =? y)) eqn:Hhit.
    + apply andb_true_iff in Hhit as [Hhit Hy']. apply andb_true_iff in Hhit as [Hon Hx'].
      apply Z.eqb_eq in Hx', Hy'. subst px py.
      rewrite bool_decide_eq_true_2; [reflexivity|].
      apply elem_of_plotted. split; [|exact Hon].
      apply elem_of_app. right. apply list_elem_of_singleton. reflexivity.
    + rewrite (bool_decide_ext ((x, y) ∈ plotted c (calls ++ [(px, py, c)]))
                               ((x, y) ∈ plotted c calls)); [reflexivity|].
      rewrite !elem_of_plotted, elem_of_app, list_elem_of_singleton.
      split; [|tauto]. intros [[Hin|Heq] Hon]; [tauto|].
      injection Heq as -> ->. rewrite Hon, !Z.eqb_refl in Hhit. discriminate.
Qed.

(** ** Circle outline *)

Lemma u8_reflect (c a : Z) :
  0 <= 2 * c - u8 (c + a) < 256 -> u8 (c - a) = 2 * c - u8 (c + a).
Proof. unfold u8. intros H. Z.div_mod_to_equations. lia. Qed.

Lemma reflect_closed_app cx cy calls1 calls2 :
  reflect_closed cx cy calls1 -> reflect_closed cx cy calls2 ->
  reflect_closed cx cy (calls1 ++ calls2).
Proof.
  intros H1 H2 px py c Hin Hx Hy. apply elem_of_app.
  apply elem_of_app in Hin as [Hin|Hin]; [left; now apply H1|right; now apply H2].
Qed.

(** The eight calls of one iteration of the circle loop. *)
Lemma circle_block_closed cx cy c x y :
  reflect_closed cx cy
    [ (u8 (cx + x), u8 (cy + y), c); (u8 (cx + y), u8 (cy + x), c);
      (u8 (cx - x), u8 (cy + y), c); (u8 (cx - y), u8 (cy + x), c);
      (u8 (cx + x), u8 (cy - y), c); (u8 (cx + y), u8 (cy - x), c);
      (u8 (cx - x), u8 (cy - y), c); (u8 (cx - y), u8 (cy - x), c) ].
Proof.
  assert (forall k a, 0 <= 2 * k - u8 (k - a) < 256 -> u8 (k + a) = 2 * k - u8 (k - a)) as Hneg.
  { intros k a H. replace (k + a) with (k - - a) by lia.
    apply u8_reflect. now replace (k + - a) with (k - a) by lia. }
  intros px py c' Hin Hx Hy.
  unfold OLED_SCREEN_WIDTH in Hx. unfold OLED_SCREEN_HEIGHT in Hy.
  repeat (apply elem_of_cons in Hin as [Hin|Hin];
          [injection Hin as -> -> ->;
           rewrite <- ?u8_reflect, <- ?Hneg by lia;
           repeat first [apply list_elem_of_here | apply list_elem_of_further] |]).
  now apply elem_of_nil in Hin.
Qed.

Lemma circle_loop_record cx cy c fuel :
  forall acc x y dp out,
    circle_loop record_pixel fuel acc cx cy c x y dp = Some out ->
    exists new, out = acc ++ new
                /\ reflect_closed cx cy new
                /\ Forall (fun p : plot => p.2 = c) new.
Proof.
  induction fuel as [|fuel IH]; intros acc x y dp out; simpl; [discriminate|].
  destruct (x <=? y).
  - intros Hrun.
    assert (exists new, out = (acc ++ [ (u8 (cx + x), u8 (cy + y), c); (u8 (cx + y), u8 (cy + x), c);
      (u8 (cx - x), u8 (cy + y), c); (u8 (cx - y), u8 (cy + x), c);
      (u8 (cx + x), u8 (cy - y), c); (u8 (cx + y), u8 (cy - x), c);
      (u8 (cx - x), u8 (cy - y), c); (u8 (cx - y), u8 (cy - x), c) ]) ++ new
      /\ reflect_closed cx cy new /\ Forall (fun p : plot => p.2 = c) new)
      as (new & -> & Hsym & Hcol).
    { unfold record_pixel in Hrun. rewrite <- !app_assoc in Hrun. simpl in Hrun.
      destruct (dp <? 0); apply IH in Hrun; exact Hrun. }
    eexists. split; [symmetry; apply app_assoc|]. split.
    + apply reflect_closed_app; [apply circle_block_closed|exact Hsym].
    + apply Forall_app. split; [repeat constructor|exact Hcol].
  - intros [= <-]. exists []. split; [now rewrite app_nil_r|].
    split; [|constructor]. intros ? ? ? Hin. now apply elem_of_nil in Hin.
Qed.

(** The circle loop ends: [y - x] shrinks with every iteration. *)
Lemma circle_loop_total {Sink : Type} (draw : Sink -> Z -> Z -> bool -> Sink)
    cx cy c fuel :
  forall s x y dp,
    Z.max 0 (y - x + 1) < Z.of_nat fuel ->
    is_Some (circle_loop draw fuel s cx cy c x y dp).
Proof.
  induction fuel as [|fuel IH]; intros s x y dp Hfuel; simpl.
  - lia.
  - destruct (Z.leb_spec x y); [|eauto].
    destruct (dp <? 0); apply IH; lia.
Qed.

(** Fuel beyond what the loop needs changes nothing. *)
Lemma circle_loop_more_fuel {Sink : Type} (draw : Sink -> Z -> Z -> bool -> Sink)
    cx cy c fuel :
  forall k s x y dp out,
    circle_loop draw fuel s cx cy c x y dp = Some out ->
    circle_loop draw (fuel + k) s cx cy c x y dp = Some out.
Proof.
  induction fuel as [|fuel IH]; intros k s x y dp out; simpl; [discriminate|].
  destruct (x <=? y); [|auto].
  destruct (dp <? 0); apply IH.
Qed.

Lemma circle_outline_calls cx cy r :
  exists calls,
    oled_draw_circle_outline record_pixel (Z.to_nat r + 2) [] cx cy r true = Some calls
    /\ circle_lit cx cy r = plotted true calls
    /\ reflect_closed cx cy calls
    /\ Forall (fun p : plot => p.2 = true) calls.
Proof.
  destruct (circle_loop_total record_pixel cx cy true (Z.to_nat r + 2) [] 0 r (1 - r))
    as [calls Hcalls]; [lia|].
  exists calls. unfold circle_lit, oled_draw_circle_outline. rewrite Hcalls.
  split; [reflexivity|]. split; [reflexivity|].
  apply circle_loop_record in Hcalls as (new & -> & Hsym & Hcol). auto.
Qed.

(** C3 (amended): drawing a circle outline of any centre and radius on a
    well-formed device returns as soon as the fuel exceeds [radius + 1]
    iterations (the radius being a [uint8_t], so not negative); a pixel then reads on exactly when it is one of the pixels
    the routine turned on or was on before; and every pixel turned on
    whose mirror image through the centre lies on the screen has that
    mirror image turned on as well. *)
Theorem circle_outline_reflection (d : oled_device_t) (cx cy r : Z) (fuel : nat) :
  device_ok d ->
  0 <= r -> r + 1 < Z.of_nat fuel ->
  exists d',
    oled_draw_circle_outline oled_draw_pixel fuel d cx cy r true = Some d'
    /\ (forall px py, 0 <= px -> 0 <= py ->
          oled_read_pixel d' px py =
            bool_decide ((px, py) ∈ circle_lit cx cy r) || oled_read_pixel d px py)
    /\ (forall px py,
          (px, py) ∈ circle_lit cx cy r ->
          0 <= 2 * cx - px < OLED_SCREEN_WIDTH ->
          0 <= 2 * cy - py < OLED_SCREEN_HEIGHT ->
          (2 * cx - px, 2 * cy - py) ∈ circle_lit cx cy r).
Proof.
  intros Hok Hr Hfuel.
  destruct (circle_outline_calls cx cy r) as (calls & Hcalls & -> & Hsym & Hcol).
  unfold oled_draw_circle_outline in *.
  assert (Z.to_nat r + 2 <= fuel)%nat as Hle by lia.
  apply (circle_loop_more_fuel _ _ _ _ _ (fuel - (Z.to_nat r + 2))%nat) in Hcalls.
  rewrite Nat.add_comm, Nat.sub_add in Hcalls by exact Hle.
  pose proof (circle_loop_related record_pixel oled_draw_pixel (replays d)
                (replays_draw d) fuel [] d cx cy true 0 r (1 - r)
                (replays_nil d)) as Hrel.
  rewrite Hcalls in Hrel.
  inversion Hrel as [calls' d' [-> Hbytes] E1 E2|]. subst calls'.
  exists (replay calls d). split; [reflexivity|]. split.
  - intros px py Hpx Hpy.
    rewrite (read_replay_colour true) by assumption.
    now destruct (bool_decide _).
  - intros px py Hin Hx Hy.
    apply elem_of_plotted in Hin as [Hin _]. apply elem_of_plotted.
    split; [now apply Hsym|].
    apply on_screen_bounds. lia.
Qed.

Lemma circle_outline_reflection_witness :
  exists d',
    oled_draw_circle_outline oled_draw_pixel 7 blank_device 20 20 5 true = Some d'
    /\ (forall px py, 0 <= px -> 0 <= py ->
          oled_read_pixel d' px py =
            bool_decide ((px, py) ∈ circle_lit 20 20 5) || oled_read_pixel blank_device px py)
    /\ (forall px py,
          (px, py) ∈ circle_lit 20 20 5 ->
          0 <= 2 * 20 - px < OLED_SCREEN_WIDTH ->
          0 <= 2 * 20 - py < OLED_SCREEN_HEIGHT ->
          (2 * 20 - px, 2 * 20 - py) ∈ circle_lit 20 20 5).
Proof.
  apply (circle_outline_reflection blank_device 20 20 5 7).
  - vm_compute. reflexivity.
  - lia.
  - lia.
Defined.

(** C3 as stated fails where the screen edge clips the circle: centred at
    the origin with radius 1, pixel (1, 0) is turned on and its mirror
    image (-1, 0) is not. *)
Lemma circle_outline_clipped_asymmetric :
  (1, 0) ∈ circle_lit 0 0 1
  /\ (2 * 0 - 1, 2 * 0 - 0) ∉ circle_lit 0 0 1.
Proof.
  assert (circle_lit 0 0 1 = [(0, 1); (1, 0); (0, 1); (1, 0)]) as ->
    by (vm_compute; reflexivity).
  split.
  - apply list_elem_of_further, list_elem_of_here.
  - intros Hin. repeat (apply elem_of_cons in Hin as [Hin|Hin]; [discriminate|]).
    now apply elem_of_nil in Hin.
Qed.

(** The offsets of the circle loop never exceed the radius. *)
Lemma circle_loop_near cx cy r c fuel :
  forall acc x y dp out,
    0 <= x -> y <= r ->
    circle_loop record_pixel fuel acc cx cy c x y dp = Some out ->
    exists new, out = acc ++ new /\ Forall (near_center cx cy r) new.
Proof.
  induction fuel as [|fuel IH]; intros acc x y dp out Hx Hy; simpl; [discriminate|].
  destruct (Z.leb_spec x y) as [Hxy|Hxy].
  - intros Hrun. unfold record_pixel in Hrun. rewrite <- !app_assoc in Hrun. simpl in Hrun.
    assert (exists new, out = (acc ++ [ (u8 (cx + x), u8 (cy + y), c); (u8 (cx + y), u8 (cy + x), c);
      (u8 (cx - x), u8 (cy + y), c); (u8 (cx - y), u8 (cy + x), c);
      (u8 (cx + x), u8 (cy - y), c); (u8 (cx + y), u8 (cy - x), c);
      (u8 (cx - x), u8 (cy - y), c); (u8 (cx - y), u8 (cy - x), c) ]) ++ new
      /\ Forall (near_center cx cy r) new) as (new & -> & Hnear)
      by (destruct (dp <? 0); apply IH in Hrun; (exact Hrun || lia)).
    eexists. split; [symmetry; apply app_assoc|].
    apply Forall_app. split; [|exact Hnear].
    repeat apply Forall_cons_2; try apply Forall_nil_2.
    + exists x, y. repeat split; lia.
    + exists y, x. repeat split; lia.
    + exists (- x), y. repeat split; lia.
    + exists (- y), x. repeat split; lia.
    + exists x, (- y). repeat split; lia.
    + exists y, (- x). repeat split; lia.
    + exists (- x), (- y). repeat split; lia.
    + exists (- y), (- x). repeat split; lia.
  - intros [= <-]. exists []. split; [now rewrite app_nil_r|constructor].
Qed.

(** A circle that lies wholly on the screen is lit symmetrically. *)
Lemma circle_outline_symmetric_on_screen (cx cy r : Z) :
  0 <= r -> r <= cx -> cx + r < OLED_SCREEN_WIDTH ->
  r <= cy -> cy + r < OLED_SCREEN_HEIGHT ->
  forall px py,
    (px, py) ∈ circle_lit cx cy r -> (2 * cx - px, 2 * cy - py) ∈ circle_lit cx cy r.
Proof.
  unfold OLED_SCREEN_WIDTH, OLED_SCREEN_HEIGHT. intros Hr Hcx Hcxr Hcy Hcyr px py Hin.
  destruct (circle_outline_calls cx cy r) as (calls & Hcalls & Hlit & Hsym & Hcol).
  rewrite Hlit in Hin |- *.
  apply elem_of_plotted in Hin as [Hin Hon].
  unfold oled_draw_circle_outline in Hcalls.
  apply circle_loop_near with (r := r) in Hcalls as (new & -> & Hnear); [|lia..].
  rewrite app_nil_l in *.
  rewrite Forall_forall in Hnear.
  destruct (Hnear _ Hin) as (a & b & Ha & Hb & [= -> ->]).
  rewrite (u8_small (cx + a)), (u8_small (cy + b)) in * by lia.
  apply elem_of_plotted. split.
  - apply Hsym; [exact Hin|unfold OLED_SCREEN_WIDTH; lia|unfold OLED_SCREEN_HEIGHT; lia].
  - apply on_screen_bounds. unfold OLED_SCREEN_WIDTH, OLED_SCREEN_HEIGHT. lia.
Qed.

(** ** Line segment (Bresenham) *)

Section LineLoop.
Variables x1 y1 x2 y2 dx dy sx sy : Z.
Variable c : bool.
Hypothesis dx_nonneg : 0 <= dx.
Hypothesis dy_nonneg : 0 <= dy.
Hypothesis sx_unit : sx = 1 \/ sx = -1.
Hypothesis sy_unit : sy = 1 \/ sy = -1.
Hypothesis x2_eq : x2 = x1 + sx * dx.
Hypothesis y2_eq : y2 = y1 + sy * dy.

(** After [a] steps along x and [b] along y the error term is
    [dx - dy + b * dx - a * dy]; the loop then runs at most
    [(dx - a) + (dy - b) + 1] more iterations and its last call is the
    end point. *)
Lemma line_loop_run fuel :
  forall acc a b e X Y,
    0 <= a <= dx -> 0 <= b <= dy ->
    e = dx - dy + b * dx - a * dy ->
    X = x1 + sx * a -> Y = y1 + sy * b ->
    (dx - a) + (dy - b) < Z.of_nat fuel ->
    exists new,
      line_loop record_pixel fuel acc x2 y2 dx dy sx sy c e X Y
        = Some (acc ++ new ++ [(u8 x2, u8 y2, c)])
      /\ Forall (on_the_way x1 y1 dx dy sx sy c) new
      /\ Z.of_nat (length new) <= (dx - a) + (dy - b)
      /\ head (new ++ [(u8 x2, u8 y2, c)]) = Some (u8 X, u8 Y, c).
Proof.
  induction fuel as [|fuel IH]; intros acc a b e X Y Ha Hb He HX HY Hfuel; [lia|].
  simpl.
  destruct (Z.eqb_spec X x2) as [EX|NX], (Z.eqb_spec Y y2) as [EY|NY]; simpl.
  1:{ exists []. subst X Y. rewrite <- EX, <- EY. simpl.
      repeat split; [constructor|lia]. }
  all: assert (a < dx \/ b < dy) as Hgo
    by (destruct (Z.eq_dec a dx), (Z.eq_dec b dy); subst; try lia; congruence).
  all: assert (on_the_way x1 y1 dx dy sx sy c (u8 X, u8 Y, c)) as Hcall
    by (exists a, b; subst X Y; auto).
  all: assert (a = dx -> 2 * e <= - dy) as Hxdone by (intros ->; nia).
  all: assert (b = dy -> dx <= 2 * e) as Hydone by (intros ->; nia).
  all: rewrite Z.gtb_ltb;
    destruct (Z.ltb_spec (- dy) (2 * e)) as [Gx|Gx],
             (Z.ltb_spec (2 * e) dx) as [Gy|Gy]; try lia.
  all: match goal with
       | |- context [line_loop _ _ ?s _ _ _ _ _ _ _ ?e' ?X' ?Y'] =>
           first [ destruct (IH s (a + 1) (b + 1) e' X' Y')
                     as (new & Hrun & Hall & Hlen & Hhd); [lia..|]
                 | destruct (IH s (a + 1) b e' X' Y')
                     as (new & Hrun & Hall & Hlen & Hhd); [lia..|]
                 | destruct (IH s a (b + 1) e' X' Y')
                     as (new & Hrun & Hall & Hlen & Hhd); [lia..|] ]
       end.
  all: exists ((u8 X, u8 Y, c) :: new); rewrite Hrun;
    unfold record_pixel; rewrite <- app_assoc; simpl;
    repeat split; [constructor; assumption | lia].
Qed.
End LineLoop.

Lemma on_the_way_before_end x1 y1 x2 y2 c p :
  0 <= x1 < 256 -> 0 <= y1 < 256 -> 0 <= x2 < 256 -> 0 <= y2 < 256 ->
  on_the_way x1 y1 (Z.abs (x2 - x1)) (Z.abs (y2 - y1))
             (if x1 <? x2 then 1 else -1) (if y1 <? y2 then 1 else -1) c p ->
  before_end x1 y1 x2 y2 c p.
Proof.
  intros Hx1 Hy1 Hx2 Hy2 (a & b & Ha & Hb & Hgo & ->).
  assert (0 <= x1 + (if x1 <? x2 then 1 else -1) * a < 256
          /\ Z.min x1 x2 <= x1 + (if x1 <? x2 then 1 else -1) * a <= Z.max x1 x2
          /\ (x1 + (if x1 <? x2 then 1 else -1) * a = x2 -> a = Z.abs (x2 - x1)))
    as (Hxr & Hxbox & Hxend) by (destruct (Z.ltb_spec x1 x2); lia).
  assert (0 <= y1 + (if y1 <? y2 then 1 else -1) * b < 256
          /\ Z.min y1 y2 <= y1 + (if y1 <? y2 then 1 else -1) * b <= Z.max y1 y2
          /\ (y1 + (if y1 <? y2 then 1 else -1) * b = y2 -> b = Z.abs (y2 - y1)))
    as (Hyr & Hybox & Hyend) by (destruct (Z.ltb_spec y1 y2); lia).
  unfold before_end. simpl. rewrite !u8_small by assumption.
  repeat split; try lia. intros [= Ex Ey]. lia.
Qed.

(** Checks from the specification's test list. *)
Example text_width_AB : oled_calculate_text_width [65; 66] = 14.
Proof. reflexivity. Qed.

Example line_single_point :
  oled_draw_line_segment record_pixel 1 [] 0 0 0 0 true = Some [(0, 0, true)].
Proof. reflexivity. Qed.

Example line_horizontal_11 :
  oled_draw_line_segment record_pixel 11 [] 0 0 10 0 true
  = Some ((fun x => (x, 0, true)) <$> seqZ 0 11).
Proof. vm_compute. reflexivity. Qed.

(** ** Transport framing and lifecycle *)

Section DriverFacts.
Variable P : platform.

Lemma keeps_device_ret {A : Type} (a : A) : keeps_device (ret a).
Proof. intros m. reflexivity. Qed.

Lemma keeps_device_bind {A B : Type} (c : M A) (k : A -> M B) :
  keeps_device c -> (forall a, keeps_device (k a)) -> keeps_device (bind c k).
Proof.
  intros Hc Hk m. unfold bind. specialize (Hc m).
  destruct (c m) as [a m']. simpl in *. now rewrite Hk.
Qed.

Lemma keeps_device_for_each {A : Type} (l : list A) (body : A -> M unit) :
  (forall a, keeps_device (body a)) -> keeps_device (for_each l body).
Proof.
  intros Hbody. induction l as [|a l IH]; simpl.
  - apply keeps_device_ret.
  - apply keeps_device_bind; auto.
Qed.

Lemma transmit_command_run command_byte m :
  transmit_command P command_byte m =
    (i2c_write_blocking P (bus m) (command_frame (dev m) command_byte) =? 2,
     mk_machine (dev m) (bus m ++ [command_frame (dev m) command_byte])
                (mallocs m) (slept_ms m)).
Proof. reflexivity. Qed.

Lemma keeps_device_transmit_command command_byte :
  keeps_device (transmit_command P command_byte).
Proof. intros m. reflexivity. Qed.

Lemma keeps_device_transmit_command_sequence command_array :
  keeps_device (transmit_command_sequence P command_array).
Proof.
  apply keeps_device_for_each. intros command.
  apply keeps_device_bind; [apply keeps_device_transmit_command|].
  intros _. apply keeps_device_ret.
Qed.

(** What a command sequence does to the machine: one command frame per
    element, in order; nothing else changes and the answers of the bus
    are dropped. *)
Lemma transmit_command_sequence_run command_array :
  forall m,
    transmit_command_sequence P command_array m =
      (tt, mk_machine (dev m)
                      (bus m ++ (command_frame (dev m) <$> command_array))
                      (mallocs m) (slept_ms m)).
Proof.
  induction command_array as [|command rest IH]; intros m.
  - destruct m. simpl. now rewrite app_nil_r.
  - change (transmit_command_sequence P (command :: rest) m)
      with (transmit_command_sequence P rest
              (snd (transmit_command P command m))).
    rewrite transmit_command_run, IH. simpl. now rewrite <- app_assoc.
Qed.

Lemma keeps_device_transfer_video_data data_ptr data_length :
  keeps_device (transfer_video_data P data_ptr data_length).
Proof.
  intros m. unfold transfer_video_data, bind, get_device, malloc. simpl.
  destruct (malloc_succeeds P (mallocs m) (data_length + 1)); reflexivity.
Qed.

Lemma keeps_device_refresh : keeps_device (oled_refresh_screen P).
Proof.
  unfold oled_refresh_screen.
  apply keeps_device_bind; [apply keeps_device_transmit_command_sequence|].
  intros _ m. unfold bind, get_device. simpl.
  apply keeps_device_transfer_video_data.
Qed.

Lemma transfer_video_data_run data_ptr data_length m :
  transfer_video_data P data_ptr data_length m =
    let f := mk_frame (i2c_interface (dev m)) (device_address (dev m))
                      (OLED_DATA_CONTROL_BYTE :: take (Z.to_nat data_length) data_ptr) in
    if malloc_succeeds P (mallocs m) (data_length + 1)
    then (i2c_write_blocking P (bus m) f =? data_length + 1,
          mk_machine (dev m) (bus m ++ [f]) (S (mallocs m)) (slept_ms m))
    else (false, mk_machine (dev m) (bus m) (S (mallocs m)) (slept_ms m)).
Proof.
  unfold transfer_video_data, bind, get_device, malloc. simpl.
  destruct (malloc_succeeds P (mallocs m) (data_length + 1)); reflexivity.
Qed.

Lemma oled_refresh_screen_run m :
  oled_refresh_screen P m =
    transfer_video_data P (video_memory (dev m)) OLED_VIDEO_BUFFER_SIZE
      (mk_machine (dev m)
                  (bus m ++ (command_frame (dev m) <$> display_window_config))
                  (mallocs m) (slept_ms m)).
Proof.
  unfold oled_refresh_screen. unfold bind at 1.
  rewrite transmit_command_sequence_run. reflexivity.
Qed.
End DriverFacts.

(** C10: a refresh leaves the device record, and with it every byte of
    [video_memory], as it was, whatever the bus and the allocator answer
    and whatever the call returns. *)
Theorem refresh_keeps_framebuffer (P : platform) (m : machine) :
  video_memory (dev (oled_refresh_screen P m).2) = video_memory (dev m)
  /\ dev (oled_refresh_screen P m).2 = dev m.
Proof.
  pose proof (keeps_device_refresh P m) as H. now rewrite H.
Qed.

(** C4: on a well-formed device a refresh first hands the six window
    commands to the bus (their answers are ignored) and then, when the
    staging buffer could be allocated, one data frame: the data control
    byte followed by the whole framebuffer, [width*height/8 + 1] bytes.
    The call returns true exactly when the bus reports that count for the
    data frame; any other reported count makes it return false.  When the
    allocation fails nothing more is sent and the call returns false. *)
Theorem refresh_transfers_whole_buffer (P : platform) (m : machine) :
  device_ok (dev m) ->
  let window := command_frame (dev m) <$> display_window_config in
  let accepted := i2c_write_blocking P (bus m ++ window) (data_frame (dev m)) in
  let r := oled_refresh_screen P m in
  if malloc_succeeds P (mallocs m) (OLED_VIDEO_BUFFER_SIZE + 1)
  then bus r.2 = bus m ++ window ++ [data_frame (dev m)]
       /\ frame_bytes (data_frame (dev m)) = OLED_DATA_CONTROL_BYTE :: video_memory (dev m)
       /\ Z.of_nat (length (frame_bytes (data_frame (dev m))))
          = OLED_SCREEN_WIDTH * OLED_SCREEN_HEIGHT / 8 + 1
       /\ (accepted = OLED_SCREEN_WIDTH * OLED_SCREEN_HEIGHT / 8 + 1 -> r.1 = true)
       /\ (accepted <> OLED_SCREEN_WIDTH * OLED_SCREEN_HEIGHT / 8 + 1 -> r.1 = false)
  else bus r.2 = bus m ++ window /\ r.1 = false.
Proof.
  intros Hok. pose proof (device_ok_length _ Hok) as Hlen.
  cbv zeta. rewrite oled_refresh_screen_run, transfer_video_data_run.
  cbv zeta. simpl dev. simpl mallocs. simpl bus.
  change (OLED_SCREEN_WIDTH * OLED_SCREEN_HEIGHT / 8 + 1) with 1025.
  change (OLED_VIDEO_BUFFER_SIZE + 1) with 1025.
  rewrite firstn_all2 by (rewrite Hlen; vm_compute; lia).
  fold (data_frame (dev m)).
  destruct (malloc_succeeds P (mallocs m) 1025); simpl.
  - rewrite <- app_assoc.
    split; [reflexivity|]. split; [reflexivity|]. split; [rewrite Hlen; reflexivity|].
    split; intros H.
    + rewrite H. reflexivity.
    + now apply Z.eqb_neq.
  - split; reflexivity.
Qed.

Lemma refresh_transfers_whole_buffer_witness :
  let P := good_platform in
  let m := boot (oled_fill_screen blank_device 0x81) in
  let window := command_frame (dev m) <$> display_window_config in
  let accepted := i2c_write_blocking P (bus m ++ window) (data_frame (dev m)) in
  let r := oled_refresh_screen P m in
  if malloc_succeeds P (mallocs m) (OLED_VIDEO_BUFFER_SIZE + 1)
  then bus r.2 = bus m ++ window ++ [data_frame (dev m)]
       /\ frame_bytes (data_frame (dev m)) = OLED_DATA_CONTROL_BYTE :: video_memory (dev m)
       /\ Z.of_nat (length (frame_bytes (data_frame (dev m))))
          = OLED_SCREEN_WIDTH * OLED_SCREEN_HEIGHT / 8 + 1
       /\ (accepted = OLED_SCREEN_WIDTH * OLED_SCREEN_HEIGHT / 8 + 1 -> r.1 = true)
       /\ (accepted <> OLED_SCREEN_WIDTH * OLED_SCREEN_HEIGHT / 8 + 1 -> r.1 = false)
  else bus r.2 = bus m ++ window /\ r.1 = false.
Proof.
  apply (refresh_transfers_whole_buffer good_platform
           (boot (oled_fill_screen blank_device 0x81))).
  vm_compute. reflexivity.
Defined.

(** ** Initialisation *)

Lemma initialize_display_returns_true (P : platform) (i2c_bus address : Z) (m : machine) :
  (oled_initialize_display P i2c_bus address m).1 = true.
Proof.
  unfold oled_initialize_display, bind, get_device, put_device.
  destruct (transmit_command_sequence P startup_sequence _). reflexivity.
Qed.

(** C2 (the code departs from it): on a bus where no device answers, each
    of the 25 command transfers of the start-up sequence is refused (the
    bus reports -1 instead of 2), and [oled_initialize_display] still
    returns true. *)
Theorem initialize_display_ignores_failed_transfers :
  let r := oled_initialize_display dead_platform 0 0x3C (boot blank_device) in
  r.1 = true
  /\ bus r.2 = command_frame (dev r.2) <$> startup_sequence
  /\ length (bus r.2) = 25%nat
  /\ Forall (fun f => i2c_write_blocking dead_platform [] f <> 2) (bus r.2).
Proof.
  cbv zeta. split; [apply initialize_display_returns_true|].
  split; [vm_compute; reflexivity|]. split; [vm_compute; reflexivity|].
  apply Forall_forall. intros f _. simpl. lia.
Qed.

(** ** Contrast and fade *)

Lemma for_each_snoc {A : Type} (l : list A) (x : A) (body : A -> M unit) (m : machine) :
  for_each (l ++ [x]) body m = body x (for_each l body m).2.
Proof.
  revert m. induction l as [|a l IH]; intros m; simpl.
  - unfold bind. destruct (body x m) as [[] m']. reflexivity.
  - unfold bind in *. destruct (body a m) as [[] m']. apply IH.
Qed.

Lemma oled_adjust_brightness_run (P : platform) (brightness_level : Z) (m : machine) :
  oled_adjust_brightness P brightness_level m =
    let d := set_contrast_level (dev m) brightness_level in
    (tt, mk_machine d
           (bus m ++ [command_frame d CMD_SET_BRIGHTNESS; command_frame d brightness_level])
           (mallocs m) (slept_ms m)).
Proof.
  unfold oled_adjust_brightness, bind, get_device, put_device, transmit_command,
    i2c_write, ret. simpl. now rewrite <- app_assoc.
Qed.

(** The tail of a fade-in: the twentieth ramp step stores and sends
    [19 * 255 / 20]; the "restore" that follows reads [contrast_level]
    back from the device, that is, the same value. *)
Lemma oled_fade_in_run (P : platform) (duration_ms : Z) (m : machine) :
  exists m1,
    oled_fade_effect P true duration_ms m =
      oled_adjust_brightness P (19 * 255 / 20)
        (sleep_ms (duration_ms / 20) (oled_adjust_brightness P (19 * 255 / 20) m1).2).2.
Proof.
  unfold oled_fade_effect. cbv zeta.
  change (seqZ 0 20) with (seqZ 0 19 ++ [19]).
  match goal with |- context [for_each _ ?b] => set (body := b) end.
  exists (for_each (seqZ 0 19) body m).2.
  unfold bind at 1. rewrite (for_each_snoc (seqZ 0 19) 19 body m).
  generalize (for_each (seqZ 0 19) body m).2. intros m1.
  subst body. cbv beta. unfold bind at 1.
  change (u8 (19 * 255 / 20)) with (19 * 255 / 20).
  rewrite (oled_adjust_brightness_run P _ m1). cbv zeta.
  unfold sleep_ms, bind, get_device.
  cbn [fst snd dev contrast_level set_contrast_level]. reflexivity.
Qed.

(** Whatever the device held before, whatever the bus answers and
    whatever the duration, a fade-in ends with the last ramp value stored
    and sent. *)
Lemma fade_in_final_contrast (P : platform) (duration_ms : Z) (m : machine) :
  let m' := (oled_fade_effect P true duration_ms m).2 in
  contrast_level (dev m') = 19 * 255 / 20
  /\ exists earlier,
       bus m' = earlier ++ [command_frame (dev m') CMD_SET_BRIGHTNESS;
                            command_frame (dev m') (19 * 255 / 20)].
Proof.
  destruct (oled_fade_in_run P duration_ms m) as [m1 ->].
  rewrite !oled_adjust_brightness_run. cbv zeta.
  split; [reflexivity|]. eexists. reflexivity.
Qed.

(** C1 (the code departs from it): a device whose stored contrast is
    0xCF, faded in over 500 ms on a bus that accepts everything, ends with
    contrast 242 stored and 242 as the last byte commanded; the level held
    before the fade, 207, is lost. *)
Theorem fade_in_loses_stored_contrast :
  let m := boot blank_device in
  let m' := (oled_fade_effect good_platform true 500 m).2 in
  contrast_level (dev m) = 0xCF
  /\ contrast_level (dev m') = 242
  /\ last (bus m') = Some (command_frame (dev m') 242)
  /\ contrast_level (dev m') <> contrast_level (dev m).
Proof.
  cbv zeta.
  destruct (fade_in_final_contrast good_platform 500 (boot blank_device))
    as (Hc & earlier & Hbus). cbv zeta in Hc, Hbus.
  revert Hc Hbus.
  generalize (oled_fade_effect good_platform true 500 (boot blank_device)).2.
  intros m' Hc Hbus. change (19 * 255 / 20) with 242 in Hc, Hbus.
  split; [reflexivity|]. split; [exact Hc|]. split.
  - rewrite Hbus, last_app. reflexivity.
  - rewrite Hc. change (contrast_level (dev (boot blank_device))) with 207. lia.
Qed.

(** ** Horizontal scroll *)

Lemma scroll_source_mod scroll_left col :
  0 <= col < 128 ->
  scroll_source scroll_left col = (col + (if scroll_left then 1 else -1)) mod 128
  /\ 0 <= scroll_source scroll_left col < 128.
Proof.
  intros Hcol. unfold scroll_source, OLED_SCREEN_WIDTH.
  destruct scroll_left; rewrite Z.rem_mod_nonneg by lia;
    (split; [|apply Z.mod_pos_bound; lia]).
  - reflexivity.
  - replace (col - 1 + 128) with (col + -1 + 1 * 128) by lia.
    apply Z.mod_add. lia.
Qed.

(** The first [n] columns of a page rewritten from the backup. *)
Lemma scroll_columns_lookup scroll_left (backup vm : list Z) (page : Z) (n : nat) :
  0 <= page < 8 -> (n <= 128)%nat -> length vm = 1024%nat ->
  let vm' :=
    foldl (fun vm col =>
             let src_col := scroll_source scroll_left col in
             <[Z.to_nat (page * OLED_SCREEN_WIDTH + col) :=
                 backup !!! Z.to_nat (page * OLED_SCREEN_WIDTH + src_col)]> vm)
          vm (seqZ 0 (Z.of_nat n)) in
  length vm' = 1024%nat
  /\ forall j : nat,
       vm' !!! j =
         if decide (page * 128 <= Z.of_nat j < page * 128 + Z.of_nat n)
         then backup !!! Z.to_nat (page * 128 + scroll_source scroll_left (Z.of_nat j - page * 128))
         else vm !!! j.
Proof.
  intros Hpage Hn Hlen. cbv zeta. unfold OLED_SCREEN_WIDTH.
  induction n as [|n IH].
  - simpl. split; [exact Hlen|]. intros j. case_decide; [lia|reflexivity].
  - destruct IH as [IHlen IH]; [lia|].
    rewrite seqZ_S, foldl_app. simpl foldl.
    split; [now rewrite length_insert|]. intros j.
    rewrite Z.add_0_l.
    destruct (decide (Z.to_nat (page * 128 + Z.of_nat n) = j)) as [<-|Hne].
    + rewrite list_lookup_total_insert_eq by (rewrite IHlen; lia).
      rewrite decide_True by lia. do 4 f_equal. lia.
    + rewrite list_lookup_total_insert_ne by exact Hne.
      rewrite IH. repeat case_decide; try lia; reflexivity.
Qed.

Lemma scroll_page_lookup scroll_left (backup vm : list Z) (page : Z) :
  0 <= page < 8 -> length vm = 1024%nat ->
  length (scroll_page scroll_left backup vm page) = 1024%nat
  /\ forall j : nat,
       scroll_page scroll_left backup vm page !!! j =
         if decide (page * 128 <= Z.of_nat j < page * 128 + 128)
         then backup !!! Z.to_nat (page * 128 + scroll_source scroll_left (Z.of_nat j - page * 128))
         else vm !!! j.
Proof.
  intros Hpage Hlen.
  apply (scroll_columns_lookup scroll_left backup vm page 128 Hpage); [lia|exact Hlen].
Qed.

(** The first [n] pages rewritten from the backup. *)
Lemma scroll_pages_lookup scroll_left (backup vm : list Z) (n : nat) :
  (n <= 8)%nat -> length vm = 1024%nat ->
  let vm' := foldl (scroll_page scroll_left backup) vm (seqZ 0 (Z.of_nat n)) in
  length vm' = 1024%nat
  /\ forall j : nat,
       vm' !!! j =
         if decide (Z.of_nat j < Z.of_nat n * 128)
         then backup !!! Z.to_nat (Z.of_nat j / 128 * 128
                                   + scroll_source scroll_left (Z.of_nat j mod 128))
         else vm !!! j.
Proof.
  intros Hn Hlen. cbv zeta. induction n as [|n IH].
  - simpl. split; [exact Hlen|]. intros j. case_decide; [lia|reflexivity].
  - destruct IH as [IHlen IH]; [lia|].
    rewrite seqZ_S, foldl_app. simpl foldl. rewrite Z.add_0_l.
    destruct (scroll_page_lookup scroll_left backup
                (foldl (scroll_page scroll_left backup) vm (seqZ 0 (Z.of_nat n)))
                (Z.of_nat n)) as [Hl Hj]; [lia|exact IHlen|].
    split; [exact Hl|]. intros j. rewrite Hj, IH.
    destruct (decide (Z.of_nat n * 128 <= Z.of_nat j < Z.of_nat n * 128 + 128)) as [Hin|Hout].
    + rewrite decide_True by lia.
      assert (Z.of_nat j / 128 = Z.of_nat n /\ Z.of_nat j mod 128 = Z.of_nat j - Z.of_nat n * 128)
        as [-> ->] by (Z.div_mod_to_equations; lia).
      reflexivity.
    + repeat case_decide; try lia; reflexivity.
Qed.

Lemma scroll_shift_lookup scroll_left (backup vm : list Z) :
  length vm = 1024%nat ->
  length (scroll_shift scroll_left backup vm) = 1024%nat
  /\ forall j : nat,
       (j < 1024)%nat ->
       scroll_shift scroll_left backup vm !!! j =
         backup !!! Z.to_nat (Z.of_nat j / 128 * 128
                              + scroll_source scroll_left (Z.of_nat j mod 128)).
Proof.
  intros Hlen.
  destruct (scroll_pages_lookup scroll_left backup vm 8) as [Hl Hj]; [lia|exact Hlen|].
  split; [exact Hl|]. intros j Hlt.
  unfold scroll_shift. change (seqZ 0 OLED_MEMORY_PAGES) with (seqZ 0 (Z.of_nat 8)).
  rewrite Hj. now rewrite decide_True by lia.
Qed.

Lemma rotated_step (s k j : Z) :
  0 <= j < 1024 ->
  let j' := j / 128 * 128 + (j mod 128 + s) mod 128 in
  0 <= j' < 1024 /\ rotated s k j' = rotated s (k + 1) j.
Proof.
  intros Hj. cbv zeta. unfold rotated.
  assert (0 <= (j mod 128 + s) mod 128 < 128) as Hc by (apply Z.mod_pos_bound; lia).
  assert (0 <= j / 128 < 8) as Hp by (Z.div_mod_to_equations; lia).
  split; [lia|].
  replace ((j / 128 * 128 + (j mod 128 + s) mod 128) / 128) with (j / 128)
    by (Z.div_mod_to_equations; lia).
  replace ((j / 128 * 128 + (j mod 128 + s) mod 128) mod 128)
    with ((j mod 128 + s) mod 128).
  2:{ rewrite (Z.add_comm (j / 128 * 128)), Z.mod_add by lia.
      now rewrite Z.mod_mod by lia. }
  rewrite Z.add_mod_idemp_l by lia. do 2 f_equal. lia.
Qed.

Lemma rotated_whole_turn (s j : Z) :
  0 <= j -> rotated s 0 j = j /\ rotated s 128 j = j.
Proof.
  intros Hj. unfold rotated. split.
  - rewrite Z.mul_0_r, Z.add_0_r, Z.mod_mod by lia.
    pose proof (Z.div_mod j 128). lia.
  - rewrite Z.mod_add by lia. rewrite Z.mod_mod by lia.
    pose proof (Z.div_mod j 128). lia.
Qed.

Lemma for_each_cons {A : Type} (a : A) (l : list A) (body : A -> M unit) (m : machine) :
  for_each (a :: l) body m = for_each l body (body a m).2.
Proof. simpl. unfold bind. now destruct (body a m). Qed.

Section ScrollFacts.
Variable P : platform.
Variable scroll_left : bool.
Variable speed_ms : Z.

Lemma scroll_step_memory m :
  length (video_memory (dev m)) = 1024%nat ->
  video_memory (dev (scroll_step P scroll_left speed_ms m).2) =
    scroll_shift scroll_left (video_memory (dev m)) (video_memory (dev m)).
Proof.
  intros Hlen. unfold scroll_step, bind, get_device, put_device.
  match goal with |- context [oled_refresh_screen P ?m1] =>
    pose proof (keeps_device_refresh P m1) as Hkeep;
    destruct (oled_refresh_screen P m1) as [r m2] end.
  simpl in *. rewrite Hkeep. simpl.
  now rewrite firstn_all2 by (rewrite Hlen; vm_compute; lia).
Qed.

(** After [k] steps every byte sits where [rotated] says; each further
    step moves it by one more column. *)
Lemma scroll_steps_lookup {A : Type} (vm0 : list Z) (l : list A) :
  forall m k,
    length (video_memory (dev m)) = 1024%nat ->
    (forall j : nat, (j < 1024)%nat ->
       video_memory (dev m) !!! j
       = vm0 !!! Z.to_nat (rotated (if scroll_left then 1 else -1) k (Z.of_nat j))) ->
    let m' := (for_each l (fun _ => scroll_step P scroll_left speed_ms) m).2 in
    length (video_memory (dev m')) = 1024%nat
    /\ forall j : nat, (j < 1024)%nat ->
         video_memory (dev m') !!! j
         = vm0 !!! Z.to_nat (rotated (if scroll_left then 1 else -1)
                                     (k + Z.of_nat (length l)) (Z.of_nat j)).
Proof.
  induction l as [|a l IH]; intros m k Hlen Hrot; cbv zeta.
  - simpl. rewrite Z.add_0_r. auto.
  - rewrite for_each_cons.
    pose proof (scroll_step_memory m Hlen) as Hmem.
    revert Hmem. generalize (scroll_step P scroll_left speed_ms m).2. intros m1 Hmem.
    destruct (scroll_shift_lookup scroll_left (video_memory (dev m))
                (video_memory (dev m)) Hlen) as [Hlen1 Hshift].
    rewrite <- Hmem in Hlen1, Hshift.
    destruct (IH m1 (k + 1)) as [Hl Hj]; [exact Hlen1| |].
    + intros j Hlt. rewrite Hshift by exact Hlt.
      destruct (scroll_source_mod scroll_left (Z.of_nat j mod 128)) as [-> _];
        [apply Z.mod_pos_bound; lia|].
      destruct (rotated_step (if scroll_left then 1 else -1) k (Z.of_nat j))
        as [Hj' <-]; [lia|].
      rewrite Hrot by lia. now rewrite Z2Nat.id by lia.
    + split; [exact Hl|]. intros j Hlt. rewrite Hj by exact Hlt.
      do 3 f_equal. rewrite length_cons. lia.
Qed.
End ScrollFacts.

(** C5: on a well-formed device, scrolling by the screen width, in either
    direction and at any speed, leaves [video_memory] byte for byte as it
    was, whatever the bus answers to the refreshes on the way. *)
Theorem scroll_full_width_roundtrip (P : platform) (scroll_left : bool)
    (speed_ms : Z) (m : machine) :
  device_ok (dev m) ->
  video_memory (dev (oled_horizontal_scroll P scroll_left speed_ms
                       OLED_SCREEN_WIDTH m).2)
  = video_memory (dev m).
Proof.
  intros Hok. pose proof (device_ok_length _ Hok) as Hlen.
  destruct (scroll_steps_lookup P scroll_left speed_ms (video_memory (dev m))
              (seqZ 0 OLED_SCREEN_WIDTH) m 0 Hlen) as [Hl Hj].
  - intros j Hlt.
    destruct (rotated_whole_turn (if scroll_left then 1 else -1) (Z.of_nat j)) as [-> _];
      [lia|]. now rewrite Nat2Z.id.
  - unfold oled_horizontal_scroll.
    apply (list_eq_same_length _ _ 1024%nat); [exact Hlen|exact Hl|].
    intros j x y Hlt Hx Hy.
    apply list_lookup_total_correct in Hx, Hy. subst x y.
    rewrite Hj by exact Hlt. rewrite length_seqZ.
    change (0 + Z.of_nat (Z.to_nat OLED_SCREEN_WIDTH)) with 128.
    destruct (rotated_whole_turn (if scroll_left then 1 else -1) (Z.of_nat j)) as [_ ->];
      [lia|]. now rewrite Nat2Z.id.
Qed.

Lemma scroll_full_width_roundtrip_witness :
  video_memory (dev (oled_horizontal_scroll good_platform true 5
                       OLED_SCREEN_WIDTH
                       (boot (oled_draw_pixel blank_device 3 9 true))).2)
  = video_memory (dev (boot (oled_draw_pixel blank_device 3 9 true))).
Proof.
  apply (scroll_full_width_roundtrip good_platform true 5
           (boot (oled_draw_pixel blank_device 3 9 true))).
  vm_compute. reflexivity.
Defined.

(** ** Highlighted text *)

Lemma glyph_bit_test (column_pattern bit : Z) :
  0 <= bit ->
  negb (Z.land (Z.shiftr column_pattern bit) 0x01 =? 0) = Z.testbit column_pattern bit.
Proof.
  intros Hbit. change 0x01 with (2 ^ 0).
  rewrite land_pow2_testbit by lia.
  rewrite Z.shiftr_spec, Z.add_0_l by lia.
  now destruct (Z.testbit column_pattern bit).
Qed.

(** A loop that only appends to the recorder appends the calls of each
    round in turn. *)
Lemma foldl_record {T : Type} (f : list plot -> T -> list plot) (k : T -> list plot)
    (l : list T) :
  (forall s t, f s t = s ++ k t) ->
  forall acc, foldl f acc l = acc ++ (l ≫= k).
Proof.
  intros Hf. induction l as [|t l IH]; intros acc; simpl.
  - now rewrite app_nil_r.
  - rewrite IH, Hf, <- app_assoc. reflexivity.
Qed.

Lemma filled_rectangle_calls acc ox oy w h c :
  oled_draw_filled_rectangle record_pixel acc ox oy w h c
  = acc ++ rectangle_calls ox oy w h c.
Proof.
  unfold oled_draw_filled_rectangle, rectangle_calls.
  apply foldl_record. intros s row.
  rewrite (foldl_record _ (fun col => [(u8 (ox + col), u8 (oy + row), c)]) (seqZ 0 w)
             (fun _ _ => eq_refl)).
  f_equal.
Qed.

Lemma elem_of_rectangle_calls ox oy w h c (p : plot) :
  p ∈ rectangle_calls ox oy w h c <->
  exists col row, 0 <= col < w /\ 0 <= row < h
                  /\ p = (u8 (ox + col), u8 (oy + row), c).
Proof.
  unfold rectangle_calls. rewrite list_elem_of_bind. split.
  - intros (row & Hp & Hrow). apply list_elem_of_fmap in Hp as (col & -> & Hcol).
    apply elem_of_seqZ in Hrow, Hcol. exists col, row. repeat split; lia.
  - intros (col & row & Hcol & Hrow & ->). exists row.
    split; [|apply elem_of_seqZ; lia].
    apply list_elem_of_fmap. exists col. split; [reflexivity|apply elem_of_seqZ; lia].
Qed.

Lemma clear_glyph_calls font acc cursor ty ch :
  clear_glyph record_pixel font acc cursor ty ch
  = acc ++ glyph_calls font cursor ty ch.
Proof.
  unfold clear_glyph, glyph_calls.
  apply foldl_record. intros s column.
  apply foldl_record. intros s' bit.
  destruct (negb _); [reflexivity|now rewrite app_nil_r].
Qed.

Lemma elem_of_glyph_calls font cursor ty ch (p : plot) :
  p ∈ glyph_calls font cursor ty ch <->
  exists column bit, 0 <= column < 6 /\ 0 <= bit < 8
                     /\ Z.testbit (font (ch - 32) column) bit = true
                     /\ p = (u8 (cursor + column), u8 (ty + bit), false).
Proof.
  unfold glyph_calls. rewrite list_elem_of_bind. split.
  - intros (column & Hp & Hcolumn). apply list_elem_of_bind in Hp as (bit & Hp & Hbit).
    apply elem_of_seqZ in Hcolumn, Hbit.
    rewrite glyph_bit_test in Hp by lia.
    destruct (Z.testbit _ _) eqn:Hon; [|now apply elem_of_nil in Hp].
    apply list_elem_of_singleton in Hp. exists column, bit. repeat split; (lia || assumption).
  - intros (column & bit & Hcolumn & Hbit & Hon & ->). exists column.
    split; [|apply elem_of_seqZ; lia].
    apply list_elem_of_bind. exists bit. split; [|apply elem_of_seqZ; lia].
    rewrite glyph_bit_test, Hon by lia. apply list_elem_of_singleton. reflexivity.
Qed.

(** The calls of the glyph loop on a renderable text: character [i] sits
    at cursor [cursor + 7 * i] and is cleared while that cursor is left of
    the right edge. *)
Lemma highlight_loop_calls font ty text :
  forall acc cursor,
    Forall (fun ch => 32 <= ch <= 126) text -> 0 <= cursor < 256 ->
    exists new,
      highlight_loop record_pixel font acc ty cursor text = acc ++ new
      /\ forall p : plot,
           p ∈ new <->
           exists (i : nat) ch column bit,
             text !! i = Some ch /\ cursor + 7 * Z.of_nat i < OLED_SCREEN_WIDTH
             /\ 0 <= column < 6 /\ 0 <= bit < 8
             /\ Z.testbit (font (ch - 32) column) bit = true
             /\ p = (u8 (cursor + 7 * Z.of_nat i + column), u8 (ty + bit), false).
Proof.
  unfold OLED_SCREEN_WIDTH.
  induction text as [|ch rest IH]; intros acc cursor Hren Hcur; simpl.
  - exists []. split; [now rewrite app_nil_r|]. intros p. split.
    + intros Hin. now apply elem_of_nil in Hin.
    + intros (i & ch & _ & _ & Hget & _). discriminate.
  - apply Forall_cons in Hren as [Hch Hren].
    assert (negb (ch =? 0) = true) as -> by (apply negb_true_iff, Z.eqb_neq; lia).
    assert ((ch >=? 32) && (ch <=? 126) = true) as ->
      by (apply andb_true_iff; rewrite Z.geb_le, Z.leb_le; lia).
    unfold OLED_SCREEN_WIDTH. simpl andb.
    destruct (Z.ltb_spec cursor 128) as [Hlt|Hge].
    + rewrite clear_glyph_calls, u8_small by lia.
      destruct (IH (acc ++ glyph_calls font cursor ty ch) (cursor + 7) Hren)
        as (new & -> & Hnew); [lia|].
      exists (glyph_calls font cursor ty ch ++ new).
      split; [now rewrite app_assoc|]. intros p.
      rewrite elem_of_app, elem_of_glyph_calls, Hnew. split.
      * intros [(column & bit & Hcolumn & Hbit & Hon & ->)
               |(i & ch' & column & bit & Hget & Hi & Hcolumn & Hbit & Hon & ->)].
        -- exists 0%nat, ch, column, bit. simpl. rewrite Z.add_0_r.
           repeat split; (lia || assumption).
        -- exists (S i), ch', column, bit. simpl lookup.
           replace (cursor + 7 * Z.of_nat (S i)) with (cursor + 7 + 7 * Z.of_nat i) by lia.
           repeat split; (lia || assumption).
      * intros (i & ch' & column & bit & Hget & Hi & Hcolumn & Hbit & Hon & ->).
        destruct i as [|i].
        -- left. simpl in Hget. injection Hget as ->. exists column, bit.
           simpl. rewrite Z.add_0_r. repeat split; (lia || assumption).
        -- right. exists i, ch', column, bit. simpl in Hget.
           replace (cursor + 7 + 7 * Z.of_nat i) with (cursor + 7 * Z.of_nat (S i)) by lia.
           repeat split; (lia || assumption).
    + exists []. split; [now rewrite app_nil_r|]. intros p. split.
      * intros Hin. now apply elem_of_nil in Hin.
      * intros (i & ch' & column & bit & _ & Hi & _). lia.
Qed.

Lemma renderable_Forall text :
  renderable text <-> Forall (fun ch => 32 <= ch <= 126) text.
Proof.
  unfold renderable. rewrite forallb_forall, Forall_forall.
  split; intros H ch Hin.
  - apply list_elem_of_In, H in Hin. unfold printable in Hin.
    apply andb_true_iff in Hin. rewrite Z.geb_le, Z.leb_le in Hin. lia.
  - apply list_elem_of_In, H in Hin. unfold printable.
    apply andb_true_iff. rewrite Z.geb_le, Z.leb_le. lia.
Qed.

Lemma strlen_renderable text :
  Forall (fun ch => 32 <= ch <= 126) text -> strlen text = Z.of_nat (length text).
Proof.
  induction 1 as [|ch rest Hch _ IH]; [reflexivity|].
  simpl strlen. destruct (Z.eqb_spec ch 0); [lia|]. rewrite IH, length_cons. lia.
Qed.

Lemma text_width_short text :
  Forall (fun ch => 32 <= ch <= 126) text -> Z.of_nat (length text) <= 36 ->
  oled_calculate_text_width text = 7 * Z.of_nat (length text)
  /\ u8 (u8 (oled_calculate_text_width text) + 1) = oled_calculate_text_width text + 1.
Proof.
  intros Hren Hlen. unfold oled_calculate_text_width, u16, u32, u8.
  rewrite strlen_renderable by exact Hren.
  rewrite !Z.mod_small by (rewrite ?Z.mod_small; lia). lia.
Qed.

(** The calls of [oled_render_highlighted_text] on a renderable text of
    any length: the box, as wide as the two [uint8_t] conversions leave
    it, then the glyph calls, which only clear. *)
Lemma highlighted_text_calls font text_x text_y text :
  0 <= text_x < 256 -> Forall (fun ch => 32 <= ch <= 126) text ->
  exists glyphs,
    oled_render_highlighted_text record_pixel font [] text_x text_y text
      = rectangle_calls (u8 (text_x - 1)) (u8 (text_y - 1))
          (u8 (u8 (oled_calculate_text_width text) + 1)) 10 true ++ glyphs
    /\ forall p : plot,
         p ∈ glyphs <->
         exists (i : nat) ch column bit,
           text !! i = Some ch /\ text_x + 7 * Z.of_nat i < OLED_SCREEN_WIDTH
           /\ 0 <= column < 6 /\ 0 <= bit < 8
           /\ Z.testbit (font (ch - 32) column) bit = true
           /\ p = (u8 (text_x + 7 * Z.of_nat i + column), u8 (text_y + bit), false).
Proof.
  intros Hx Hren.
  destruct (highlight_loop_calls font text_y text
              (rectangle_calls (u8 (text_x - 1)) (u8 (text_y - 1))
                 (u8 (u8 (oled_calculate_text_width text) + 1)) 10 true)
              text_x Hren Hx) as (glyphs & Hrun & Hglyphs).
  exists glyphs. split; [|exact Hglyphs].
  unfold oled_render_highlighted_text. cbv zeta.
  now rewrite filled_rectangle_calls, app_nil_l.
Qed.

(** What the device shows after calls that first only set and then only
    clear. *)
Lemma highlighted_text_read font d text_x text_y text box glyphs px py :
  device_ok d ->
  oled_render_highlighted_text record_pixel font [] text_x text_y text = box ++ glyphs ->
  Forall (fun p : plot => p.2 = true) box ->
  Forall (fun p : plot => p.2 = false) glyphs ->
  0 <= px -> 0 <= py ->
  oled_read_pixel
    (oled_render_highlighted_text oled_draw_pixel font d text_x text_y text) px py =
    if bool_decide ((px, py) ∈ plotted false glyphs) then false
    else if bool_decide ((px, py) ∈ plotted true box) then true
    else oled_read_pixel d px py.
Proof.
  intros Hok Hcalls Hbox Hglyphs Hpx Hpy.
  destruct (highlighted_text_related record_pixel oled_draw_pixel (replays d)
              (replays_draw d) font [] d text_x text_y text (replays_nil d))
    as [-> Hbytes].
  rewrite Hcalls in Hbytes |- *. apply Forall_app in Hbytes as [Hbbox Hbglyphs].
  rewrite replay_app.
  rewrite (read_replay_colour false); try assumption; [|now apply replay_ok].
  now rewrite (read_replay_colour true).
Qed.

(** From 37 characters on the width no longer fits the [uint8_t] it is
    stored in: up to 72 characters, 256 pixels are lost. *)
Lemma long_text_width text :
  Forall (fun ch => 32 <= ch <= 126) text ->
  37 <= Z.of_nat (length text) <= 72 ->
  oled_calculate_text_width text = 7 * Z.of_nat (length text)
  /\ u8 (u8 (oled_calculate_text_width text) + 1)
     = oled_calculate_text_width text + 1 - 256.
Proof.
  intros Hren Hlen. unfold oled_calculate_text_width, u16, u32.
  rewrite strlen_renderable by exact Hren.
  rewrite !Z.mod_small by (rewrite ?Z.mod_small; lia).
  split; [lia|]. unfold u8. Z.div_mod_to_equations. lia.
Qed.

(** C8 (the code departs from it): the text width is kept in a
    [uint8_t].  For a renderable text of 37 to 72 characters the box
    painted is 256 pixels narrower than [text_width + 1]; the glyph calls
    that follow only clear, and none of them touches the top row of the
    box.  So a pixel of that row which lies on the screen, inside the box
    of [text_width + 1] by 10 pixels at [(text_x - 1, text_y - 1)] and to
    the right of the narrow box that was painted, and which was off
    before the call, is still off after it, where the claim has it on. *)
Theorem highlighted_text_box_truncated (font : Z -> Z -> Z) (d : oled_device_t)
    (text_x text_y : Z) (text : list Z) (px : Z) :
  device_ok d -> 1 <= text_x < 256 -> 1 <= text_y <= OLED_SCREEN_HEIGHT ->
  renderable text -> 37 <= Z.of_nat (length text) <= 72 ->
  text_x + 7 * Z.of_nat (length text) - 256 <= px < OLED_SCREEN_WIDTH ->
  oled_read_pixel d px (text_y - 1) = false ->
  let width := oled_calculate_text_width text in
  width = 7 * Z.of_nat (length text)
  /\ (text_x - 1 <= px < text_x - 1 + (width + 1)
      /\ on_screen px (text_y - 1) = true)
  /\ (exists glyphs,
        oled_render_highlighted_text record_pixel font [] text_x text_y text
          = oled_draw_filled_rectangle record_pixel [] (text_x - 1) (text_y - 1)
              (width + 1 - 256) 10 true ++ glyphs
        /\ Forall (fun p : plot => p.2 = false /\ p.1.2 <> text_y - 1) glyphs)
  /\ oled_read_pixel
       (oled_render_highlighted_text oled_draw_pixel font d text_x text_y text)
       px (text_y - 1) = false.
Proof.
  unfold OLED_SCREEN_HEIGHT, OLED_SCREEN_WIDTH.
  intros Hok Hx Hy Hren Hlen Hpx Hoff. cbv zeta. apply renderable_Forall in Hren.
  destruct (long_text_width text Hren Hlen) as [Hwidth Hbox].
  destruct (highlighted_text_calls font text_x text_y text ltac:(lia) Hren)
    as (glyphs & Hcalls & Hglyphs).
  rewrite Hbox, !u8_small in Hcalls by lia.
  assert (Forall (fun p : plot => p.2 = false /\ p.1.2 <> text_y - 1) glyphs) as Hclear.
  { apply Forall_forall. intros p Hp.
    apply Hglyphs in Hp as (i & ch & column & bit & _ & _ & _ & Hbit & _ & ->).
    cbn [fst snd]. rewrite u8_small by lia. split; [reflexivity|lia]. }
  assert (on_screen px (text_y - 1) = true) as Hon.
  { unfold on_screen, OLED_SCREEN_WIDTH, OLED_SCREEN_HEIGHT.
    apply negb_true_iff, orb_false_iff. rewrite !Z.geb_leb, !Z.leb_gt. lia. }
  split; [exact Hwidth|]. split; [split; [lia|exact Hon]|]. split.
  { exists glyphs. split; [|exact Hclear].
    now rewrite filled_rectangle_calls, app_nil_l. }
  rewrite (highlighted_text_read font d text_x text_y text _ glyphs px (text_y - 1)
             Hok Hcalls); [| |eapply Forall_impl; [exact Hclear|]; now intros p [? _]|lia..].
  2:{ apply Forall_forall. intros p Hp.
      apply elem_of_rectangle_calls in Hp as (col & row & _ & _ & ->). reflexivity. }
  rewrite bool_decide_eq_false_2.
  2:{ rewrite elem_of_plotted. intros [Hin _].
      rewrite Forall_forall in Hclear. apply Hclear in Hin as [_ Hrow]. now apply Hrow. }
  rewrite bool_decide_eq_false_2; [exact Hoff|].
  rewrite elem_of_plotted, elem_of_rectangle_calls.
  intros [(col & row & Hcol & _ & [= Hcolumn _]) _].
  rewrite u8_small in Hcolumn by lia. lia.
Qed.

Lemma highlighted_text_box_truncated_witness :
  let font := fun _ _ : Z => 0xFF in
  let text := replicate 37 65 in
  let width := oled_calculate_text_width text in
  width = 7 * Z.of_nat (length text)
  /\ (1 - 1 <= 10 < 1 - 1 + (width + 1)
      /\ on_screen 10 (1 - 1) = true)
  /\ (exists glyphs,
        oled_render_highlighted_text record_pixel font [] 1 1 text
          = oled_draw_filled_rectangle record_pixel [] (1 - 1) (1 - 1)
              (width + 1 - 256) 10 true ++ glyphs
        /\ Forall (fun p : plot => p.2 = false /\ p.1.2 <> 1 - 1) glyphs)
  /\ oled_read_pixel
       (oled_render_highlighted_text oled_draw_pixel font blank_device 1 1 text)
       10 (1 - 1) = false.
Proof.
  apply (highlighted_text_box_truncated (fun _ _ : Z => 0xFF) blank_device 1 1
           (replicate 37 65) 10);
    [ vm_compute; reflexivity | lia | vm_compute; split; discriminate
    | reflexivity | vm_compute; split; discriminate
    | vm_compute; split; [discriminate|reflexivity] | reflexivity ].
Defined.

(** The box also wraps within the width the [uint8_t] can hold: for 23
    characters at [text_x = 100] it is 162 pixels wide from column 99,
    the column of each call is reduced modulo 256, and columns 0 to 4 of
    the screen are painted, left of the corner of the box. *)
Lemma highlighted_text_box_wraps :
  let font := fun _ _ : Z => 0xFF in
  let text := replicate 23 65 in
  renderable text
  /\ oled_calculate_text_width text + 1 = 162
  /\ oled_read_pixel blank_device 2 0 = false
  /\ oled_read_pixel
       (oled_render_highlighted_text oled_draw_pixel font blank_device 100 1 text)
       2 0 = true.
Proof. cbv zeta. repeat split; vm_compute; reflexivity. Qed.

(** * Further properties of the driver *)

(** ** Pixel buffer engine: frame, invariant, overwriting *)

(** A call of [oled_draw_pixel] changes no pixel but its own. *)
Theorem draw_pixel_other_pixels (d : oled_device_t) (x y x' y' : Z) (c : bool) :
  device_ok d -> 0 <= x -> 0 <= y -> 0 <= x' -> 0 <= y' ->
  (x, y) <> (x', y') ->
  oled_read_pixel (oled_draw_pixel d x y c) x' y' = oled_read_pixel d x' y'.
Proof.
  intros Hok Hx Hy Hx' Hy' Hne.
  rewrite oled_read_draw_pixel by assumption.
  destruct (Z.eqb_spec x x') as [->|]; [|now rewrite andb_false_r].
  destruct (Z.eqb_spec y y') as [->|]; [congruence|now rewrite andb_false_r].
Qed.

Lemma draw_pixel_other_pixels_witness :
  oled_read_pixel (oled_draw_pixel (oled_fill_screen blank_device 0x3C) 5 9 false) 5 10
  = oled_read_pixel (oled_fill_screen blank_device 0x3C) 5 10.
Proof.
  apply (draw_pixel_other_pixels (oled_fill_screen blank_device 0x3C) 5 9 5 10 false);
    [vm_compute; reflexivity | lia | lia | lia | lia | discriminate].
Defined.

(** [oled_draw_pixel] keeps the framebuffer well formed and touches no
    other field of the device. *)
Theorem draw_pixel_keeps_device (d : oled_device_t) (x y : Z) (c : bool) :
  device_ok d ->
  let d' := oled_draw_pixel d x y c in
  device_ok d'
  /\ i2c_interface d' = i2c_interface d /\ device_address d' = device_address d
  /\ screen_width d' = screen_width d /\ screen_height d' = screen_height d
  /\ power_state d' = power_state d /\ contrast_level d' = contrast_level d
  /\ inverted_colors d' = inverted_colors d.
Proof.
  intros Hok. cbv zeta. split; [now apply oled_draw_pixel_ok|].
  unfold oled_draw_pixel. destruct (_ || _); simpl; auto 10.
Qed.

Lemma draw_pixel_keeps_device_witness :
  let d' := oled_draw_pixel blank_device 7 7 true in
  device_ok d'
  /\ i2c_interface d' = i2c_interface blank_device
  /\ device_address d' = device_address blank_device
  /\ screen_width d' = screen_width blank_device
  /\ screen_height d' = screen_height blank_device
  /\ power_state d' = power_state blank_device
  /\ contrast_level d' = contrast_level blank_device
  /\ inverted_colors d' = inverted_colors blank_device.
Proof.
  apply (draw_pixel_keeps_device blank_device 7 7 true). vm_compute. reflexivity.
Defined.

Lemma u8_land (v : Z) : u8 v = Z.land v (Z.ones 8).
Proof. unfold u8. now rewrite Z.land_ones by lia. Qed.

(** The byte left by two writes to the same bit is the byte left by the
    second write alone. *)
Lemma overwrite_bit (cell k : Z) (c1 c2 : bool) :
  0 <= k ->
  let bit := 2 ^ k in
  let put (c : bool) (v : Z) :=
    if c then u8 (Z.lor v bit) else u8 (Z.land v (Z.lnot bit)) in
  put c2 (put c1 cell) = put c2 cell.
Proof.
  intros Hk. cbv zeta. destruct c1, c2; rewrite !u8_land;
    apply Z.bits_inj'; intros n Hn;
    repeat first [ rewrite Z.land_spec | rewrite Z.lor_spec
                 | rewrite Z.lnot_spec by lia | rewrite Z.pow2_bits_eqb by lia ];
    destruct (Z.testbit cell n), (Z.testbit (Z.ones 8) n), (k =? n); reflexivity.
Qed.

(** Drawing the same pixel twice is drawing it once with the second
    colour; in particular a repeated call changes nothing. *)
Theorem draw_pixel_overwrite (d : oled_device_t) (x y : Z) (c1 c2 : bool) :
  device_ok d -> 0 <= x -> 0 <= y ->
  oled_draw_pixel (oled_draw_pixel d x y c1) x y c2 = oled_draw_pixel d x y c2.
Proof.
  intros Hok Hx Hy. pose proof (device_ok_length d Hok) as Hlen.
  unfold oled_draw_pixel.
  destruct ((x >=? OLED_SCREEN_WIDTH) || (y >=? OLED_SCREEN_HEIGHT)) eqn:G;
    [reflexivity|].
  cbn [video_memory set_video_memory].
  assert (x < OLED_SCREEN_WIDTH /\ y < OLED_SCREEN_HEIGHT) as [Hxw Hyh].
  { apply on_screen_bounds. unfold on_screen. now rewrite G. }
  destruct (buffer_index_eq x y) as [-> Hidx]; [lia..|].
  change OLED_VIDEO_BUFFER_SIZE with 1024 in Hidx.
  rewrite bit_position_pow2 by lia.
  unfold set_video_memory. cbn [i2c_interface device_address screen_width
    screen_height video_memory power_state contrast_level inverted_colors].
  f_equal. rewrite list_lookup_total_insert_eq by lia.
  rewrite list_insert_insert_eq. f_equal.
  apply (overwrite_bit _ (y mod 8) c1 c2). apply Z.mod_pos_bound. lia.
Qed.

Lemma draw_pixel_overwrite_witness :
  oled_draw_pixel (oled_draw_pixel (oled_fill_screen blank_device 0x55) 100 40 true) 100 40 false
  = oled_draw_pixel (oled_fill_screen blank_device 0x55) 100 40 false.
Proof.
  apply (draw_pixel_overwrite (oled_fill_screen blank_device 0x55) 100 40 true false);
    [vm_compute; reflexivity | lia | lia].
Defined.

Lemma commute_bits (cell k k' : Z) (c c' : bool) :
  0 <= k -> 0 <= k' -> k <> k' ->
  let put (j : Z) (b : bool) (v : Z) :=
    if b then u8 (Z.lor v (2 ^ j)) else u8 (Z.land v (Z.lnot (2 ^ j))) in
  put k' c' (put k c cell) = put k c (put k' c' cell).
Proof.
  intros Hk Hk' Hne. cbv zeta. destruct c, c'; rewrite !u8_land;
    apply Z.bits_inj'; intros n Hn;
    repeat first [ rewrite Z.land_spec | rewrite Z.lor_spec
                 | rewrite Z.lnot_spec by lia | rewrite Z.pow2_bits_eqb by lia ];
    destruct (Z.eqb_spec k n), (Z.eqb_spec k' n); try lia;
    destruct (Z.testbit cell n), (Z.testbit (Z.ones 8) n); reflexivity.
Qed.

(** Calls of [oled_draw_pixel] on different pixels commute. *)
Theorem draw_pixel_commute (d : oled_device_t) (x y x' y' : Z) (c c' : bool) :
  device_ok d -> 0 <= x -> 0 <= y -> 0 <= x' -> 0 <= y' ->
  (x, y) <> (x', y') ->
  oled_draw_pixel (oled_draw_pixel d x y c) x' y' c'
  = oled_draw_pixel (oled_draw_pixel d x' y' c') x y c.
Proof.
  intros Hok Hx Hy Hx' Hy' Hne. pose proof (device_ok_length d Hok) as Hlen.
  unfold oled_draw_pixel.
  destruct ((x >=? OLED_SCREEN_WIDTH) || (y >=? OLED_SCREEN_HEIGHT)) eqn:G;
    destruct ((x' >=? OLED_SCREEN_WIDTH) || (y' >=? OLED_SCREEN_HEIGHT)) eqn:G';
    cbn [video_memory set_video_memory]; rewrite ?G, ?G'; try reflexivity.
  assert (x < OLED_SCREEN_WIDTH /\ y < OLED_SCREEN_HEIGHT) as [Hxw Hyh].
  { apply on_screen_bounds. unfold on_screen. now rewrite G. }
  assert (x' < OLED_SCREEN_WIDTH /\ y' < OLED_SCREEN_HEIGHT) as [Hxw' Hyh'].
  { apply on_screen_bounds. unfold on_screen. now rewrite G'. }
  destruct (buffer_index_eq x y) as [-> Hidx]; [lia..|].
  destruct (buffer_index_eq x' y') as [-> Hidx']; [lia..|].
  change OLED_VIDEO_BUFFER_SIZE with 1024 in Hidx, Hidx'.
  rewrite !bit_position_pow2 by lia.
  unfold OLED_SCREEN_WIDTH, OLED_SCREEN_HEIGHT in *.
  assert (0 <= y mod 8 < 8) as Hm by (apply Z.mod_pos_bound; lia).
  assert (0 <= y' mod 8 < 8) as Hm' by (apply Z.mod_pos_bound; lia).
  unfold set_video_memory. cbn [i2c_interface device_address screen_width
    screen_height video_memory power_state contrast_level inverted_colors].
  f_equal.
  destruct (decide (x + y / 8 * 128 = x' + y' / 8 * 128)) as [Heq|Hidxne].
  - assert (x = x' /\ y / 8 = y' / 8) as [-> Hpage] by lia.
    assert (y mod 8 <> y' mod 8) as Hbit.
    { intros E. apply Hne. f_equal.
      rewrite (Z.div_mod y 8), (Z.div_mod y' 8) by lia. lia. }
    rewrite <- Hpage.
    rewrite !list_lookup_total_insert_eq by lia.
    rewrite !list_insert_insert_eq. f_equal.
    apply (commute_bits _ (y mod 8) (y' mod 8) c c'); lia.
  - rewrite !list_lookup_total_insert_ne by lia.
    apply list_insert_insert_ne. lia.
Qed.

Lemma draw_pixel_commute_witness :
  oled_draw_pixel (oled_draw_pixel blank_device 5 9 true) 5 10 true
  = oled_draw_pixel (oled_draw_pixel blank_device 5 10 true) 5 9 true.
Proof.
  apply (draw_pixel_commute blank_device 5 9 5 10 true true);
    [vm_compute; reflexivity | lia | lia | lia | lia | discriminate].
Defined.

(** ** Clearing and filling the screen *)

Lemma lookup_total_replicate_lt (n i : nat) (v : Z) :
  (i < n)%nat -> replicate n v !!! i = v.
Proof.
  intros Hlt. apply list_lookup_total_correct. now apply lookup_replicate_2.
Qed.

Lemma fill_screen_ok (d : oled_device_t) (fill_pattern : Z) :
  0 <= fill_pattern < 256 -> device_ok (oled_fill_screen d fill_pattern).
Proof.
  intros Hp.
  unfold device_ok, device_okb, oled_fill_screen. cbn [video_memory set_video_memory].
  rewrite length_replicate. apply andb_true_iff. split; [reflexivity|].
  apply forallb_forall. intros b Hb.
  apply list_elem_of_In, elem_of_replicate in Hb as [-> _].
  unfold is_byte. apply andb_true_iff. rewrite Z.leb_le, Z.ltb_lt. lia.
Qed.

Lemma fill_screen_bit (d : oled_device_t) (fill_pattern x y : Z) :
  0 <= x -> 0 <= y -> on_screen x y = true ->
  pixel_bit (oled_fill_screen d fill_pattern) x y = Z.testbit fill_pattern (y mod 8).
Proof.
  intros Hx Hy Hon. apply on_screen_bounds in Hon as [Hxw Hyh].
  destruct (buffer_index_eq x y) as [_ Hidx]; [lia..|].
  change OLED_VIDEO_BUFFER_SIZE with 1024 in Hidx.
  unfold pixel_bit, oled_fill_screen. cbn [video_memory set_video_memory].
  rewrite lookup_total_replicate_lt; [reflexivity|].
  change (Z.to_nat OLED_VIDEO_BUFFER_SIZE) with 1024%nat. lia.
Qed.

(** After [oled_fill_screen] with a byte pattern the device is well formed
    whatever it held before, and pixel [(x, y)] of the screen shows bit
    [y mod 8] of the pattern: rows repeat with period 8. *)
Theorem fill_screen_pixels (d : oled_device_t) (fill_pattern x y : Z) :
  0 <= fill_pattern < 256 -> 0 <= x -> 0 <= y ->
  device_ok (oled_fill_screen d fill_pattern)
  /\ oled_read_pixel (oled_fill_screen d fill_pattern) x y
     = on_screen x y && Z.testbit fill_pattern (y mod 8).
Proof.
  intros Hp Hx Hy. split; [now apply fill_screen_ok|].
  rewrite oled_read_pixel_bit by assumption.
  destruct (on_screen x y) eqn:Hon; [|reflexivity]. cbn [andb].
  now apply fill_screen_bit.
Qed.

Lemma fill_screen_pixels_witness :
  device_ok (oled_fill_screen blank_device 0xA5)
  /\ oled_read_pixel (oled_fill_screen blank_device 0xA5) 17 10
     = on_screen 17 10 && Z.testbit 0xA5 (10 mod 8).
Proof. apply (fill_screen_pixels blank_device 0xA5 17 10); lia. Defined.

(** After [oled_clear_screen] every pixel reads off, whatever the device
    held before (even a framebuffer of the wrong length). *)
Theorem clear_screen_all_off (d : oled_device_t) (x y : Z) :
  0 <= x -> 0 <= y ->
  device_ok (oled_clear_screen d)
  /\ oled_read_pixel (oled_clear_screen d) x y = false.
Proof.
  intros Hx Hy. change (oled_clear_screen d) with (oled_fill_screen d 0).
  split; [apply fill_screen_ok; lia|].
  rewrite oled_read_pixel_bit by assumption.
  destruct (on_screen x y) eqn:Hon; [|reflexivity]. cbn [andb].
  rewrite fill_screen_bit by assumption. apply Z.bits_0.
Qed.

Lemma clear_screen_all_off_witness :
  device_ok (oled_clear_screen (oled_fill_screen blank_device 0xFF))
  /\ oled_read_pixel (oled_clear_screen (oled_fill_screen blank_device 0xFF)) 3 3 = false.
Proof. apply (clear_screen_all_off (oled_fill_screen blank_device 0xFF) 3 3); lia. Defined.

(** ** Line segment: the path walked *)

Section LinePath.
Variables x1 y1 x2 y2 dx dy sx sy : Z.
Variable c : bool.
Hypothesis dx_nonneg : 0 <= dx.
Hypothesis dy_nonneg : 0 <= dy.
Hypothesis sx_unit : sx = 1 \/ sx = -1.
Hypothesis sy_unit : sy = 1 \/ sy = -1.
Hypothesis x2_eq : x2 = x1 + sx * dx.
Hypothesis y2_eq : y2 = y1 + sy * dy.

(** The states the loop passes through, from [(a, b)] to [(dx, dy)].
    When the line is closer to the x axis ([dy <= dx]) and the error term
    is in the band it starts in, every iteration advances x; likewise for
    y. *)
Lemma line_loop_path fuel :
  forall acc a b e X Y,
    0 <= a <= dx -> 0 <= b <= dy ->
    e = dx - dy + b * dx - a * dy ->
    X = x1 + sx * a -> Y = y1 + sy * b ->
    (dx - a) + (dy - b) < Z.of_nat fuel ->
    exists path,
      line_loop record_pixel fuel acc x2 y2 dx dy sx sy c e X Y
        = Some (acc ++ (line_call x1 y1 sx sy c <$> path))
      /\ path !! 0%nat = Some (a, b)
      /\ last path = Some (dx, dy)
      /\ Forall (fun s => 0 <= s.1 <= dx /\ 0 <= s.2 <= dy) path
      /\ (forall i s t, path !! i = Some s -> path !! S i = Some t -> line_step s t)
      /\ (dy <= dx -> dy - 2 * dx < 2 * (b * dx - a * dy) < dx ->
          Z.of_nat (length path) = dx - a + 1
          /\ forall i s, path !! i = Some s -> s.1 = a + Z.of_nat i)
      /\ (dx <= dy -> dx - 2 * dy < 2 * (a * dy - b * dx) < dy ->
          Z.of_nat (length path) = dy - b + 1
          /\ forall i s, path !! i = Some s -> s.2 = b + Z.of_nat i)
      /\ (Z.abs (2 * (b * dx - a * dy)) <= Z.max dx dy ->
          Forall (fun s => Z.abs (2 * (s.2 * dx - s.1 * dy)) <= Z.max dx dy) path).
Proof.
  induction fuel as [|fuel IH]; intros acc a b e X Y Ha Hb He HX HY Hfuel; [lia|].
  simpl.
  destruct (decide (a = dx /\ b = dy)) as [[Ea Eb]|Hgo].
  - assert ((X =? x2) && (Y =? y2) = true) as ->
      by (apply andb_true_iff; rewrite !Z.eqb_eq; subst; auto).
    exists [(a, b)]. subst a b.
    split; [rewrite HX, HY; reflexivity|]. split; [reflexivity|]. split; [reflexivity|].
    split; [repeat constructor; simpl; lia|].
    split; [intros [|i] s t Hs Ht; discriminate|].
    split; [|split]; [| |intros Hc; repeat constructor; exact Hc];
      intros _ _; (split; [simpl; lia|]);
      intros [|i] s Hs; try discriminate; injection Hs as <-; simpl; lia.
  - assert ((X =? x2) && (Y =? y2) = false) as ->.
    { apply andb_false_iff. rewrite !Z.eqb_neq.
      destruct (Z.eq_dec a dx) as [->|]; [right|left]; subst; nia. }
    assert (a = dx -> 2 * e <= - dy) as Hxdone by (intros ->; nia).
    assert (b = dy -> dx <= 2 * e) as Hydone by (intros ->; nia).
    assert (dy <= dx -> dy - 2 * dx < 2 * (b * dx - a * dy) < dx -> a < dx) as Hxmajor.
    { intros Hle Hband. destruct (Z.eq_dec a dx) as [->|]; [|lia].
      assert (b < dy) by lia. nia. }
    assert (dx <= dy -> dx - 2 * dy < 2 * (a * dy - b * dx) < dy -> b < dy) as Hymajor.
    { intros Hle Hband. destruct (Z.eq_dec b dy) as [->|]; [|lia].
      assert (a < dx) by lia. nia. }
    rewrite Z.gtb_ltb.
    destruct (Z.ltb_spec (- dy) (2 * e)) as [Gx|Gx],
             (Z.ltb_spec (2 * e) dx) as [Gy|Gy]; try lia.
    + destruct (IH (record_pixel acc (u8 X) (u8 Y) c) (a + 1) (b + 1)
                  (e - dy + dx) (X + sx) (Y + sy))
        as (path & Hrun & Hhd & Hlast & Hall & Hchain & Hxm & Hym & Hcl); [lia..|].
      exists ((a, b) :: path). rewrite Hrun. unfold record_pixel.
      rewrite <- app_assoc. subst X Y.
      split; [reflexivity|]. split; [reflexivity|].
      split; [destruct path; [discriminate|exact Hlast]|].
      split; [constructor; [simpl; lia|exact Hall]|].
      split.
      { intros [|i] s t Hs Ht; [|now apply (Hchain i)].
        injection Hs as <-. simpl in Ht. rewrite Hhd in Ht. injection Ht as <-.
        unfold line_step. simpl. repeat split; [lia..|]. intros Heq. injection Heq. lia. }
      split; [intros Hle Hband|split; [intros Hle Hband|intros Hc]].
      * destruct Hxm as [Hlen Hidx]; [lia|lia|].
        split; [rewrite length_cons; lia|].
        intros [|i] s Hs; [injection Hs as <-; simpl; lia|].
        rewrite (Hidx i s Hs). lia.
      * destruct Hym as [Hlen Hidx]; [lia|lia|].
        split; [rewrite length_cons; lia|].
        intros [|i] s Hs; [injection Hs as <-; simpl; lia|].
        rewrite (Hidx i s Hs). lia.
      * constructor; [exact Hc|].
        apply Hcl. subst e. clear - Hc Gx Gy dx_nonneg dy_nonneg. lia.
    + destruct (IH (record_pixel acc (u8 X) (u8 Y) c) (a + 1) b
                  (e - dy) (X + sx) Y)
        as (path & Hrun & Hhd & Hlast & Hall & Hchain & Hxm & Hym & Hcl); [lia..|].
      exists ((a, b) :: path). rewrite Hrun. unfold record_pixel.
      rewrite <- app_assoc. subst X Y.
      split; [reflexivity|]. split; [reflexivity|].
      split; [destruct path; [discriminate|exact Hlast]|].
      split; [constructor; [simpl; lia|exact Hall]|].
      split.
      { intros [|i] s t Hs Ht; [|now apply (Hchain i)].
        injection Hs as <-. simpl in Ht. rewrite Hhd in Ht. injection Ht as <-.
        unfold line_step. simpl. repeat split; [lia..|]. intros Heq. injection Heq. lia. }
      split; [intros Hle Hband|split; [intros Hle Hband|intros Hc]].
      * destruct Hxm as [Hlen Hidx]; [lia|lia|].
        split; [rewrite length_cons; lia|].
        intros [|i] s Hs; [injection Hs as <-; simpl; lia|].
        rewrite (Hidx i s Hs). lia.
      * exfalso. lia.
      * constructor; [exact Hc|].
        apply Hcl. subst e. clear - Hc Gx Gy dx_nonneg dy_nonneg. lia.
    + destruct (IH (record_pixel acc (u8 X) (u8 Y) c) a (b + 1)
                  (e + dx) X (Y + sy))
        as (path & Hrun & Hhd & Hlast & Hall & Hchain & Hxm & Hym & Hcl); [lia..|].
      exists ((a, b) :: path). rewrite Hrun. unfold record_pixel.
      rewrite <- app_assoc. subst X Y.
      split; [reflexivity|]. split; [reflexivity|].
      split; [destruct path; [discriminate|exact Hlast]|].
      split; [constructor; [simpl; lia|exact Hall]|].
      split.
      { intros [|i] s t Hs Ht; [|now apply (Hchain i)].
        injection Hs as <-. simpl in Ht. rewrite Hhd in Ht. injection Ht as <-.
        unfold line_step. simpl. repeat split; [lia..|]. intros Heq. injection Heq. lia. }
      split; [intros Hle Hband|split; [intros Hle Hband|intros Hc]].
      * exfalso. lia.
      * destruct Hym as [Hlen Hidx]; [lia|lia|].
        split; [rewrite length_cons; lia|].
        intros [|i] s Hs; [injection Hs as <-; simpl; lia|].
        rewrite (Hidx i s Hs). lia.
      * constructor; [exact Hc|].
        apply Hcl. subst e. clear - Hc Gx Gy dx_nonneg dy_nonneg. lia.
Qed.
End LinePath.

(** The states of a whole line between byte end points, without the
    [uint8_t] conversions (which are the identity inside the bounding
    box). *)
Lemma line_segment_states (x1 y1 x2 y2 : Z) (c : bool) (fuel : nat) :
  0 <= x1 < 256 -> 0 <= y1 < 256 -> 0 <= x2 < 256 -> 0 <= y2 < 256 ->
  Z.abs (x2 - x1) + Z.abs (y2 - y1) < Z.of_nat fuel ->
  let dx := Z.abs (x2 - x1) in
  let dy := Z.abs (y2 - y1) in
  let sx := if x1 <? x2 then 1 else -1 in
  let sy := if y1 <? y2 then 1 else -1 in
  exists path,
    oled_draw_line_segment record_pixel fuel [] x1 y1 x2 y2 c
      = Some ((fun s : Z * Z => (x1 + sx * s.1, y1 + sy * s.2, c)) <$> path)
    /\ path !! 0%nat = Some (0, 0)
    /\ last path = Some (dx, dy)
    /\ Forall (fun s => 0 <= s.1 <= dx /\ 0 <= s.2 <= dy) path
    /\ (forall i s t, path !! i = Some s -> path !! S i = Some t -> line_step s t)
    /\ Z.of_nat (length path) = Z.max dx dy + 1
    /\ (dy <= dx -> forall i s, path !! i = Some s -> s.1 = Z.of_nat i)
    /\ (dx <= dy -> forall i s, path !! i = Some s -> s.2 = Z.of_nat i)
    /\ Forall (fun s => Z.abs (2 * (s.2 * dx - s.1 * dy)) <= Z.max dx dy) path.
Proof.
  intros Hx1 Hy1 Hx2 Hy2 Hfuel. cbv zeta.
  set (dx := Z.abs (x2 - x1)). set (dy := Z.abs (y2 - y1)).
  set (sx := if x1 <? x2 then 1 else -1). set (sy := if y1 <? y2 then 1 else -1).
  assert (0 <= dx /\ (sx = 1 \/ sx = -1) /\ x2 = x1 + sx * dx) as (Hdx & Hsx & Hx2e)
    by (subst dx sx; destruct (Z.ltb_spec x1 x2); lia).
  assert (0 <= dy /\ (sy = 1 \/ sy = -1) /\ y2 = y1 + sy * dy) as (Hdy & Hsy & Hy2e)
    by (subst dy sy; destruct (Z.ltb_spec y1 y2); lia).
  destruct (line_loop_path x1 y1 x2 y2 dx dy sx sy c Hdx Hdy Hsx Hsy Hx2e Hy2e
              fuel [] 0 0 (dx - dy) x1 y1)
    as (path & Hrun & Hhd & Hlast & Hall & Hchain & Hxm & Hym & Hcl); [lia..|].
  exists path. unfold oled_draw_line_segment. fold dx dy sx sy.
  split.
  { rewrite Hrun, app_nil_l. f_equal. apply Forall_fmap_ext_1.
    eapply Forall_impl; [exact Hall|]. intros [a b] [Ha Hb]. simpl in *.
    unfold line_call. simpl. rewrite !u8_small; [reflexivity|nia..]. }
  split; [exact Hhd|]. split; [exact Hlast|]. split; [exact Hall|].
  split; [exact Hchain|].
  enough (Z.of_nat (length path) = Z.max dx dy + 1
          /\ (dy <= dx -> forall i s, path !! i = Some s -> s.1 = Z.of_nat i)
          /\ (dx <= dy -> forall i s, path !! i = Some s -> s.2 = Z.of_nat i))
    as (H1 & H2 & H3).
  { split; [exact H1|]. split; [exact H2|]. split; [exact H3|]. apply Hcl. lia. }
  destruct (Z.eq_dec (Z.max dx dy) 0) as [Hzero|Hpos].
  - (* a single point *)
    assert (dx = 0 /\ dy = 0) as [Edx Edy] by lia.
    assert (length path = 1%nat) as Hone.
    { destruct path as [|s0 [|s1 rest]]; [discriminate|reflexivity|exfalso].
      specialize (Hchain 0%nat s0 s1 eq_refl eq_refl).
      apply Forall_cons in Hall as [H0 Hall]. apply Forall_cons in Hall as [H1 _].
      destruct Hchain as (_ & _ & Hne). apply Hne.
      destruct s0, s1. simpl in *. f_equal; lia. }
    split; [rewrite Hone; lia|].
    split; intros _ i s Hs;
      (assert (i = 0%nat) as -> by (apply lookup_lt_Some in Hs; lia));
      rewrite Hhd in Hs; injection Hs as <-; reflexivity.
  - destruct (Z.le_ge_cases dy dx) as [Hle|Hle].
    + destruct Hxm as [Hlen Hidx]; [lia|lia|].
      split; [lia|]. split.
      * intros _ i s Hs. rewrite (Hidx i s Hs). lia.
      * intros Hle'. assert (dx = dy) as E by lia.
        destruct Hym as [_ Hidy]; [lia|lia|].
        intros i s Hs. rewrite (Hidy i s Hs). lia.
    + destruct Hym as [Hlen Hidy]; [lia|lia|].
      split; [lia|]. split.
      * intros Hle'. assert (dx = dy) as E by lia.
        destruct Hxm as [_ Hidx]; [lia|lia|].
        intros i s Hs. rewrite (Hidx i s Hs). lia.
      * intros _ i s Hs. rewrite (Hidy i s Hs). lia.
Qed.

(** C9: for all end points (bytes, as the parameters are), in every
    octant and in the horizontal, vertical and single-point cases, the
    Bresenham loop returns once the fuel exceeds [|x2-x1| + |y2-y1|]
    iterations, and what it plots is the line: the calls start at
    [(x1, y1)], stay inside the bounding box of the end points, and the
    end point [(x2, y2)] is plotted last and only there; there is one call
    per step along the longer axis, [max(|x2-x1|, |y2-y1|) + 1] in all;
    call [i] has advanced [i] pixels along the longer axis and lies
    within half a pixel of the ideal line, measured along the shorter
    axis (twice the cross product of its offset from the start with the
    direction of the line is at most the longer extent); and from one
    call to the next each coordinate stays or moves one pixel towards the
    end point.  The device routine makes the same calls. *)
Theorem line_segment_ends_at_endpoint (d : oled_device_t)
    (x1 y1 x2 y2 : Z) (c : bool) (fuel : nat) :
  0 <= x1 < 256 -> 0 <= y1 < 256 -> 0 <= x2 < 256 -> 0 <= y2 < 256 ->
  Z.abs (x2 - x1) + Z.abs (y2 - y1) < Z.of_nat fuel ->
  let longer := Z.max (Z.abs (x2 - x1)) (Z.abs (y2 - y1)) in
  let step_x := if x1 <? x2 then 1 else -1 in
  let step_y := if y1 <? y2 then 1 else -1 in
  exists pre,
    oled_draw_line_segment record_pixel fuel [] x1 y1 x2 y2 c
      = Some (pre ++ [(x2, y2, c)])
    /\ oled_draw_line_segment oled_draw_pixel fuel d x1 y1 x2 y2 c
       = Some (replay (pre ++ [(x2, y2, c)]) d)
    /\ head (pre ++ [(x2, y2, c)]) = Some (x1, y1, c)
    /\ last (pre ++ [(x2, y2, c)]) = Some (x2, y2, c)
    /\ Forall (before_end x1 y1 x2 y2 c) pre
    /\ Z.of_nat (length pre) <= Z.abs (x2 - x1) + Z.abs (y2 - y1)
    /\ Z.of_nat (length pre) = longer
    /\ (forall (i : nat) (p : plot),
          (pre ++ [(x2, y2, c)]) !! i = Some p ->
          p.2 = c
          /\ (Z.abs (y2 - y1) <= Z.abs (x2 - x1) ->
              p.1.1 = x1 + step_x * Z.of_nat i)
          /\ (Z.abs (x2 - x1) <= Z.abs (y2 - y1) ->
              p.1.2 = y1 + step_y * Z.of_nat i)
          /\ Z.abs (2 * ((p.1.2 - y1) * (x2 - x1) - (p.1.1 - x1) * (y2 - y1)))
             <= longer)
    /\ (forall (i : nat) (p q : plot),
          (pre ++ [(x2, y2, c)]) !! i = Some p ->
          (pre ++ [(x2, y2, c)]) !! S i = Some q ->
          (q.1.1 = p.1.1 \/ q.1.1 = p.1.1 + step_x)
          /\ (q.1.2 = p.1.2 \/ q.1.2 = p.1.2 + step_y)
          /\ q.1 <> p.1).
Proof.
  intros Hx1 Hy1 Hx2 Hy2 Hfuel. cbv zeta.
  destruct (line_loop_run x1 y1 x2 y2 (Z.abs (x2 - x1)) (Z.abs (y2 - y1))
              (if x1 <? x2 then 1 else -1) (if y1 <? y2 then 1 else -1) c)
    with (fuel := fuel) (acc := @nil plot) (a := 0) (b := 0)
         (e := Z.abs (x2 - x1) - Z.abs (y2 - y1)) (X := x1) (Y := y1)
    as (pre & Hrun & Hall & Hlen & Hhd);
    try (destruct (Z.ltb_spec x1 x2); lia);
    try (destruct (Z.ltb_spec y1 y2); lia).
  rewrite !u8_small in Hrun by assumption.
  rewrite (u8_small x2), (u8_small y2), (u8_small x1), (u8_small y1) in Hhd by assumption.
  simpl in Hrun.
  destruct (line_segment_states x1 y1 x2 y2 c fuel Hx1 Hy1 Hx2 Hy2 Hfuel)
    as (path & Hpath & _ & _ & _ & Hchain & Hcount & Hxm & Hym & Hclose).
  unfold oled_draw_line_segment in Hpath. rewrite Hrun in Hpath.
  injection Hpath as Hcalls.
  set (dx := Z.abs (x2 - x1)) in *. set (dy := Z.abs (y2 - y1)) in *.
  set (sx := if x1 <? x2 then 1 else -1) in *.
  set (sy := if y1 <? y2 then 1 else -1) in *.
  assert ((sx = 1 \/ sx = -1) /\ x2 - x1 = sx * dx) as (Hsx & Hdx)
    by (subst dx sx; destruct (Z.ltb_spec x1 x2); lia).
  assert ((sy = 1 \/ sy = -1) /\ y2 - y1 = sy * dy) as (Hsy & Hdy)
    by (subst dy sy; destruct (Z.ltb_spec y1 y2); lia).
  exists pre. unfold oled_draw_line_segment. fold dx dy sx sy.
  split; [exact Hrun|]. split.
  { pose proof (line_loop_related record_pixel oled_draw_pixel (replays d)
                  (replays_draw d) fuel [] d x2 y2 dx dy sx sy c (dx - dy) x1 y1
                  (replays_nil d)) as Hrel.
    rewrite Hrun in Hrel. inversion Hrel as [calls' d' [-> _] E1 E2|]. reflexivity. }
  split; [exact Hhd|]. split; [apply last_snoc|]. split.
  { eapply Forall_impl; [exact Hall|]. intros p Hp.
    now apply on_the_way_before_end. }
  split; [lia|]. split.
  { apply (f_equal length) in Hcalls.
    rewrite length_app, length_fmap in Hcalls. simpl in Hcalls. lia. }
  rewrite Hcalls. split.
  - intros i p Hp.
    apply list_lookup_fmap_Some in Hp as ([a b] & -> & Hs).
    rewrite Forall_forall in Hclose.
    pose proof (Hclose _ (list_elem_of_lookup_2 _ _ _ Hs)) as Hdev.
    cbn [fst snd] in *.
    split; [reflexivity|]. split; [|split].
    + intros Hle. pose proof (Hxm Hle i _ Hs) as E. cbn [fst] in E. now rewrite E.
    + intros Hle. pose proof (Hym Hle i _ Hs) as E. cbn [snd] in E. now rewrite E.
    + rewrite Hdx, Hdy.
      destruct Hsx as [-> | ->], Hsy as [-> | ->]; lia.
  - intros i p q Hp Hq.
    apply list_lookup_fmap_Some in Hp as ([a b] & -> & Hs).
    apply list_lookup_fmap_Some in Hq as ([a' b'] & -> & Ht).
    destruct (Hchain i _ _ Hs Ht) as (Ha & Hb & Hne). cbn [fst snd] in *.
    split; [destruct Ha as [-> | ->]; lia|].
    split; [destruct Hb as [-> | ->]; lia|].
    intros [= Ex Ey]. apply Hne. f_equal; nia.
Qed.

Lemma line_segment_ends_at_endpoint_witness :
  let longer := Z.max (Z.abs (10 - 3)) (Z.abs (4 - 9)) in
  let step_x := if 3 <? 10 then 1 else -1 in
  let step_y := if 9 <? 4 then 1 else -1 in
  exists pre,
    oled_draw_line_segment record_pixel 14 [] 3 9 10 4 true
      = Some (pre ++ [(10, 4, true)])
    /\ oled_draw_line_segment oled_draw_pixel 14 blank_device 3 9 10 4 true
       = Some (replay (pre ++ [(10, 4, true)]) blank_device)
    /\ head (pre ++ [(10, 4, true)]) = Some (3, 9, true)
    /\ last (pre ++ [(10, 4, true)]) = Some (10, 4, true)
    /\ Forall (before_end 3 9 10 4 true) pre
    /\ Z.of_nat (length pre) <= Z.abs (10 - 3) + Z.abs (4 - 9)
    /\ Z.of_nat (length pre) = longer
    /\ (forall (i : nat) (p : plot),
          (pre ++ [(10, 4, true)]) !! i = Some p ->
          p.2 = true
          /\ (Z.abs (4 - 9) <= Z.abs (10 - 3) ->
              p.1.1 = 3 + step_x * Z.of_nat i)
          /\ (Z.abs (10 - 3) <= Z.abs (4 - 9) ->
              p.1.2 = 9 + step_y * Z.of_nat i)
          /\ Z.abs (2 * ((p.1.2 - 9) * (10 - 3) - (p.1.1 - 3) * (4 - 9)))
             <= longer)
    /\ (forall (i : nat) (p q : plot),
          (pre ++ [(10, 4, true)]) !! i = Some p ->
          (pre ++ [(10, 4, true)]) !! S i = Some q ->
          (q.1.1 = p.1.1 \/ q.1.1 = p.1.1 + step_x)
          /\ (q.1.2 = p.1.2 \/ q.1.2 = p.1.2 + step_y)
          /\ q.1 <> p.1).
Proof.
  apply (line_segment_ends_at_endpoint blank_device 3 9 10 4 true 14); lia.
Defined.

(** A line is a connected, monotone path: from one plotted point to the
    next each coordinate either stays or moves one pixel towards the end
    point, and the point changes. *)
Theorem line_segment_connected (x1 y1 x2 y2 : Z) (c : bool) (fuel : nat) :
  0 <= x1 < 256 -> 0 <= y1 < 256 -> 0 <= x2 < 256 -> 0 <= y2 < 256 ->
  Z.abs (x2 - x1) + Z.abs (y2 - y1) < Z.of_nat fuel ->
  exists calls,
    oled_draw_line_segment record_pixel fuel [] x1 y1 x2 y2 c = Some calls
    /\ forall i p q,
         calls !! i = Some p -> calls !! S i = Some q ->
         (q.1.1 = p.1.1 \/ q.1.1 = p.1.1 + (if x1 <? x2 then 1 else -1))
         /\ (q.1.2 = p.1.2 \/ q.1.2 = p.1.2 + (if y1 <? y2 then 1 else -1))
         /\ q.1 <> p.1.
Proof.
  intros Hx1 Hy1 Hx2 Hy2 Hfuel.
  destruct (line_segment_states x1 y1 x2 y2 c fuel Hx1 Hy1 Hx2 Hy2 Hfuel)
    as (path & Hrun & _ & _ & _ & Hchain & _).
  eexists. split; [exact Hrun|]. intros i p q Hp Hq.
  apply list_lookup_fmap_Some in Hp as ([a b] & -> & Hs).
  apply list_lookup_fmap_Some in Hq as ([a' b'] & -> & Ht).
  destruct (Hchain i _ _ Hs Ht) as (Ha & Hb & Hne). simpl in *.
  assert ((if x1 <? x2 then 1 else -1) <> 0) by (destruct (x1 <? x2); lia).
  assert ((if y1 <? y2 then 1 else -1) <> 0) by (destruct (y1 <? y2); lia).
  split; [destruct Ha as [->| ->]; lia|].
  split; [destruct Hb as [->| ->]; lia|].
  intros [= Ex Ey]. apply Hne. f_equal; nia.
Qed.

Lemma line_segment_connected_witness :
  exists calls,
    oled_draw_line_segment record_pixel 20 [] 12 3 2 9 true = Some calls
    /\ forall i p q,
         calls !! i = Some p -> calls !! S i = Some q ->
         (q.1.1 = p.1.1 \/ q.1.1 = p.1.1 + (if 12 <? 2 then 1 else -1))
         /\ (q.1.2 = p.1.2 \/ q.1.2 = p.1.2 + (if 3 <? 9 then 1 else -1))
         /\ q.1 <> p.1.
Proof. apply (line_segment_connected 12 3 2 9 true 20); lia. Defined.

(** A line plots exactly [max(|dx|, |dy|) + 1] points, and call number [i]
    has advanced [i] pixels along the longer axis. *)
Theorem line_segment_major_axis (x1 y1 x2 y2 : Z) (c : bool) (fuel : nat) :
  0 <= x1 < 256 -> 0 <= y1 < 256 -> 0 <= x2 < 256 -> 0 <= y2 < 256 ->
  Z.abs (x2 - x1) + Z.abs (y2 - y1) < Z.of_nat fuel ->
  exists calls,
    oled_draw_line_segment record_pixel fuel [] x1 y1 x2 y2 c = Some calls
    /\ Z.of_nat (length calls) = Z.max (Z.abs (x2 - x1)) (Z.abs (y2 - y1)) + 1
    /\ (Z.abs (y2 - y1) <= Z.abs (x2 - x1) ->
        forall i p, calls !! i = Some p ->
                    p.1.1 = x1 + (if x1 <? x2 then 1 else -1) * Z.of_nat i)
    /\ (Z.abs (x2 - x1) <= Z.abs (y2 - y1) ->
        forall i p, calls !! i = Some p ->
                    p.1.2 = y1 + (if y1 <? y2 then 1 else -1) * Z.of_nat i).
Proof.
  intros Hx1 Hy1 Hx2 Hy2 Hfuel.
  destruct (line_segment_states x1 y1 x2 y2 c fuel Hx1 Hy1 Hx2 Hy2 Hfuel)
    as (path & Hrun & _ & _ & _ & _ & Hlen & Hxm & Hym & _).
  eexists. split; [exact Hrun|]. rewrite length_fmap. split; [exact Hlen|].
  split; intros Hle i p Hp;
    apply list_lookup_fmap_Some in Hp as ([a b] & -> & Hs); simpl.
  - pose proof (Hxm Hle i _ Hs) as E. simpl in E. now rewrite E.
  - pose proof (Hym Hle i _ Hs) as E. simpl in E. now rewrite E.
Qed.

Lemma line_segment_major_axis_witness :
  exists calls,
    oled_draw_line_segment record_pixel 20 [] 12 3 2 9 true = Some calls
    /\ Z.of_nat (length calls) = Z.max (Z.abs (2 - 12)) (Z.abs (9 - 3)) + 1
    /\ (Z.abs (9 - 3) <= Z.abs (2 - 12) ->
        forall i p, calls !! i = Some p ->
                    p.1.1 = 12 + (if 12 <? 2 then 1 else -1) * Z.of_nat i)
    /\ (Z.abs (2 - 12) <= Z.abs (9 - 3) ->
        forall i p, calls !! i = Some p ->
                    p.1.2 = 3 + (if 3 <? 9 then 1 else -1) * Z.of_nat i).
Proof. apply (line_segment_major_axis 12 3 2 9 true 20); lia. Defined.

(** The calls of a horizontal and of a vertical line. *)
Lemma horizontal_line_calls (x1 x2 y : Z) (c : bool) (fuel : nat) :
  0 <= x1 < 256 -> 0 <= x2 < 256 -> 0 <= y < 256 ->
  Z.abs (x2 - x1) < Z.of_nat fuel ->
  oled_draw_line_segment record_pixel fuel [] x1 y x2 y c
  = Some ((fun i => (x1 + (if x1 <? x2 then 1 else -1) * i, y, c))
            <$> seqZ 0 (Z.abs (x2 - x1) + 1)).
Proof.
  intros Hx1 Hx2 Hy Hfuel.
  destruct (line_segment_states x1 y x2 y c fuel Hx1 Hy Hx2 Hy)
    as (path & Hrun & _ & _ & Hall & _ & Hlen & Hxm & _); [lia|].
  rewrite Hrun. f_equal. rewrite Z.sub_diag in *. simpl Z.abs in *.
  apply (list_eq_same_length _ _ (length path));
    [rewrite length_fmap, length_seqZ; lia|now rewrite length_fmap|].
  intros i p q Hi Hp Hq.
  apply list_lookup_fmap_Some in Hp as ([a b] & -> & Hs).
  apply list_lookup_fmap_Some in Hq as (k & -> & Hk).
  apply lookup_seqZ in Hk as [-> _].
  rewrite Forall_forall in Hall.
  specialize (Hall _ (list_elem_of_lookup_2 _ _ _ Hs)).
  pose proof (Hxm ltac:(lia) i _ Hs) as E. simpl in *. subst a.
  replace b with 0 by lia. rewrite Z.mul_0_r, Z.add_0_r. reflexivity.
Qed.

Lemma vertical_line_calls (x y1 y2 : Z) (c : bool) (fuel : nat) :
  0 <= x < 256 -> 0 <= y1 < 256 -> 0 <= y2 < 256 ->
  Z.abs (y2 - y1) < Z.of_nat fuel ->
  oled_draw_line_segment record_pixel fuel [] x y1 x y2 c
  = Some ((fun i => (x, y1 + (if y1 <? y2 then 1 else -1) * i, c))
            <$> seqZ 0 (Z.abs (y2 - y1) + 1)).
Proof.
  intros Hx Hy1 Hy2 Hfuel.
  destruct (line_segment_states x y1 x y2 c fuel Hx Hy1 Hx Hy2)
    as (path & Hrun & _ & _ & Hall & _ & Hlen & _ & Hym & _); [lia|].
  rewrite Hrun. f_equal. rewrite Z.sub_diag in *. simpl Z.abs in *.
  apply (list_eq_same_length _ _ (length path));
    [rewrite length_fmap, length_seqZ; lia|now rewrite length_fmap|].
  intros i p q Hi Hp Hq.
  apply list_lookup_fmap_Some in Hp as ([a b] & -> & Hs).
  apply list_lookup_fmap_Some in Hq as (k & -> & Hk).
  apply lookup_seqZ in Hk as [-> _].
  rewrite Forall_forall in Hall.
  specialize (Hall _ (list_elem_of_lookup_2 _ _ _ Hs)).
  pose proof (Hym ltac:(lia) i _ Hs) as E. simpl in *. subst b.
  replace a with 0 by lia. rewrite Z.mul_0_r, Z.add_0_r. reflexivity.
Qed.

(** ** Rectangles *)

(** Reading a pixel after a sequence of calls in which every write to that
    pixel carries the same colour [v]. *)
Lemma read_replay_agree calls :
  forall d x y v,
    device_ok d -> Forall byte_coords calls -> 0 <= x -> 0 <= y ->
    (forall c, (x, y, c) ∈ calls -> c = v) ->
    oled_read_pixel (replay calls d) x y =
      if bool_decide ((x, y) ∈ plotted v calls) then v else oled_read_pixel d x y.
Proof.
  induction calls as [|[[px py] pc] calls IH] using rev_ind;
    intros d x y v Hok Hbytes Hx Hy Hagree.
  - change (replay [] d) with d. rewrite bool_decide_eq_false_2; [reflexivity|].
    rewrite elem_of_plotted. intros [Hin _]. now apply not_elem_of_nil in Hin.
  - apply Forall_app in Hbytes as [Hbytes Hp].
    apply Forall_inv in Hp as [Hpx Hpy]. simpl in *.
    rewrite replay_app. simpl.
    rewrite oled_read_draw_pixel by (auto using replay_ok || lia).
    rewrite (IH d x y v) by (auto; intros c Hc; apply Hagree, elem_of_app; auto).
    destruct (on_screen px py && (px =? x) && (py =? y)) eqn:Hhit.
    + apply andb_true_iff in Hhit as [Hhit Hy']. apply andb_true_iff in Hhit as [Hon Hx'].
      apply Z.eqb_eq in Hx', Hy'. subst px py.
      assert (pc = v) as -> by (apply Hagree, elem_of_app; right; apply list_elem_of_singleton; reflexivity).
      rewrite bool_decide_eq_true_2; [reflexivity|].
      apply elem_of_plotted. split; [|exact Hon].
      apply elem_of_app. right. apply list_elem_of_singleton. reflexivity.
    + rewrite (bool_decide_ext ((x, y) ∈ plotted v (calls ++ [(px, py, pc)]))
                               ((x, y) ∈ plotted v calls)); [reflexivity|].
      rewrite !elem_of_plotted, elem_of_app, list_elem_of_singleton.
      split; [|tauto]. intros [[Hin|Heq] Hon]; [tauto|].
      injection Heq as -> -> ->. rewrite Hon, !Z.eqb_refl in Hhit. discriminate.
Qed.

Lemma bool_decide_is (P : Prop) `{Decision P} (b : bool) :
  (P <-> b = true) -> bool_decide P = b.
Proof.
  intros HP. destruct b.
  - apply bool_decide_eq_true_2, HP. reflexivity.
  - apply bool_decide_eq_false_2. intros HP'. apply HP in HP'. discriminate.
Qed.

(** What a raster routine does to a device is what its recorded calls do. *)
Lemma filled_rectangle_replay d ox oy w h c :
  oled_draw_filled_rectangle oled_draw_pixel d ox oy w h c
  = replay (rectangle_calls ox oy w h c) d
  /\ Forall byte_coords (rectangle_calls ox oy w h c).
Proof.
  destruct (filled_rectangle_related record_pixel oled_draw_pixel (replays d)
              (replays_draw d) [] d ox oy w h c (replays_nil d)) as [Hd Hbytes].
  rewrite filled_rectangle_calls, app_nil_l in Hd, Hbytes. auto.
Qed.

(** A filled rectangle that does not run past coordinate 255 sets exactly
    the pixels of the [rect_width] by [rect_height] block at the origin
    (as far as they are on the screen) and leaves every other pixel as it
    was; an empty block changes nothing. *)
Theorem filled_rectangle_pixels (d : oled_device_t)
    (origin_x origin_y rect_width rect_height px py : Z) (fill_color : bool) :
  device_ok d ->
  0 <= origin_x -> 0 <= origin_y -> 0 <= rect_width -> 0 <= rect_height ->
  origin_x + rect_width <= 256 -> origin_y + rect_height <= 256 ->
  0 <= px -> 0 <= py ->
  let d' := oled_draw_filled_rectangle oled_draw_pixel d origin_x origin_y
              rect_width rect_height fill_color in
  device_ok d'
  /\ oled_read_pixel d' px py =
       if on_screen px py
          && (origin_x <=? px) && (px <? origin_x + rect_width)
          && (origin_y <=? py) && (py <? origin_y + rect_height)
       then fill_color else oled_read_pixel d px py.
Proof.
  intros Hok Hox Hoy Hw Hh Hxw Hyh Hpx Hpy. cbv zeta.
  destruct (filled_rectangle_replay d origin_x origin_y rect_width rect_height fill_color)
    as [-> Hbytes].
  split; [now apply replay_ok|].
  rewrite (read_replay_colour fill_color); try assumption.
  2:{ apply Forall_forall. intros p Hp.
      apply elem_of_rectangle_calls in Hp as (col & row & _ & _ & ->). reflexivity. }
  apply (f_equal (fun b : bool => if b then fill_color else oled_read_pixel d px py)).
  apply bool_decide_is. rewrite elem_of_plotted, elem_of_rectangle_calls.
  rewrite !andb_true_iff, !Z.leb_le, !Z.ltb_lt. split.
  - intros [(col & row & Hcol & Hrow & [= -> ->]) Hon].
    rewrite !u8_small in * by lia. repeat split; (assumption || lia).
  - intros [[[[Hon H1] H2] H3] H4]. split; [|exact Hon].
    exists (px - origin_x), (py - origin_y). rewrite !u8_small by lia.
    repeat split; try lia. do 2 f_equal; lia.
Qed.

Lemma filled_rectangle_pixels_witness :
  let d' := oled_draw_filled_rectangle oled_draw_pixel blank_device 120 60 20 8 true in
  device_ok d'
  /\ oled_read_pixel d' 127 63 =
       if on_screen 127 63
          && (120 <=? 127) && (127 <? 120 + 20)
          && (60 <=? 63) && (63 <? 60 + 8)
       then true else oled_read_pixel blank_device 127 63.
Proof.
  apply (filled_rectangle_pixels blank_device 120 60 20 8 127 63 true);
    [vm_compute; reflexivity | lia..].
Defined.

(** ** The other raster routines, two sinks in step *)

Section SimulationMore.
Context {A B : Type}.
Variable drawA : A -> Z -> Z -> bool -> A.
Variable drawB : B -> Z -> Z -> bool -> B.
Variable R : A -> B -> Prop.
Hypothesis draw_related : forall a b x y c,
  0 <= x < 256 -> 0 <= y < 256 ->
  R a b -> R (drawA a x y c) (drawB b x y c).

Lemma line_segment_related fuel a b x1 y1 x2 y2 c :
  R a b ->
  option_Forall2 R (oled_draw_line_segment drawA fuel a x1 y1 x2 y2 c)
                   (oled_draw_line_segment drawB fuel b x1 y1 x2 y2 c).
Proof. intros HR. now apply line_loop_related. Qed.

Lemma rectangle_outline_related fuel a b ox oy w h c :
  R a b ->
  option_Forall2 R (oled_draw_rectangle_outline drawA fuel a ox oy w h c)
                   (oled_draw_rectangle_outline drawB fuel b ox oy w h c).
Proof.
  intros HR. unfold oled_draw_rectangle_outline.
  destruct (line_segment_related fuel a b ox oy (u8 (ox + w - 1)) oy c HR)
    as [a1 b1 HR1|]; [|constructor].
  destruct (line_segment_related fuel a1 b1 ox (u8 (oy + h - 1))
              (u8 (ox + w - 1)) (u8 (oy + h - 1)) c HR1)
    as [a2 b2 HR2|]; [|constructor].
  destruct (line_segment_related fuel a2 b2 ox oy ox (u8 (oy + h - 1)) c HR2)
    as [a3 b3 HR3|]; [|constructor].
  now apply line_segment_related.
Qed.

Lemma filled_circle_related a b cx cy r c :
  R a b ->
  R (oled_draw_filled_circle drawA a cx cy r c)
    (oled_draw_filled_circle drawB b cx cy r c).
Proof.
  intros HR. unfold oled_draw_filled_circle.
  apply (foldl_related R); [|exact HR]. intros a' b' y HR'.
  apply (foldl_related R); [|exact HR']. intros a'' b'' x HR''.
  destruct (_ <=? _); [|exact HR''].
  apply (draw_u8_related drawA drawB R draw_related). exact HR''.
Qed.

Lemma render_character_related font a b x y ch :
  R a b ->
  R (oled_render_character drawA font a x y ch)
    (oled_render_character drawB font b x y ch).
Proof.
  intros HR. unfold oled_render_character.
  destruct (_ || _); [exact HR|].
  apply (foldl_related R); [|exact HR]. intros a' b' column HR'.
  apply (foldl_related R); [|exact HR']. intros a'' b'' bit HR''.
  apply (draw_u8_related drawA drawB R draw_related). exact HR''.
Qed.

Lemma render_text_loop_related font text :
  forall a b ty cursor,
    R a b ->
    R (render_text_loop drawA font a ty cursor text)
      (render_text_loop drawB font b ty cursor text).
Proof.
  induction text as [|ch rest IH]; intros a b ty cursor HR; simpl; [exact HR|].
  destruct (negb (ch =? 0) && (cursor <? OLED_SCREEN_WIDTH)); [|exact HR].
  apply IH. now apply render_character_related.
Qed.
End SimulationMore.

(** A recorder that starts with calls already made keeps them in front. *)
Lemma record_related acc (a b : list plot) x y c :
  0 <= x < 256 -> 0 <= y < 256 ->
  a = acc ++ b -> record_pixel a x y c = acc ++ record_pixel b x y c.
Proof. intros _ _ ->. unfold record_pixel. now rewrite app_assoc. Qed.

Lemma line_segment_record_acc fuel acc x1 y1 x2 y2 c :
  oled_draw_line_segment record_pixel fuel acc x1 y1 x2 y2 c
  = (acc ++.) <$> oled_draw_line_segment record_pixel fuel [] x1 y1 x2 y2 c.
Proof.
  destruct (line_segment_related record_pixel record_pixel (fun a b => a = acc ++ b)
              (record_related acc) fuel acc [] x1 y1 x2 y2 c)
    as [a b ->|]; [now rewrite app_nil_r|reflexivity..].
Qed.

(** The calls of a rectangle outline of positive width and height that does
    not run past coordinate 255: top edge, bottom edge, left edge, right
    edge, each from its first end to its second. *)
Lemma rectangle_outline_calls fuel ox oy w h c :
  0 <= ox -> 0 <= oy -> 1 <= w -> 1 <= h -> ox + w <= 256 -> oy + h <= 256 ->
  Z.max w h <= Z.of_nat fuel ->
  oled_draw_rectangle_outline record_pixel fuel [] ox oy w h c
  = Some (((fun i => (ox + i, oy, c)) <$> seqZ 0 w)
          ++ ((fun i => (ox + i, oy + h - 1, c)) <$> seqZ 0 w)
          ++ ((fun i => (ox, oy + i, c)) <$> seqZ 0 h)
          ++ ((fun i => (ox + w - 1, oy + i, c)) <$> seqZ 0 h)).
Proof.
  intros Hox Hoy Hw Hh Hxw Hyh Hfuel. unfold oled_draw_rectangle_outline.
  rewrite !u8_small by lia.
  rewrite (horizontal_line_calls ox (ox + w - 1) oy c fuel) by lia.
  rewrite line_segment_record_acc.
  rewrite (horizontal_line_calls ox (ox + w - 1) (oy + h - 1) c fuel) by lia.
  cbn [fmap option_fmap option_map].
  rewrite line_segment_record_acc.
  rewrite (vertical_line_calls ox oy (oy + h - 1) c fuel) by lia.
  cbn [fmap option_fmap option_map].
  rewrite line_segment_record_acc.
  rewrite (vertical_line_calls (ox + w - 1) oy (oy + h - 1) c fuel) by lia.
  cbn [fmap option_fmap option_map].
  replace (Z.abs (ox + w - 1 - ox) + 1) with w by lia.
  replace (Z.abs (oy + h - 1 - oy) + 1) with h by lia.
  rewrite <- !app_assoc. f_equal.
  assert (forall n f g, (forall i, 0 <= i < n -> f i = g i) ->
                        f <$> seqZ 0 n = (g <$> seqZ 0 n : list plot)) as Hext.
  { intros n f g Hfg. apply list_fmap_ext. intros i k Hk.
    apply lookup_seqZ in Hk as [-> Hk]. apply Hfg. lia. }
  f_equal; [|f_equal; [|f_equal]]; apply Hext; intros i Hi.
  - destruct (Z.ltb_spec ox (ox + w - 1)); [f_equal; f_equal; lia|].
    replace i with 0 by lia. f_equal; f_equal; lia.
  - destruct (Z.ltb_spec ox (ox + w - 1)); [f_equal; f_equal; lia|].
    replace i with 0 by lia. f_equal; f_equal; lia.
  - destruct (Z.ltb_spec oy (oy + h - 1)); [f_equal; f_equal; lia|].
    replace i with 0 by lia. f_equal; f_equal; lia.
  - destruct (Z.ltb_spec oy (oy + h - 1)); [f_equal; f_equal; lia|].
    replace i with 0 by lia. f_equal; f_equal; lia.
Qed.

(** A rectangle outline of positive width and height that does not run
    past coordinate 255 returns (given fuel for its longest edge), sets
    exactly the border pixels of the block (as far as they are on the
    screen), and leaves the interior and everything outside as it was. *)
Theorem rectangle_outline_pixels (d : oled_device_t)
    (origin_x origin_y rect_width rect_height px py : Z) (border_color : bool)
    (fuel : nat) :
  device_ok d ->
  0 <= origin_x -> 0 <= origin_y -> 1 <= rect_width -> 1 <= rect_height ->
  origin_x + rect_width <= 256 -> origin_y + rect_height <= 256 ->
  Z.max rect_width rect_height <= Z.of_nat fuel ->
  0 <= px -> 0 <= py ->
  exists d',
    oled_draw_rectangle_outline oled_draw_pixel fuel d origin_x origin_y
      rect_width rect_height border_color = Some d'
    /\ device_ok d'
    /\ oled_read_pixel d' px py =
         if on_screen px py
            && (origin_x <=? px) && (px <? origin_x + rect_width)
            && (origin_y <=? py) && (py <? origin_y + rect_height)
            && ((px =? origin_x) || (px =? origin_x + rect_width - 1)
                || (py =? origin_y) || (py =? origin_y + rect_height - 1))
         then border_color else oled_read_pixel d px py.
Proof.
  intros Hok Hox Hoy Hw Hh Hxw Hyh Hfuel Hpx Hpy.
  pose proof (rectangle_outline_related record_pixel oled_draw_pixel (replays d)
                (replays_draw d) fuel [] d origin_x origin_y rect_width rect_height
                border_color (replays_nil d)) as Hrel.
  rewrite rectangle_outline_calls in Hrel by assumption.
  inversion Hrel as [calls d' [-> Hbytes] E1 E2|]. subst calls.
  eexists. split; [reflexivity|]. split; [now apply replay_ok|].
  rewrite (read_replay_colour border_color); try assumption.
  2:{ rewrite !Forall_app, !Forall_fmap. repeat split;
        apply Forall_forall; intros i _; reflexivity. }
  apply (f_equal (fun b : bool => if b then border_color else oled_read_pixel d px py)).
  apply bool_decide_is. rewrite elem_of_plotted.
  rewrite !elem_of_app, !list_elem_of_fmap.
  setoid_rewrite elem_of_seqZ.
  rewrite !andb_true_iff, !orb_true_iff, !Z.leb_le, !Z.ltb_lt, !Z.eqb_eq. split.
  - intros [[(i & [= -> ->] & Hi)|[(i & [= -> ->] & Hi)
             |[(i & [= -> ->] & Hi)|(i & [= -> ->] & Hi)]]] Hon];
      repeat split; (assumption || lia).
  - intros [[[[[Hon H1] H2] H3] H4] Hedge]. split; [|exact Hon].
    destruct Hedge as [[[E|E]|E]|E].
    + right; right; left. exists (py - origin_y). split; [f_equal; f_equal; lia|lia].
    + right; right; right. exists (py - origin_y). split; [f_equal; f_equal; lia|lia].
    + left. exists (px - origin_x). split; [f_equal; f_equal; lia|lia].
    + right; left. exists (px - origin_x). split; [f_equal; f_equal; lia|lia].
Qed.

Lemma rectangle_outline_pixels_witness :
  exists d',
    oled_draw_rectangle_outline oled_draw_pixel 20 blank_device 6 45 16 8 true = Some d'
    /\ device_ok d'
    /\ oled_read_pixel d' 21 50 =
         if on_screen 21 50
            && (6 <=? 21) && (21 <? 6 + 16)
            && (45 <=? 50) && (50 <? 45 + 8)
            && ((21 =? 6) || (21 =? 6 + 16 - 1)
                || (50 =? 45) || (50 =? 45 + 8 - 1))
         then true else oled_read_pixel blank_device 21 50.
Proof.
  apply (rectangle_outline_pixels blank_device 6 45 16 8 21 50 true 20);
    [vm_compute; reflexivity | lia..].
Defined.

(** ** Circles *)

Lemma filled_circle_record acc cx cy r c :
  oled_draw_filled_circle record_pixel acc cx cy r c
  = acc ++ filled_circle_calls cx cy r c.
Proof.
  unfold oled_draw_filled_circle, filled_circle_calls.
  apply foldl_record. intros s y.
  apply foldl_record. intros s' x.
  destruct (_ <=? _); [reflexivity|now rewrite app_nil_r].
Qed.

Lemma elem_of_filled_circle_calls cx cy r c (p : plot) :
  p ∈ filled_circle_calls cx cy r c <->
  exists x y, - r <= x <= r /\ - r <= y <= r /\ x * x + y * y <= r * r
              /\ p = (u8 (cx + x), u8 (cy + y), c).
Proof.
  unfold filled_circle_calls. rewrite list_elem_of_bind. split.
  - intros (y & Hp & Hy). apply list_elem_of_bind in Hp as (x & Hp & Hx).
    apply elem_of_seqZ in Hx, Hy.
    destruct (Z.leb_spec (x * x + y * y) (r * r)); [|now apply elem_of_nil in Hp].
    apply list_elem_of_singleton in Hp. exists x, y. repeat split; (lia || assumption).
  - intros (x & y & Hx & Hy & Hin & ->). exists y.
    split; [|apply elem_of_seqZ; lia].
    apply list_elem_of_bind. exists x. split; [|apply elem_of_seqZ; lia].
    destruct (Z.leb_spec (x * x + y * y) (r * r)); [|lia].
    apply list_elem_of_singleton. reflexivity.
Qed.

Lemma square_sum_bound (a b r : Z) :
  0 <= r -> a * a + b * b <= r * r -> - r <= a <= r.
Proof.
  intros Hr Hsum. assert (0 <= b * b) by apply Z.square_nonneg.
  split.
  - destruct (Z.le_gt_cases (- r) a); [assumption|].
    assert (r * r < a * a) by nia. lia.
  - destruct (Z.le_gt_cases a r); [assumption|].
    assert (r * r < a * a) by nia. lia.
Qed.

(** A filled circle whose bounding square stays within the byte range
    sets exactly the pixels at squared distance at most [radius²] from the
    centre (as far as they are on the screen) and leaves the others as
    they were. *)
Theorem filled_circle_pixels (d : oled_device_t)
    (center_x center_y radius px py : Z) (fill_color : bool) :
  device_ok d ->
  0 <= radius -> radius <= center_x -> center_x + radius <= 255 ->
  radius <= center_y -> center_y + radius <= 255 ->
  0 <= px -> 0 <= py ->
  let d' := oled_draw_filled_circle oled_draw_pixel d center_x center_y
              radius fill_color in
  device_ok d'
  /\ oled_read_pixel d' px py =
       if on_screen px py
          && ((px - center_x) * (px - center_x) + (py - center_y) * (py - center_y)
              <=? radius * radius)
       then fill_color else oled_read_pixel d px py.
Proof.
  intros Hok Hr Hcx Hcxr Hcy Hcyr Hpx Hpy. cbv zeta.
  destruct (filled_circle_related record_pixel oled_draw_pixel (replays d)
              (replays_draw d) [] d center_x center_y radius fill_color
              (replays_nil d)) as [-> Hbytes].
  rewrite filled_circle_record, app_nil_l in *.
  split; [now apply replay_ok|].
  rewrite (read_replay_colour fill_color); try assumption.
  2:{ apply Forall_forall. intros p Hp.
      apply elem_of_filled_circle_calls in Hp as (x & y & _ & _ & _ & ->). reflexivity. }
  apply (f_equal (fun b : bool => if b then fill_color else oled_read_pixel d px py)).
  apply bool_decide_is. rewrite elem_of_plotted, elem_of_filled_circle_calls.
  rewrite andb_true_iff, Z.leb_le. split.
  - intros [(x & y & Hx & Hy & Hin & [= -> ->]) Hon].
    split; [exact Hon|].
    rewrite (u8_small (center_x + x)), (u8_small (center_y + y)) by lia.
    replace (center_x + x - center_x) with x by lia.
    replace (center_y + y - center_y) with y by lia. exact Hin.
  - intros [Hon Hin]. split; [|exact Hon].
    exists (px - center_x), (py - center_y).
    assert (- radius <= px - center_x <= radius)
      by (eapply square_sum_bound; [exact Hr|exact Hin]).
    assert (- radius <= py - center_y <= radius)
      by (eapply square_sum_bound; [exact Hr|rewrite Z.add_comm; exact Hin]).
    rewrite !u8_small by lia.
    repeat split; try lia. do 2 f_equal; lia.
Qed.

Lemma filled_circle_pixels_witness :
  let d' := oled_draw_filled_circle oled_draw_pixel blank_device 64 50 3 true in
  device_ok d'
  /\ oled_read_pixel d' 66 52 =
       if on_screen 66 52
          && ((66 - 64) * (66 - 64) + (52 - 50) * (52 - 50) <=? 3 * 3)
       then true else oled_read_pixel blank_device 66 52.
Proof.
  apply (filled_circle_pixels blank_device 64 50 3 66 52 true);
    [vm_compute; reflexivity | lia..].
Defined.

(** The midpoint loop keeps [decision_param = (x+1)² + y² - y - r²], and
    every point it plots has [|x² + y² - r²| <= y]. *)
Lemma circle_loop_near_circle cx cy r c fuel :
  forall acc x y dp out,
    0 <= x -> y <= r ->
    dp = (x + 1) * (x + 1) + y * y - y - r * r ->
    (x <= y -> - y <= x * x + y * y - r * r <= y) ->
    circle_loop record_pixel fuel acc cx cy c x y dp = Some out ->
    exists new, out = acc ++ new /\ Forall (near_circle cx cy r) new.
Proof.
  induction fuel as [|fuel IH]; intros acc x y dp out Hx Hy Hdp Hband; simpl;
    [discriminate|].
  destruct (Z.leb_spec x y) as [Hxy|Hxy].
  - specialize (Hband Hxy).
    intros Hrun. unfold record_pixel in Hrun. rewrite <- !app_assoc in Hrun. simpl in Hrun.
    assert (exists new, out = (acc ++ [ (u8 (cx + x), u8 (cy + y), c); (u8 (cx + y), u8 (cy + x), c);
      (u8 (cx - x), u8 (cy + y), c); (u8 (cx - y), u8 (cy + x), c);
      (u8 (cx + x), u8 (cy - y), c); (u8 (cx + y), u8 (cy - x), c);
      (u8 (cx - x), u8 (cy - y), c); (u8 (cx - y), u8 (cy - x), c) ]) ++ new
      /\ Forall (near_circle cx cy r) new) as (new & -> & Hnear).
    { destruct (Z.ltb_spec dp 0); apply IH in Hrun; (exact Hrun || nia). }
    eexists. split; [symmetry; apply app_assoc|].
    apply Forall_app. split; [|exact Hnear].
    repeat apply Forall_cons_2; try apply Forall_nil_2.
    + exists x, y. split; [nia|reflexivity].
    + exists y, x. split; [nia|reflexivity].
    + exists (- x), y. split; [nia|reflexivity].
    + exists (- y), x. split; [nia|reflexivity].
    + exists x, (- y). split; [nia|reflexivity].
    + exists y, (- x). split; [nia|reflexivity].
    + exists (- x), (- y). split; [nia|reflexivity].
    + exists (- y), (- x). split; [nia|reflexivity].
  - intros [= <-]. exists []. split; [now rewrite app_nil_r|constructor].
Qed.

Lemma near_circle_offset_bound (a b r : Z) :
  0 <= r -> Z.abs (a * a + b * b - r * r) <= r -> - r <= a <= r.
Proof.
  intros Hr Habs. assert (0 <= b * b) by apply Z.square_nonneg.
  split.
  - destruct (Z.le_gt_cases (- r) a); [assumption|].
    assert ((r + 1) * (r + 1) <= a * a) by nia. lia.
  - destruct (Z.le_gt_cases a r); [assumption|].
    assert ((r + 1) * (r + 1) <= a * a) by nia. lia.
Qed.

(** The outline of a circle whose bounding square stays within the byte
    range stays on the circle: every pixel it turns on has
    [|dx² + dy² - radius²| <= radius] for its offsets from the centre; and
    the four points at distance [radius] along the axes are turned on when
    they are on the screen. *)
Theorem circle_outline_on_circle (cx cy r : Z) :
  0 <= r -> r <= cx -> cx + r <= 255 -> r <= cy -> cy + r <= 255 ->
  (forall px py,
     (px, py) ∈ circle_lit cx cy r ->
     Z.abs ((px - cx) * (px - cx) + (py - cy) * (py - cy) - r * r) <= r)
  /\ (on_screen (cx + r) cy = true -> (cx + r, cy) ∈ circle_lit cx cy r)
  /\ (on_screen (cx - r) cy = true -> (cx - r, cy) ∈ circle_lit cx cy r)
  /\ (on_screen cx (cy + r) = true -> (cx, cy + r) ∈ circle_lit cx cy r)
  /\ (on_screen cx (cy - r) = true -> (cx, cy - r) ∈ circle_lit cx cy r).
Proof.
  intros Hr Hcx Hcxr Hcy Hcyr.
  destruct (circle_outline_calls cx cy r) as (calls & Hcalls & -> & _ & _).
  unfold oled_draw_circle_outline in Hcalls. split.
  - intros px py Hin. apply elem_of_plotted in Hin as [Hin _].
    apply circle_loop_near_circle with (r := r) in Hcalls as (new & -> & Hnear);
      [|lia..].
    rewrite app_nil_l in Hin. rewrite Forall_forall in Hnear.
    destruct (Hnear _ Hin) as (a & b & Habs & [= -> ->]).
    pose proof (near_circle_offset_bound a b r Hr Habs).
    assert (Z.abs (b * b + a * a - r * r) <= r) as Habs' by (rewrite Z.add_comm; exact Habs).
    pose proof (near_circle_offset_bound b a r Hr Habs').
    rewrite !u8_small by lia.
    replace (cx + a - cx) with a by lia. replace (cy + b - cy) with b by lia.
    exact Habs.
  - replace (Z.to_nat r + 2)%nat with (S (Z.to_nat r + 1)) in Hcalls by lia.
    simpl in Hcalls. destruct (Z.leb_spec 0 r); [|lia].
    unfold record_pixel in Hcalls. rewrite <- !app_assoc in Hcalls. simpl in Hcalls.
    assert (exists new, calls =
      [ (u8 (cx + 0), u8 (cy + r), true); (u8 (cx + r), u8 (cy + 0), true);
        (u8 (cx - 0), u8 (cy + r), true); (u8 (cx - r), u8 (cy + 0), true);
        (u8 (cx + 0), u8 (cy - r), true); (u8 (cx + r), u8 (cy - 0), true);
        (u8 (cx - 0), u8 (cy - r), true); (u8 (cx - r), u8 (cy - 0), true) ] ++ new)
      as (new & ->).
    { destruct (1 - r <? 0); apply circle_loop_record in Hcalls as (new & -> & _);
        eauto. }
    rewrite !Z.add_0_r, !Z.sub_0_r, !u8_small by lia.
    repeat split; intros Hon; apply elem_of_plotted; (split; [|exact Hon]);
      apply elem_of_app; left.
    + apply list_elem_of_further, list_elem_of_here.
    + do 3 apply list_elem_of_further. apply list_elem_of_here.
    + apply list_elem_of_here.
    + do 4 apply list_elem_of_further. apply list_elem_of_here.
Qed.

Lemma circle_outline_on_circle_witness :
  (forall px py,
     (px, py) ∈ circle_lit 64 30 25 ->
     Z.abs ((px - 64) * (px - 64) + (py - 30) * (py - 30) - 25 * 25) <= 25)
  /\ (on_screen (64 + 25) 30 = true -> (64 + 25, 30) ∈ circle_lit 64 30 25)
  /\ (on_screen (64 - 25) 30 = true -> (64 - 25, 30) ∈ circle_lit 64 30 25)
  /\ (on_screen 64 (30 + 25) = true -> (64, 30 + 25) ∈ circle_lit 64 30 25)
  /\ (on_screen 64 (30 - 25) = true -> (64, 30 - 25) ∈ circle_lit 64 30 25).
Proof. apply (circle_outline_on_circle 64 30 25); lia. Defined.

(** ** Characters and text *)

Lemma printable_range ch :
  (ch <? 32) || (ch >? 126) = negb (printable ch).
Proof.
  unfold printable. rewrite Z.gtb_ltb, Z.geb_leb.
  destruct (Z.ltb_spec ch 32), (Z.leb_spec 32 ch), (Z.ltb_spec 126 ch),
    (Z.leb_spec ch 126); try lia; reflexivity.
Qed.

Lemma render_character_record font acc x y ch :
  oled_render_character record_pixel font acc x y ch
  = acc ++ character_calls font x y ch.
Proof.
  unfold oled_render_character, character_calls.
  destruct (_ || _); [now rewrite app_nil_r|].
  apply foldl_record. intros s column.
  rewrite (foldl_record _ (fun bit => [(u8 (x + column), u8 (y + bit),
             negb (Z.land (Z.shiftr (font (ch - 32) column) bit) 0x01 =? 0))])
             (seqZ 0 8) (fun _ _ => eq_refl)).
  f_equal.
Qed.

Lemma elem_of_character_calls font x y ch (p : plot) :
  p ∈ character_calls font x y ch <->
  printable ch = true
  /\ exists column bit, 0 <= column < 6 /\ 0 <= bit < 8
       /\ p = (u8 (x + column), u8 (y + bit), Z.testbit (font (ch - 32) column) bit).
Proof.
  unfold character_calls. rewrite printable_range.
  destruct (printable ch); cbn [negb].
  - rewrite list_elem_of_bind. split.
    + intros (column & Hp & Hcolumn). apply list_elem_of_fmap in Hp as (bit & -> & Hbit).
      apply elem_of_seqZ in Hcolumn, Hbit. split; [reflexivity|].
      exists column, bit. rewrite glyph_bit_test by lia. repeat split; lia.
    + intros (_ & column & bit & Hcolumn & Hbit & ->). exists column.
      split; [|apply elem_of_seqZ; lia].
      apply list_elem_of_fmap. exists bit. rewrite glyph_bit_test by lia.
      split; [reflexivity|apply elem_of_seqZ; lia].
  - split; [intros Hin; now apply elem_of_nil in Hin|intros [? _]; discriminate].
Qed.

(** Which offset from a base coordinate a [uint8_t] call coordinate
    stands for. *)
Lemma u8_offset (base k v : Z) :
  0 <= k < 256 -> 0 <= v < 256 ->
  u8 (base + k) = v <-> (v - base) mod 256 = k.
Proof. unfold u8. intros Hk Hv. split; intros H; Z.div_mod_to_equations; lia. Qed.

(** [oled_render_character] blits the whole 6 by 8 cell, for every
    [uint8_t] position: the cell is columns [char_x] to [char_x + 5] and
    rows [char_y] to [char_y + 7], taken modulo 256 as the coordinate of
    each call is converted to [uint8_t] (so a cell at [char_x = 252] has
    its last two columns on columns 0 and 1 of the screen).  Inside the
    cell a pixel of the screen shows its glyph bit, on or off, whatever
    was there; outside the cell nothing changes; a character outside
    32..126 changes nothing at all. *)
Theorem render_character_pixels (font : Z -> Z -> Z) (d : oled_device_t)
    (char_x char_y ascii_char px py : Z) :
  device_ok d ->
  0 <= char_x < 256 -> 0 <= char_y < 256 -> 0 <= px -> 0 <= py ->
  let d' := oled_render_character oled_draw_pixel font d char_x char_y ascii_char in
  let column := (px - char_x) mod 256 in
  let bit := (py - char_y) mod 256 in
  device_ok d'
  /\ oled_read_pixel d' px py =
       if on_screen px py && printable ascii_char && (column <? 6) && (bit <? 8)
       then Z.testbit (font (ascii_char - 32) column) bit
       else oled_read_pixel d px py.
Proof.
  intros Hok Hx Hy Hpx Hpy. cbv zeta.
  destruct (render_character_related record_pixel oled_draw_pixel (replays d)
              (replays_draw d) font [] d char_x char_y ascii_char (replays_nil d))
    as [-> Hbytes].
  rewrite render_character_record, app_nil_l in *.
  split; [now apply replay_ok|].
  destruct (on_screen px py) eqn:Hon; cbn [andb].
  2:{ rewrite !oled_read_pixel_bit, Hon by assumption. reflexivity. }
  pose proof (proj1 (on_screen_bounds px py) Hon) as [Hxw Hyh].
  unfold OLED_SCREEN_WIDTH, OLED_SCREEN_HEIGHT in Hxw, Hyh.
  set (column := (px - char_x) mod 256). set (bit := (py - char_y) mod 256).
  assert (forall column' bit',
            0 <= column' < 6 -> 0 <= bit' < 8 ->
            (px, py) = (u8 (char_x + column'), u8 (char_y + bit')) ->
            column' = column /\ bit' = bit) as Hcell.
  { intros column' bit' Hcolumn Hbit [= Ex Ey]. symmetry in Ex, Ey.
    apply u8_offset in Ex, Ey; [|lia..]. subst column bit. auto. }
  rewrite (read_replay_agree _ d px py (Z.testbit (font (ascii_char - 32) column) bit));
    try assumption.
  2:{ intros c Hc. apply elem_of_character_calls in Hc
        as (_ & column' & bit' & Hcolumn & Hbit & [= Ex Ey ->]).
      destruct (Hcell column' bit' Hcolumn Hbit) as [-> ->]; [congruence|reflexivity]. }
  match goal with |- (if ?b then _ else _) = (if ?b' then _ else _) =>
    assert (b = b') as ->; [|reflexivity] end.
  apply bool_decide_is. rewrite elem_of_plotted, elem_of_character_calls.
  rewrite !andb_true_iff, !Z.ltb_lt. split.
  - intros [(Hpr & column' & bit' & Hcolumn & Hbit & [= Ex Ey _]) _].
    destruct (Hcell column' bit' Hcolumn Hbit) as [<- <-]; [congruence|].
    repeat split; (assumption || lia).
  - intros [[Hpr Hcolumn] Hbit]. split; [|exact Hon].
    split; [exact Hpr|]. exists column, bit.
    assert (0 <= column < 256 /\ 0 <= bit < 256) as [Hc Hb]
      by (subst column bit; split; apply Z.mod_pos_bound; lia).
    repeat split; try lia.
    assert (u8 (char_x + column) = px) as -> by (apply u8_offset; [lia..|reflexivity]).
    assert (u8 (char_y + bit) = py) as -> by (apply u8_offset; [lia..|reflexivity]).
    reflexivity.
Qed.

Lemma render_character_pixels_witness :
  let font := fun glyph column : Z => (glyph + 3 * column) mod 256 in
  let d' := oled_render_character oled_draw_pixel font
              (oled_fill_screen blank_device 0xFF) 252 11 33 in
  let column := (1 - 252) mod 256 in
  let bit := (12 - 11) mod 256 in
  device_ok d'
  /\ oled_read_pixel d' 1 12 =
       if on_screen 1 12 && printable 33 && (column <? 6) && (bit <? 8)
       then Z.testbit (font (33 - 32) column) bit
       else oled_read_pixel (oled_fill_screen blank_device 0xFF) 1 12.
Proof.
  apply (render_character_pixels (fun glyph column : Z => (glyph + 3 * column) mod 256)
           (oled_fill_screen blank_device 0xFF) 252 11 33 1 12);
    [vm_compute; reflexivity | lia..].
Defined.

Lemma nul_free_Forall text :
  nul_free text <-> Forall (fun ch => ch <> 0) text.
Proof.
  unfold nul_free. rewrite forallb_forall, Forall_forall.
  split; intros H ch Hin.
  - apply list_elem_of_In, H in Hin. apply negb_true_iff, Z.eqb_neq in Hin. exact Hin.
  - apply list_elem_of_In, H in Hin. now apply negb_true_iff, Z.eqb_neq.
Qed.

(** The calls of the text loop on a text without NUL: character [i] is
    drawn at cursor [cursor + 7 * i] while that cursor is left of the
    right edge; characters outside 32..126 draw nothing, and the cursor
    advances all the same. *)
Lemma render_text_loop_calls font ty text :
  forall acc cursor,
    Forall (fun ch => ch <> 0) text -> 0 <= cursor < 256 ->
    exists new,
      render_text_loop record_pixel font acc ty cursor text = acc ++ new
      /\ forall p : plot,
           p ∈ new <->
           exists (i : nat) ch column bit,
             text !! i = Some ch /\ printable ch = true
             /\ cursor + 7 * Z.of_nat i < OLED_SCREEN_WIDTH
             /\ 0 <= column < 6 /\ 0 <= bit < 8
             /\ p = (u8 (cursor + 7 * Z.of_nat i + column), u8 (ty + bit),
                     Z.testbit (font (ch - 32) column) bit).
Proof.
  unfold OLED_SCREEN_WIDTH.
  induction text as [|ch rest IH]; intros acc cursor Hnul Hcur; simpl.
  - exists []. split; [now rewrite app_nil_r|]. intros p. split.
    + intros Hin. now apply elem_of_nil in Hin.
    + intros (i & ch & _ & _ & Hget & _). discriminate.
  - apply Forall_cons in Hnul as [Hch Hnul].
    assert (negb (ch =? 0) = true) as -> by (apply negb_true_iff, Z.eqb_neq; lia).
    unfold OLED_SCREEN_WIDTH. simpl andb.
    destruct (Z.ltb_spec cursor 128) as [Hlt|Hge].
    + rewrite render_character_record, u8_small by lia.
      destruct (IH (acc ++ character_calls font cursor ty ch) (cursor + 7) Hnul)
        as (new & -> & Hnew); [lia|].
      exists (character_calls font cursor ty ch ++ new).
      split; [now rewrite app_assoc|]. intros p.
      rewrite elem_of_app, elem_of_character_calls, Hnew. split.
      * intros [(Hpr & column & bit & Hcolumn & Hbit & ->)
               |(i & ch' & column & bit & Hget & Hpr & Hi & Hcolumn & Hbit & ->)].
        -- exists 0%nat, ch, column, bit. simpl. rewrite Z.add_0_r.
           repeat split; (lia || assumption).
        -- exists (S i), ch', column, bit. simpl lookup.
           replace (cursor + 7 * Z.of_nat (S i)) with (cursor + 7 + 7 * Z.of_nat i) by lia.
           repeat split; (lia || assumption).
      * intros (i & ch' & column & bit & Hget & Hpr & Hi & Hcolumn & Hbit & ->).
        destruct i as [|i].
        -- left. simpl in Hget. injection Hget as ->. split; [exact Hpr|].
           exists column, bit.
           simpl. rewrite Z.add_0_r. repeat split; (lia || assumption).
        -- right. exists i, ch', column, bit. simpl in Hget.
           replace (cursor + 7 + 7 * Z.of_nat i) with (cursor + 7 * Z.of_nat (S i)) by lia.
           repeat split; (lia || assumption).
    + exists []. split; [now rewrite app_nil_r|]. intros p. split.
      * intros Hin. now apply elem_of_nil in Hin.
      * intros (i & ch' & column & bit & _ & _ & Hi & _). lia.
Qed.

(** [text_pixel] names the write, if any, that the text makes to a pixel. *)
Lemma text_pixel_write font tx ty text px py (c : bool) :
  0 <= tx < 256 -> 0 <= ty < 256 -> 0 <= py < 256 ->
  (exists (i : nat) ch column bit,
     text !! i = Some ch /\ printable ch = true
     /\ tx + 7 * Z.of_nat i < OLED_SCREEN_WIDTH
     /\ 0 <= column < 6 /\ 0 <= bit < 8
     /\ (px, py, c) = (u8 (tx + 7 * Z.of_nat i + column), u8 (ty + bit),
                       Z.testbit (font (ch - 32) column) bit))
  <-> text_pixel font tx ty text px py = Some c.
Proof.
  unfold OLED_SCREEN_WIDTH. intros Htx Hty Hpy. unfold text_pixel, OLED_SCREEN_WIDTH.
  cbv zeta. split.
  - intros (i & ch & column & bit & Hget & Hpr & Hi & Hcolumn & Hbit & [= Ex Ey ->]).
    rewrite u8_small in Ex by lia. subst px. symmetry in Ey.
    apply u8_offset in Ey; [|lia..]. rewrite Ey.
    replace (tx + 7 * Z.of_nat i + column - tx) with (column + Z.of_nat i * 7) by lia.
    rewrite Z.div_add, Z.mod_add, Z.div_small, Z.mod_small by lia.
    rewrite Z.add_0_l, Nat2Z.id, Hget, Hpr.
    destruct (Z.leb_spec tx (tx + 7 * Z.of_nat i + column)); [|lia].
    destruct (Z.ltb_spec bit 8); [|lia].
    destruct (Z.ltb_spec column 6); [|lia].
    destruct (Z.ltb_spec (tx + 7 * Z.of_nat i) 128); [|lia].
    reflexivity.
  - destruct (Z.leb_spec tx px); [|discriminate].
    destruct (Z.ltb_spec ((py - ty) mod 256) 8); [|discriminate]. cbn [andb].
    destruct (Z.ltb_spec ((px - tx) mod 7) 6); [|discriminate].
    destruct (Z.ltb_spec (tx + 7 * ((px - tx) / 7)) 128); [|discriminate]. cbn [andb].
    destruct (text !! Z.to_nat ((px - tx) / 7)) as [ch|] eqn:Hget; [|discriminate].
    destruct (printable ch) eqn:Hpr; [|discriminate].
    intros [= <-].
    assert (0 <= (px - tx) / 7) by (apply Z.div_pos; lia).
    assert (0 <= (px - tx) mod 7 < 7) by (apply Z.mod_pos_bound; lia).
    assert (0 <= (py - ty) mod 256 < 256) by (apply Z.mod_pos_bound; lia).
    pose proof (Z.div_mod (px - tx) 7 ltac:(lia)) as Hdm.
    exists (Z.to_nat ((px - tx) / 7)), ch, ((px - tx) mod 7), ((py - ty) mod 256).
    rewrite Z2Nat.id by lia. rewrite u8_small by lia.
    repeat split; try (assumption || lia).
    assert (u8 (ty + (py - ty) mod 256) = py) as ->
      by (apply u8_offset; [lia..|reflexivity]).
    f_equal. f_equal. lia.
Qed.

(** [oled_render_text_string] on a text without NUL, for every [uint8_t]
    position: character [i] is drawn at cursor [text_x + 7 * i] while
    that cursor is left of the right edge; its cell is the six columns
    from the cursor and the rows [text_y] to [text_y + 7], taken modulo
    256 (so a text at [text_y = 250] has its last two rows on rows 0 and 1
    of the screen).  A pixel of the screen inside the cell of a printable
    character shows its glyph bit, on or off; every other pixel (the
    column between two cells, the cell of an unprintable character, the
    cells of the characters past the right edge, the rest of the screen)
    is left as it was. *)
Theorem render_text_string_pixels (font : Z -> Z -> Z) (d : oled_device_t)
    (text_x text_y : Z) (text : list Z) (px py : Z) :
  device_ok d -> nul_free text ->
  0 <= text_x < 256 -> 0 <= text_y < 256 ->
  0 <= px -> 0 <= py ->
  let d' := oled_render_text_string oled_draw_pixel font d text_x text_y text in
  device_ok d'
  /\ oled_read_pixel d' px py =
       match text_pixel font text_x text_y text px py with
       | Some v => on_screen px py && v
       | None => oled_read_pixel d px py
       end.
Proof.
  intros Hok Hnul Htx Hty Hpx Hpy. cbv zeta. apply nul_free_Forall in Hnul.
  unfold oled_render_text_string.
  destruct (render_text_loop_related record_pixel oled_draw_pixel (replays d)
              (replays_draw d) font text [] d text_y text_x (replays_nil d))
    as [-> Hbytes].
  destruct (render_text_loop_calls font text_y text [] text_x Hnul Htx)
    as (calls & Hrun & Hcalls).
  rewrite Hrun, app_nil_l in *.
  split; [now apply replay_ok|].
  destruct (on_screen px py) eqn:Hon.
  2:{ rewrite !oled_read_pixel_bit, Hon by assumption.
      now destruct (text_pixel font text_x text_y text px py). }
  pose proof (proj1 (on_screen_bounds px py) Hon) as [Hxw Hyh].
  unfold OLED_SCREEN_WIDTH, OLED_SCREEN_HEIGHT in Hxw, Hyh.
  assert (forall c, (px, py, c) ∈ calls <-> text_pixel font text_x text_y text px py = Some c)
    as Hwrite.
  { intros c. rewrite Hcalls. apply text_pixel_write; lia. }
  destruct (text_pixel font text_x text_y text px py) as [v|].
  - rewrite (read_replay_agree _ d px py v); try assumption.
    2:{ intros c Hc. apply Hwrite in Hc. congruence. }
    rewrite bool_decide_eq_true_2; [reflexivity|].
    apply elem_of_plotted. split; [now apply Hwrite|exact Hon].
  - rewrite (read_replay_agree _ d px py false); try assumption.
    2:{ intros c Hc. apply Hwrite in Hc. discriminate. }
    rewrite bool_decide_eq_false_2; [reflexivity|].
    rewrite elem_of_plotted. intros [Hin _]. apply Hwrite in Hin. discriminate.
Qed.

Lemma render_text_string_pixels_witness :
  let font := fun glyph column : Z => (glyph + 3 * column) mod 256 in
  let d := oled_fill_screen blank_device 0xFF in
  let text := [83; 9; 77] in
  let d' := oled_render_text_string oled_draw_pixel font d 20 250 text in
  device_ok d'
  /\ oled_read_pixel d' 21 0 =
       match text_pixel font 20 250 text 21 0 with
       | Some v => on_screen 21 0 && v
       | None => oled_read_pixel d 21 0
       end.
Proof.
  apply (render_text_string_pixels (fun glyph column : Z => (glyph + 3 * column) mod 256)
           (oled_fill_screen blank_device 0xFF) 20 250 [83; 9; 77] 21 0);
    [vm_compute; reflexivity | reflexivity | lia..].
Defined.

(** ** Highlighted text, any length *)

(** [oled_render_highlighted_text] on a renderable text of any length,
    for every [uint8_t] position.  It first paints a box 10 rows high and
    [((7 * length) mod 256 + 1) mod 256] columns wide (that is
    [text_width + 1] up to 36 characters), whose cells are at columns
    [text_x - 1 + col] and rows [text_y - 1 + row], each taken modulo 256;
    then it only clears: glyph [i] is cleared at cursor [text_x + 7 * i]
    while that cursor is left of the right edge, and exactly where its
    bits are on.  Afterwards a pixel reads off where a glyph bit was
    cleared, on elsewhere in the painted box, and as before outside it. *)
Theorem highlighted_text_pixels (font : Z -> Z -> Z) (d : oled_device_t)
    (text_x text_y : Z) (text : list Z) :
  device_ok d -> 0 <= text_x < 256 -> 0 <= text_y < 256 ->
  renderable text ->
  let width := oled_calculate_text_width text in
  let box_width := ((7 * Z.of_nat (length text)) mod 256 + 1) mod 256 in
  let box := oled_draw_filled_rectangle record_pixel []
               (u8 (text_x - 1)) (u8 (text_y - 1)) box_width 10 true in
  exists glyphs,
    oled_render_highlighted_text record_pixel font [] text_x text_y text
      = box ++ glyphs
    /\ width = (7 * Z.of_nat (length text)) mod 65536
    /\ (Z.of_nat (length text) <= 36 -> box_width = width + 1)
    /\ (forall p : plot,
          p ∈ box <->
          exists col row, 0 <= col < box_width /\ 0 <= row < 10
            /\ p = (u8 (u8 (text_x - 1) + col), u8 (u8 (text_y - 1) + row), true))
    /\ (forall p : plot,
          p ∈ glyphs <->
          exists (i : nat) ch column bit,
            text !! i = Some ch /\ text_x + 7 * Z.of_nat i < OLED_SCREEN_WIDTH
            /\ 0 <= column < 6 /\ 0 <= bit < 8
            /\ Z.testbit (font (ch - 32) column) bit = true
            /\ p = (u8 (text_x + 7 * Z.of_nat i + column), u8 (text_y + bit), false))
    /\ (forall px py, 0 <= px -> 0 <= py ->
          oled_read_pixel
            (oled_render_highlighted_text oled_draw_pixel font d text_x text_y text)
            px py =
            if bool_decide ((px, py) ∈ plotted false glyphs) then false
            else if bool_decide ((px, py) ∈ plotted true box) then true
            else oled_read_pixel d px py).
Proof.
  intros Hok Hx Hy Hren. cbv zeta. apply renderable_Forall in Hren.
  assert (oled_calculate_text_width text = (7 * Z.of_nat (length text)) mod 65536)
    as Hwidth.
  { unfold oled_calculate_text_width, u16, u32.
    rewrite strlen_renderable by exact Hren.
    rewrite Z.mod_mod_divide by (exists 65536; reflexivity). f_equal. lia. }
  assert (u8 (u8 (oled_calculate_text_width text) + 1)
          = ((7 * Z.of_nat (length text)) mod 256 + 1) mod 256) as Hbox.
  { rewrite Hwidth. unfold u8.
    now rewrite Z.mod_mod_divide by (exists 256; reflexivity). }
  destruct (highlighted_text_calls font text_x text_y text Hx Hren)
    as (glyphs & Hcalls & Hglyphs).
  rewrite Hbox in Hcalls. rewrite filled_rectangle_calls, app_nil_l.
  exists glyphs. split; [exact Hcalls|]. split; [exact Hwidth|]. split.
  { intros Hlen. rewrite Hwidth. rewrite !Z.mod_small by (rewrite ?Z.mod_small; lia).
    reflexivity. }
  split; [intros p; apply elem_of_rectangle_calls|]. split; [exact Hglyphs|].
  intros px py Hpx Hpy.
  apply (highlighted_text_read font d text_x text_y text _ glyphs px py Hok Hcalls);
    [| |assumption..].
  - apply Forall_forall. intros p Hp.
    apply elem_of_rectangle_calls in Hp as (col & row & _ & _ & ->). reflexivity.
  - apply Forall_forall. intros p Hp.
    apply Hglyphs in Hp as (i & ch & column & bit & _ & _ & _ & _ & _ & ->). reflexivity.
Qed.

Lemma highlighted_text_pixels_witness :
  let font := fun glyph column : Z => (glyph + column) mod 256 in
  let d := blank_device in
  let text_x := 20 in
  let text_y := 6 in
  let text := [83; 79; 77] in
  let width := oled_calculate_text_width text in
  let box_width := ((7 * Z.of_nat (length text)) mod 256 + 1) mod 256 in
  let box := oled_draw_filled_rectangle record_pixel []
               (u8 (text_x - 1)) (u8 (text_y - 1)) box_width 10 true in
  exists glyphs,
    oled_render_highlighted_text record_pixel font [] text_x text_y text
      = box ++ glyphs
    /\ width = (7 * Z.of_nat (length text)) mod 65536
    /\ (Z.of_nat (length text) <= 36 -> box_width = width + 1)
    /\ (forall p : plot,
          p ∈ box <->
          exists col row, 0 <= col < box_width /\ 0 <= row < 10
            /\ p = (u8 (u8 (text_x - 1) + col), u8 (u8 (text_y - 1) + row), true))
    /\ (forall p : plot,
          p ∈ glyphs <->
          exists (i : nat) ch column bit,
            text !! i = Some ch /\ text_x + 7 * Z.of_nat i < OLED_SCREEN_WIDTH
            /\ 0 <= column < 6 /\ 0 <= bit < 8
            /\ Z.testbit (font (ch - 32) column) bit = true
            /\ p = (u8 (text_x + 7 * Z.of_nat i + column), u8 (text_y + bit), false))
    /\ (forall px py, 0 <= px -> 0 <= py ->
          oled_read_pixel
            (oled_render_highlighted_text oled_draw_pixel font d text_x text_y text)
            px py =
            if bool_decide ((px, py) ∈ plotted false glyphs) then false
            else if bool_decide ((px, py) ∈ plotted true box) then true
            else oled_read_pixel d px py).
Proof.
  apply (highlighted_text_pixels (fun glyph column : Z => (glyph + column) mod 256)
           blank_device 20 6 [83; 79; 77]).
  - vm_compute. reflexivity.
  - lia.
  - lia.
  - reflexivity.
Defined.

(** ** Text width *)

Lemma strlen_nul_free (prefix rest : list Z) :
  Forall (fun ch => ch <> 0) prefix ->
  strlen (prefix ++ 0 :: rest) = Z.of_nat (length prefix)
  /\ strlen prefix = Z.of_nat (length prefix).
Proof.
  induction 1 as [|ch l Hch _ [IH1 IH2]]; [split; reflexivity|].
  simpl strlen. destruct (Z.eqb_spec ch 0); [contradiction|].
  rewrite IH1, IH2, length_cons. lia.
Qed.

(** The width of a text is seven pixels per character before the first
    NUL, whatever follows the NUL, reduced modulo 65536 by the return
    type: a text of 9363 characters is reported 5 pixels wide. *)
Theorem text_width_wraps (prefix rest : list Z) :
  nul_free prefix ->
  oled_calculate_text_width (prefix ++ 0 :: rest) = oled_calculate_text_width prefix
  /\ oled_calculate_text_width prefix = (7 * Z.of_nat (length prefix)) mod 65536
  /\ (Z.of_nat (length prefix) = 9363 -> oled_calculate_text_width prefix = 5).
Proof.
  intros Hnul. apply nul_free_Forall in Hnul.
  destruct (strlen_nul_free prefix rest Hnul) as [H1 H2].
  unfold oled_calculate_text_width, u16, u32. rewrite H1, H2.
  assert ((Z.of_nat (length prefix) * 7) mod 4294967296 mod 65536
          = (7 * Z.of_nat (length prefix)) mod 65536) as ->.
  { rewrite Z.mod_mod_divide by (exists 65536; reflexivity). f_equal. lia. }
  split; [reflexivity|]. split; [reflexivity|].
  intros Hlen. rewrite Hlen. reflexivity.
Qed.

Lemma text_width_wraps_witness :
  oled_calculate_text_width ([79; 75] ++ 0 :: [33]) = oled_calculate_text_width [79; 75]
  /\ oled_calculate_text_width [79; 75] = (7 * Z.of_nat (length [79; 75])) mod 65536
  /\ (Z.of_nat (length [79; 75]) = 9363 -> oled_calculate_text_width [79; 75] = 5).
Proof. apply (text_width_wraps [79; 75] [33]). reflexivity. Defined.

(** ** Command sequences, initialisation and controller commands *)

(** A command array goes to the bus as one frame per command, in the
    order of the array; each frame is addressed to the device's bus and
    address and holds the command control byte followed by that command.
    This is so whatever the bus answers; the device record, the allocator
    and the clock are left alone.  A single [transmit_command] returns
    true exactly when the bus reports two bytes written. *)
Theorem command_sequence_frames (P : platform) (command_array : list Z) (m : machine) :
  let m' := (transmit_command_sequence P command_array m).2 in
  let frame command :=
    mk_frame (i2c_interface (dev m)) (device_address (dev m))
             [OLED_CMD_CONTROL_BYTE; command] in
  bus m' = bus m ++ (frame <$> command_array)
  /\ dev m' = dev m /\ mallocs m' = mallocs m /\ slept_ms m' = slept_ms m
  /\ forall command,
       (transmit_command P command m).1
       = (i2c_write_blocking P (bus m) (frame command) =? 2)
       /\ bus (transmit_command P command m).2 = bus m ++ [frame command].
Proof.
  cbv zeta. rewrite transmit_command_sequence_run. cbn [snd dev bus mallocs slept_ms].
  repeat split.
Qed.

(** Initialisation is a full reset, whatever the machine held before and
    whatever the bus answers: the record is overwritten field by field,
    the framebuffer is well formed and every pixel reads off, the 25
    start-up commands go to the new address, the contrast stored is the
    one commanded, and nothing is allocated or slept. *)
Theorem initialize_display_resets (P : platform) (i2c_bus address : Z) (m : machine) :
  let m' := (oled_initialize_display P i2c_bus address m).2 in
  dev m' = mk_device i2c_bus address OLED_SCREEN_WIDTH OLED_SCREEN_HEIGHT
                     (replicate 1024 0) true OLED_DEFAULT_BRIGHTNESS false
  /\ device_ok (dev m')
  /\ (forall x y, 0 <= x -> 0 <= y -> oled_read_pixel (dev m') x y = false)
  /\ bus m' = bus m ++ ((fun command => mk_frame i2c_bus address [OLED_CMD_CONTROL_BYTE; command])
                          <$> startup_sequence)
  /\ length startup_sequence = 25%nat
  /\ (exists before after,
        startup_sequence = before ++ [CMD_SET_BRIGHTNESS; contrast_level (dev m')] ++ after)
  /\ mallocs m' = mallocs m /\ slept_ms m' = slept_ms m.
Proof.
  cbv zeta. unfold oled_initialize_display, bind, get_device, put_device.
  rewrite transmit_command_sequence_run. unfold ret.
  cbn [snd dev bus mallocs slept_ms].
  set (d := mk_device i2c_bus address OLED_SCREEN_WIDTH OLED_SCREEN_HEIGHT
                      (video_memory (dev m)) true OLED_DEFAULT_BRIGHTNESS false).
  split; [reflexivity|]. split; [vm_compute; reflexivity|]. split.
  { intros x y Hx Hy. change (oled_clear_screen d) with (oled_fill_screen d 0).
    rewrite oled_read_pixel_bit by assumption.
    destruct (on_screen x y) eqn:Hon; [|reflexivity]. cbn [andb].
    rewrite fill_screen_bit by assumption. apply Z.bits_0. }
  split; [reflexivity|]. split; [reflexivity|]. split; [|split; reflexivity].
  exists (take 16 startup_sequence), (drop 18 startup_sequence). reflexivity.
Qed.

Lemma initialize_display_resets_witness :
  let m' := (oled_initialize_display dead_platform 1 0x3D
               (boot (oled_fill_screen blank_device 0xFF))).2 in
  dev m' = mk_device 1 0x3D OLED_SCREEN_WIDTH OLED_SCREEN_HEIGHT
                     (replicate 1024 0) true OLED_DEFAULT_BRIGHTNESS false
  /\ device_ok (dev m')
  /\ (forall x y, 0 <= x -> 0 <= y -> oled_read_pixel (dev m') x y = false)
  /\ bus m' = [] ++ ((fun command => mk_frame 1 0x3D [OLED_CMD_CONTROL_BYTE; command])
                       <$> startup_sequence)
  /\ length startup_sequence = 25%nat
  /\ (exists before after,
        startup_sequence = before ++ [CMD_SET_BRIGHTNESS; contrast_level (dev m')] ++ after)
  /\ mallocs m' = 0%nat /\ slept_ms m' = 0.
Proof.
  exact (initialize_display_resets dead_platform 1 0x3D
           (boot (oled_fill_screen blank_device 0xFF))).
Defined.

(** Power, inversion and rotation: the flag is stored whether or not the
    bus takes the command, exactly one frame per command byte goes to the
    device's address (one, one and two frames), rotation leaves the whole
    record as it was, and none of the three touches the framebuffer, the
    allocator or the clock. *)
Theorem control_commands_effect (P : platform) (flag other_flag : bool) (m : machine) :
  let power := (oled_set_power_mode P flag m).2 in
  let inversion := (oled_toggle_color_inversion P flag m).2 in
  let rotation := (oled_set_display_rotation P flag other_flag m).2 in
  (dev power = set_power_state (dev m) flag
   /\ bus power = bus m ++ [command_frame (dev m)
                              (if flag then CMD_DISPLAY_ACTIVATE else CMD_DISPLAY_DEACTIVATE)])
  /\ (dev inversion = set_inverted_colors (dev m) flag
      /\ bus inversion = bus m ++ [command_frame (dev m)
                                     (if flag then CMD_DISPLAY_INVERT else CMD_DISPLAY_NORMAL)])
  /\ (dev rotation = dev m
      /\ bus rotation = bus m ++ [command_frame (dev m)
                                    (if flag then CMD_SEGMENT_REMAP_FLIPPED
                                     else CMD_SEGMENT_REMAP_NORMAL);
                                  command_frame (dev m)
                                    (if other_flag then CMD_COM_SCAN_DESCENDING
                                     else CMD_COM_SCAN_ASCENDING)])
  /\ Forall (fun m' => video_memory (dev m') = video_memory (dev m)
                       /\ mallocs m' = mallocs m /\ slept_ms m' = slept_ms m)
            [power; inversion; rotation].
Proof.
  cbv zeta.
  unfold oled_set_power_mode, oled_toggle_color_inversion, oled_set_display_rotation,
    transmit_command, i2c_write, bind, get_device, put_device, ret.
  cbn [fst snd dev bus mallocs slept_ms].
  repeat split; try (now rewrite <- ?app_assoc).
  repeat constructor.
Qed.

(** ** Fades *)

Lemma fade_step_run (P : platform) (brightness delay : Z) (m : machine) :
  (oled_adjust_brightness P brightness ;; sleep_ms delay) m =
    (tt, mk_machine (set_contrast_level (dev m) brightness)
           (bus m ++ [command_frame (dev m) CMD_SET_BRIGHTNESS;
                      command_frame (dev m) brightness])
           (mallocs m) (slept_ms m + delay)).
Proof. unfold bind. rewrite oled_adjust_brightness_run. reflexivity. Qed.

(** A ramp of brightness steps: two frames and one sleep per step. *)
Lemma fade_ramp_run (P : platform) (level : Z -> Z) (delay : Z) (l : list Z) :
  forall m,
    for_each l (fun i => oled_adjust_brightness P (level i) ;; sleep_ms delay) m =
      (tt, mk_machine
             (foldl (fun d i => set_contrast_level d (level i)) (dev m) l)
             (bus m ++ (l ≫= fun i => [command_frame (dev m) CMD_SET_BRIGHTNESS;
                                        command_frame (dev m) (level i)]))
             (mallocs m) (slept_ms m + Z.of_nat (length l) * delay)).
Proof.
  induction l as [|i l IH]; intros m.
  - destruct m. simpl. rewrite app_nil_r. unfold ret. do 2 f_equal. lia.
  - rewrite for_each_cons.
    rewrite fade_step_run, IH.
    cbn [fst snd dev bus mallocs slept_ms foldl].
    f_equal. f_equal.
    + rewrite <- app_assoc. reflexivity.
    + rewrite length_cons. lia.
Qed.

Lemma oled_fade_effect_machine (P : platform) (fade_in : bool) (duration_ms : Z)
    (m : machine) :
  oled_fade_effect P fade_in duration_ms m =
    (tt, mk_machine
           (set_contrast_level (dev m) (if fade_in then 242 else 13))
           (bus m
            ++ (seqZ 0 20 ≫= fun i =>
                  [command_frame (dev m) CMD_SET_BRIGHTNESS;
                   command_frame (dev m)
                     (if fade_in then i * 255 / 20 else 255 - i * 255 / 20)])
            ++ (if fade_in
                then [command_frame (dev m) CMD_SET_BRIGHTNESS; command_frame (dev m) 242]
                else []))
           (mallocs m) (slept_ms m + 20 * (duration_ms / 20))).
Proof.
  unfold oled_fade_effect. cbv zeta. unfold bind at 1.
  rewrite (fade_ramp_run P
             (fun i => u8 (if fade_in then i * 255 / 20 else 255 - i * 255 / 20))
             (duration_ms / 20) (seqZ 0 20) m).
  change (Z.of_nat (length (seqZ 0 20))) with 20.
  destruct m as [d b a s]. cbn [dev bus mallocs slept_ms].
  destruct fade_in.
  - unfold bind, get_device. rewrite oled_adjust_brightness_run. cbv zeta.
    cbn [fst snd dev bus mallocs slept_ms]. rewrite <- app_assoc. reflexivity.
  - unfold ret. rewrite app_nil_r. reflexivity.
Qed.

(** A fade, in either direction and for every duration: twenty ramp steps
    of two frames each (a fade-in adds two more, repeating the last ramp
    level), the last ramp level left in the record (242 after a fade-in,
    13 after a fade-out; the ramp reaches neither 255 nor 0), nothing
    allocated, the framebuffer untouched, and [20 * (duration_ms / 20)]
    milliseconds slept, which falls short of the duration by less than
    20. *)
Theorem fade_effect_run (P : platform) (fade_in : bool) (duration_ms : Z) (m : machine) :
  let m' := (oled_fade_effect P fade_in duration_ms m).2 in
  let level i := if fade_in then i * 255 / 20 else 255 - i * 255 / 20 in
  let cmd := command_frame (dev m) in
  bus m' = bus m ++ (seqZ 0 20 ≫= fun i => [cmd CMD_SET_BRIGHTNESS; cmd (level i)])
                 ++ (if fade_in then [cmd CMD_SET_BRIGHTNESS; cmd 242] else [])
  /\ dev m' = set_contrast_level (dev m) (if fade_in then 242 else 13)
  /\ video_memory (dev m') = video_memory (dev m)
  /\ mallocs m' = mallocs m
  /\ slept_ms m' = slept_ms m + 20 * (duration_ms / 20)
  /\ (0 <= duration_ms -> duration_ms - 20 < slept_ms m' - slept_ms m <= duration_ms).
Proof.
  cbv zeta. rewrite oled_fade_effect_machine. cbn [snd dev bus mallocs slept_ms].
  repeat split; try reflexivity.
  - pose proof (Z.div_mod duration_ms 20 ltac:(lia)).
    pose proof (Z.mod_pos_bound duration_ms 20 ltac:(lia)). lia.
  - pose proof (Z.div_mod duration_ms 20 ltac:(lia)).
    pose proof (Z.mod_pos_bound duration_ms 20 ltac:(lia)). lia.
Qed.

Lemma fade_effect_run_witness :
  let P := dead_platform in
  let m := boot blank_device in
  let m' := (oled_fade_effect P false 510 m).2 in
  let level i := 255 - i * 255 / 20 in
  let cmd := command_frame (dev m) in
  bus m' = bus m ++ (seqZ 0 20 ≫= fun i => [cmd CMD_SET_BRIGHTNESS; cmd (level i)]) ++ []
  /\ dev m' = set_contrast_level (dev m) 13
  /\ video_memory (dev m') = video_memory (dev m)
  /\ mallocs m' = mallocs m
  /\ slept_ms m' = slept_ms m + 20 * (510 / 20)
  /\ (0 <= 510 -> 510 - 20 < slept_ms m' - slept_ms m <= 510).
Proof. exact (fade_effect_run dead_platform false 510 (boot blank_device)). Defined.

(** ** Scrolling by any distance *)

Lemma rotated_bounds (s k j : Z) : 0 <= j < 1024 -> 0 <= rotated s k j < 1024.
Proof.
  intros Hj. unfold rotated.
  assert (0 <= (j mod 128 + s * k) mod 128 < 128) by (apply Z.mod_pos_bound; lia).
  assert (0 <= j / 128 < 8) by (Z.div_mod_to_equations; lia).
  lia.
Qed.

Lemma rotated_pixel (s k x page : Z) :
  0 <= x < 128 ->
  rotated s k (x + page * 128) = (x + s * k) mod 128 + page * 128.
Proof.
  intros Hx. unfold rotated.
  rewrite Z.div_add, Z.mod_add by lia.
  rewrite (Z.div_small x), (Z.mod_small x) by lia. lia.
Qed.

Lemma rotated_back (s k j : Z) :
  0 <= j < 1024 -> rotated s k (rotated (- s) k j) = j.
Proof.
  intros Hj. unfold rotated at 2.
  assert (0 <= (j mod 128 + - s * k) mod 128 < 128) as Hc by (apply Z.mod_pos_bound; lia).
  rewrite (Z.add_comm (j / 128 * 128)), rotated_pixel by exact Hc.
  rewrite Z.add_mod_idemp_l by lia.
  replace (j mod 128 + - s * k + s * k) with (j mod 128) by lia.
  rewrite Z.mod_mod by lia. pose proof (Z.div_mod j 128 ltac:(lia)). lia.
Qed.

(** Where each byte of the framebuffer comes from after a scroll by
    [distance_pixels] steps. *)
Lemma scroll_bytes (P : platform) (scroll_left : bool) (speed_ms distance_pixels : Z)
    (m : machine) :
  length (video_memory (dev m)) = 1024%nat -> 0 <= distance_pixels ->
  let m' := (oled_horizontal_scroll P scroll_left speed_ms distance_pixels m).2 in
  length (video_memory (dev m')) = 1024%nat
  /\ forall j : nat, (j < 1024)%nat ->
       video_memory (dev m') !!! j
       = video_memory (dev m)
           !!! Z.to_nat (rotated (if scroll_left then 1 else -1) distance_pixels
                                 (Z.of_nat j)).
Proof.
  intros Hlen Hk. cbv zeta. unfold oled_horizontal_scroll.
  destruct (scroll_steps_lookup P scroll_left speed_ms (video_memory (dev m))
              (seqZ 0 distance_pixels) m 0 Hlen) as [Hl Hj].
  - intros j Hlt.
    destruct (rotated_whole_turn (if scroll_left then 1 else -1) (Z.of_nat j)) as [-> _];
      [lia|]. now rewrite Nat2Z.id.
  - split; [exact Hl|]. intros j Hlt. rewrite Hj by exact Hlt.
    rewrite length_seqZ. do 3 f_equal. lia.
Qed.

Lemma scroll_keeps_device_ok (P : platform) (scroll_left : bool)
    (speed_ms distance_pixels : Z) (m : machine) :
  device_ok (dev m) -> 0 <= distance_pixels ->
  device_ok (dev (oled_horizontal_scroll P scroll_left speed_ms distance_pixels m).2).
Proof.
  intros Hok Hk. pose proof (device_ok_length _ Hok) as Hlen.
  destruct (scroll_bytes P scroll_left speed_ms distance_pixels m Hlen Hk) as [Hl Hj].
  unfold device_ok, device_okb in *. apply andb_true_iff in Hok as [_ Hbytes].
  apply andb_true_iff. split.
  - rewrite Hl. reflexivity.
  - rewrite forallb_forall in *. intros b Hb.
    apply list_elem_of_In, list_elem_of_lookup in Hb as [j Hb].
    pose proof (lookup_lt_Some _ _ _ Hb) as Hlt. rewrite Hl in Hlt.
    apply list_lookup_total_correct in Hb. rewrite Hj in Hb by exact Hlt. subst b.
    apply Hbytes, list_elem_of_In, list_elem_of_lookup_total_2.
    pose proof (rotated_bounds (if scroll_left then 1 else -1) distance_pixels
                  (Z.of_nat j) ltac:(lia)). lia.
Qed.

(** A scroll by any distance, on any bus: the device stays well formed, and
    pixel [(x, y)] afterwards shows what the pixel [distance_pixels]
    columns to its right (scroll left) or to its left (scroll right)
    showed before, columns counted modulo the width; rows never mix. *)
Theorem scroll_moves_pixels (P : platform) (scroll_left : bool)
    (speed_ms distance_pixels : Z) (m : machine) (x y : Z) :
  device_ok (dev m) -> 0 <= distance_pixels ->
  0 <= x < OLED_SCREEN_WIDTH -> 0 <= y < OLED_SCREEN_HEIGHT ->
  let m' := (oled_horizontal_scroll P scroll_left speed_ms distance_pixels m).2 in
  device_ok (dev m')
  /\ oled_read_pixel (dev m') x y
     = oled_read_pixel (dev m)
         ((x + (if scroll_left then distance_pixels else - distance_pixels))
            mod OLED_SCREEN_WIDTH) y.
Proof.
  unfold OLED_SCREEN_WIDTH, OLED_SCREEN_HEIGHT.
  intros Hok Hk Hx Hy. cbv zeta.
  split; [now apply scroll_keeps_device_ok|].
  pose proof (device_ok_length _ Hok) as Hlen.
  destruct (scroll_bytes P scroll_left speed_ms distance_pixels m Hlen Hk) as [_ Hj].
  set (x' := (x + (if scroll_left then distance_pixels else - distance_pixels)) mod 128).
  assert (0 <= x' < 128) as Hx' by (apply Z.mod_pos_bound; lia).
  assert (0 <= y / 8 < 8) as Hp by (Z.div_mod_to_equations; lia).
  rewrite !oled_read_pixel_bit by lia.
  assert (on_screen x y = true /\ on_screen x' y = true) as [-> ->].
  { unfold on_screen, OLED_SCREEN_WIDTH, OLED_SCREEN_HEIGHT.
    split; apply negb_true_iff, orb_false_iff; rewrite !Z.geb_leb, !Z.leb_gt; lia. }
  cbn [andb]. unfold pixel_bit.
  specialize (Hj (Z.to_nat (x + y / 8 * 128)) ltac:(lia)).
  rewrite Hj, Z2Nat.id, rotated_pixel by lia.
  subst x'. destruct scroll_left;
    [rewrite Z.mul_1_l
    |replace (-1 * distance_pixels) with (- distance_pixels) by lia]; reflexivity.
Qed.

Lemma scroll_moves_pixels_witness :
  let m := boot (oled_draw_pixel blank_device 2 9 true) in
  let m' := (oled_horizontal_scroll dead_platform false 5 131 m).2 in
  device_ok (dev m')
  /\ oled_read_pixel (dev m') 5 9
     = oled_read_pixel (dev m) ((5 + - 131) mod OLED_SCREEN_WIDTH) 9.
Proof.
  apply (scroll_moves_pixels dead_platform false 5 131
           (boot (oled_draw_pixel blank_device 2 9 true)) 5 9);
    [vm_compute; reflexivity | lia | vm_compute; split; [discriminate | reflexivity]..].
Defined.

(** Scrolling left by some distance and then right by the same distance
    (or the other way round) gives back the framebuffer byte for byte,
    whatever the two buses answer and whatever the two speeds. *)
Theorem scroll_there_and_back (P Q : platform) (scroll_left : bool)
    (speed_there speed_back distance_pixels : Z) (m : machine) :
  device_ok (dev m) -> 0 <= distance_pixels ->
  let there := (oled_horizontal_scroll P scroll_left speed_there distance_pixels m).2 in
  let back := (oled_horizontal_scroll Q (negb scroll_left) speed_back distance_pixels
                 there).2 in
  video_memory (dev back) = video_memory (dev m).
Proof.
  intros Hok Hk. cbv zeta. pose proof (device_ok_length _ Hok) as Hlen.
  destruct (scroll_bytes P scroll_left speed_there distance_pixels m Hlen Hk)
    as [Hl1 Hj1].
  destruct (scroll_bytes Q (negb scroll_left) speed_back distance_pixels _ Hl1 Hk)
    as [Hl2 Hj2].
  apply (list_eq_same_length _ _ 1024%nat); [exact Hlen|exact Hl2|].
  intros j a b Hlt Ha Hb.
  apply list_lookup_total_correct in Ha, Hb. subst a b.
  rewrite Hj2 by exact Hlt.
  set (s := if scroll_left then 1 else -1).
  assert ((if negb scroll_left then 1 else -1) = - s) as -> by (subst s; now destruct scroll_left).
  pose proof (rotated_bounds (- s) distance_pixels (Z.of_nat j) ltac:(lia)) as Hb.
  rewrite (Hj1 (Z.to_nat (rotated (- s) distance_pixels (Z.of_nat j)))) by lia.
  fold s. rewrite Z2Nat.id by lia. rewrite rotated_back by lia. now rewrite Nat2Z.id.
Qed.

Lemma scroll_there_and_back_witness :
  let m := boot (oled_draw_pixel blank_device 2 9 true) in
  let there := (oled_horizontal_scroll good_platform true 5 3 m).2 in
  let back := (oled_horizontal_scroll dead_platform (negb true) 0 3 there).2 in
  video_memory (dev back) = video_memory (dev m).
Proof.
  apply (scroll_there_and_back good_platform dead_platform true 5 0 3
           (boot (oled_draw_pixel blank_device 2 9 true)));
    [vm_compute; reflexivity | lia].
Defined.

(** What one scroll step costs: one allocation request, the step's sleep,
    and six window commands plus, when the allocation succeeded, one data
    frame. *)
Lemma scroll_step_cost (P : platform) (scroll_left : bool) (speed_ms : Z) (m : machine) :
  let m' := (scroll_step P scroll_left speed_ms m).2 in
  mallocs m' = S (mallocs m)
  /\ slept_ms m' = slept_ms m + speed_ms
  /\ (length (bus m) + 6 <= length (bus m') <= length (bus m) + 7)%nat.
Proof.
  cbv zeta. unfold scroll_step, bind, get_device, put_device, sleep_ms.
  rewrite oled_refresh_screen_run, transfer_video_data_run. cbv zeta.
  cbn [dev bus mallocs slept_ms].
  destruct (malloc_succeeds P _ _); cbn [snd dev bus mallocs slept_ms];
    rewrite ?length_app, length_fmap; simpl length; (split; [|split]); (reflexivity || lia).
Qed.

Lemma scroll_steps_cost {A : Type} (P : platform) (scroll_left : bool) (speed_ms : Z)
    (l : list A) :
  forall m,
    let m' := (for_each l (fun _ => scroll_step P scroll_left speed_ms) m).2 in
    mallocs m' = (mallocs m + length l)%nat
    /\ slept_ms m' = slept_ms m + Z.of_nat (length l) * speed_ms
    /\ (length (bus m) + 6 * length l <= length (bus m')
        <= length (bus m) + 7 * length l)%nat.
Proof.
  induction l as [|a l IH]; intros m; cbv zeta.
  - simpl. lia.
  - rewrite for_each_cons.
    destruct (scroll_step_cost P scroll_left speed_ms m) as (Hm & Hs & Hb).
    revert Hm Hs Hb. generalize (scroll_step P scroll_left speed_ms m).2. intros m1 Hm Hs Hb.
    destruct (IH m1) as (Hm' & Hs' & Hb'). rewrite length_cons. lia.
Qed.

(** The cost of a scroll by [distance_pixels] steps: as many allocation
    requests, [distance_pixels * speed_ms] milliseconds of sleep, and
    between six and seven frames per step on the bus (seven when every
    allocation succeeds); a scroll by zero steps does nothing at all. *)
Theorem scroll_cost (P : platform) (scroll_left : bool)
    (speed_ms distance_pixels : Z) (m : machine) :
  0 <= distance_pixels ->
  let m' := (oled_horizontal_scroll P scroll_left speed_ms distance_pixels m).2 in
  Z.of_nat (mallocs m') = Z.of_nat (mallocs m) + distance_pixels
  /\ slept_ms m' = slept_ms m + distance_pixels * speed_ms
  /\ Z.of_nat (length (bus m)) + 6 * distance_pixels
     <= Z.of_nat (length (bus m'))
     <= Z.of_nat (length (bus m)) + 7 * distance_pixels
  /\ (distance_pixels = 0 -> m' = m).
Proof.
  intros Hk. cbv zeta. unfold oled_horizontal_scroll.
  destruct (scroll_steps_cost P scroll_left speed_ms (seqZ 0 distance_pixels) m)
    as (Hm & Hs & Hb).
  rewrite length_seqZ in *. rewrite Z2Nat.id in Hs by lia.
  split; [lia|]. split; [exact Hs|]. split; [lia|].
  intros ->. destruct m. reflexivity.
Qed.

Lemma scroll_cost_witness :
  let m := boot blank_device in
  let m' := (oled_horizontal_scroll good_platform true 30 4 m).2 in
  Z.of_nat (mallocs m') = Z.of_nat (mallocs m) + 4
  /\ slept_ms m' = slept_ms m + 4 * 30
  /\ Z.of_nat (length (bus m)) + 6 * 4
     <= Z.of_nat (length (bus m'))
     <= Z.of_nat (length (bus m)) + 7 * 4
  /\ (4 = 0 -> m' = m).
Proof. apply (scroll_cost good_platform true 30 4 (boot blank_device)). lia. Defined.
